(** * dualpriotest: dual-priority schedulability tests for four periodic tasks

    A shallow embedding of [dualpriotest.c].  The C structures become records
    over [Z]; every signed arithmetic operation of the source goes through
    [int_wrap] (for [int], 32 bits) or [long_wrap] (for [long], 64 bits), the
    two's complement wrap-around of the tested platforms.  Pointers into
    [ts->tasks] are task indices, [NULL] is [None].  Loops that are bounded
    by data ([while (t <= hyper_period)], [while (1)], [for (...; x <= period;
    x++)]) take fuel and answer [Timeout] when it runs out; loops over the four
    tasks ([i < NUM_TASKS]) are unrolled over the four indices. *)

From Stdlib Require Import ZArith List Bool Lia Arith Sorted Permutation.
Import ListNotations.
Local Open Scope Z_scope.

(** ** Machine integers *)

Module MachineInt.

Definition INT_MAX : Z := 2147483647.
Definition INT_MIN : Z := -2147483648.
Definition LONG_MAX : Z := 9223372036854775807.
Definition LONG_MIN : Z := -9223372036854775808.

(** Two's complement reduction into [[lo, hi]], where [hi - lo + 1] is the
    number of values of the type.  A value already in range is left alone
    (the test only saves the division: the formula gives the same). *)
Definition wrap (lo hi : Z) (x : Z) : Z :=
  if (lo <=? x) && (x <=? hi) then x
  else (x - lo) mod (hi - lo + 1) + lo.

Definition int_wrap : Z -> Z := wrap INT_MIN INT_MAX.
Definition long_wrap : Z -> Z := wrap LONG_MIN LONG_MAX.

Definition in_int (x : Z) : Prop := INT_MIN <= x <= INT_MAX.
Definition in_long (x : Z) : Prop := LONG_MIN <= x <= LONG_MAX.

Lemma wrap_formula lo hi x :
  lo <= hi -> wrap lo hi x = (x - lo) mod (hi - lo + 1) + lo.
Proof.
  intros Hle. unfold wrap.
  destruct (lo <=? x) eqn:E1; destruct (x <=? hi) eqn:E2; simpl; try reflexivity.
  apply Z.leb_le in E1, E2. rewrite Z.mod_small; lia.
Qed.

Lemma wrap_id lo hi x : lo <= x <= hi -> wrap lo hi x = x.
Proof.
  intros [H1 H2]. unfold wrap.
  apply Z.leb_le in H1, H2. rewrite H1, H2. reflexivity.
Qed.

Lemma wrap_range lo hi x : lo <= hi -> lo <= wrap lo hi x <= hi.
Proof.
  intros Hle. rewrite wrap_formula by assumption.
  pose proof (Z.mod_pos_bound (x - lo) (hi - lo + 1)). lia.
Qed.

Lemma int_wrap_id x : in_int x -> int_wrap x = x.
Proof. apply wrap_id. Qed.

Lemma long_wrap_id x : in_long x -> long_wrap x = x.
Proof. apply wrap_id. Qed.

Lemma int_wrap_range x : in_int (int_wrap x).
Proof. apply wrap_range. unfold INT_MIN, INT_MAX. lia. Qed.

Lemma long_wrap_range x : in_long (long_wrap x).
Proof. apply wrap_range. unfold LONG_MIN, LONG_MAX. lia. Qed.

(** Incrementing a wrapped counter is incrementing the counter, modulo. *)
Lemma long_wrap_succ x : long_wrap (long_wrap x + 1) = long_wrap (x + 1).
Proof.
  unfold long_wrap.
  rewrite !(wrap_formula LONG_MIN LONG_MAX) by (unfold LONG_MIN, LONG_MAX; lia).
  f_equal.
  replace ((x - LONG_MIN) mod (LONG_MAX - LONG_MIN + 1) + LONG_MIN + 1 - LONG_MIN)
    with ((x - LONG_MIN) mod (LONG_MAX - LONG_MIN + 1) + 1) by lia.
  replace (x + 1 - LONG_MIN) with (x - LONG_MIN + 1) by lia.
  rewrite Z.add_mod_idemp_l by (unfold LONG_MIN, LONG_MAX; lia). reflexivity.
Qed.

End MachineInt.
Export MachineInt.

#[global] Opaque int_wrap long_wrap.

(** ** Tasks and task sets *)

Record task_t : Type := mk_task {
  (* Fixed task parameters *)
  wcet : Z;
  period : Z;
  (* Dual-priority parameters *)
  phase_1_prio : Z;
  phase_2_prio : Z;
  phase_change_point : Z;
  (* Simulation state *)
  last_release_time : Z;
  remaining_wcet : Z
}.

(** [NUM_TASKS] is 4: the array [tasks] has the four cells below. *)
Inductive task_index : Type := I0 | I1 | I2 | I3.

Definition all_tasks : list task_index := [I0; I1; I2; I3].

Definition index_nat (i : task_index) : nat :=
  match i with I0 => 0 | I1 => 1 | I2 => 2 | I3 => 3 end.

Definition index_eqb (i j : task_index) : bool :=
  Nat.eqb (index_nat i) (index_nat j).

Record taskset_t : Type := mk_taskset {
  tasks0 : task_t;
  tasks1 : task_t;
  tasks2 : task_t;
  tasks3 : task_t;
  hyper_period : Z
}.

(** [ts->tasks[i]] *)
Definition tasks (ts : taskset_t) (i : task_index) : task_t :=
  match i with
  | I0 => tasks0 ts
  | I1 => tasks1 ts
  | I2 => tasks2 ts
  | I3 => tasks3 ts
  end.

(** [ts->tasks[i] = tk] *)
Definition set_task (ts : taskset_t) (i : task_index) (tk : task_t) : taskset_t :=
  match i with
  | I0 => mk_taskset tk (tasks1 ts) (tasks2 ts) (tasks3 ts) (hyper_period ts)
  | I1 => mk_taskset (tasks0 ts) tk (tasks2 ts) (tasks3 ts) (hyper_period ts)
  | I2 => mk_taskset (tasks0 ts) (tasks1 ts) tk (tasks3 ts) (hyper_period ts)
  | I3 => mk_taskset (tasks0 ts) (tasks1 ts) (tasks2 ts) tk (hyper_period ts)
  end.

Definition set_phase_1_prio (tk : task_t) (v : Z) : task_t :=
  mk_task (wcet tk) (period tk) v (phase_2_prio tk) (phase_change_point tk)
          (last_release_time tk) (remaining_wcet tk).

Definition set_phase_2_prio (tk : task_t) (v : Z) : task_t :=
  mk_task (wcet tk) (period tk) (phase_1_prio tk) v (phase_change_point tk)
          (last_release_time tk) (remaining_wcet tk).

Definition set_phase_change_point (tk : task_t) (v : Z) : task_t :=
  mk_task (wcet tk) (period tk) (phase_1_prio tk) (phase_2_prio tk) v
          (last_release_time tk) (remaining_wcet tk).

Definition set_sim_state (tk : task_t) (lrt rem : Z) : task_t :=
  mk_task (wcet tk) (period tk) (phase_1_prio tk) (phase_2_prio tk)
          (phase_change_point tk) lrt rem.

(** ** Convenience functions *)

(** The loop of [gcd]; [%] is C's truncating remainder. *)
Fixpoint gcd_loop (fuel : nat) (a b : Z) : option Z :=
  match fuel with
  | O => None
  | S fuel' =>
      if b =? 0 then Some a
      else let temp := Z.rem a b in gcd_loop fuel' b temp
  end.

(** [|b|] strictly decreases, so [|b| + 1] rounds are enough. *)
Definition gcd (a b : Z) : Z :=
  match gcd_loop (S (Z.abs_nat b)) a b with
  | Some g => g
  | None => 0
  end.

Definition lcm (a b : Z) : Z :=
  long_wrap (Z.quot a (gcd a b) * b).

(** [hyper_period(ts)]: the fold of [lcm] over the four periods, from 1. *)
Definition hyper_period_of (ts : taskset_t) : Z :=
  fold_left (fun hp i => lcm hp (period (tasks ts i))) all_tasks 1.

(** ** Simulating dual-priority scheduling of the SAS *)

Definition reset_simulation_state (ts : taskset_t) : taskset_t :=
  fold_left (fun ts i => set_task ts i (set_sim_state (tasks ts i) (-1) (-1)))
            all_tasks ts.

Definition is_active (task : task_t) : bool :=
  0 <? remaining_wcet task.

Definition can_release (task : task_t) (t : Z) : bool :=
  if last_release_time task <? 0 then true
  else period task <=? long_wrap (t - last_release_time task).

Definition release (task : task_t) (t : Z) : task_t :=
  set_sim_state task t (wcet task).

Definition has_missed_deadline (task : task_t) (t : Z) : bool :=
  is_active task && can_release task t.

Definition get_priority (task : task_t) (t : Z) : Z :=
  if long_wrap (t - last_release_time task) <? phase_change_point task
  then phase_1_prio task
  else phase_2_prio task.

(** One round of the scan in [get_highest_prio_active_task]; the state is
    [(highest_prio, hp_task)]. *)
Definition hp_scan_step (ts : taskset_t) (t : Z)
    (acc : Z * option task_index) (i : task_index) : Z * option task_index :=
  if is_active (tasks ts i) then
    let prio := get_priority (tasks ts i) t in
    if (prio <? fst acc) || (fst acc <? 0) then (prio, Some i) else acc
  else acc.

Definition hp_scan (ts : taskset_t) (t : Z) (l : list task_index)
    (acc : Z * option task_index) : Z * option task_index :=
  fold_left (hp_scan_step ts t) l acc.

Definition get_highest_prio_active_task (ts : taskset_t) (t : Z)
    : option task_index :=
  snd (hp_scan ts t all_tasks (-1, None)).

(** The first task, in index order, that has missed its deadline at [t]. *)
Definition first_deadline_miss (ts : taskset_t) (t : Z) : option task_index :=
  find (fun i => has_missed_deadline (tasks ts i) t) all_tasks.

(** "Release new jobs from all ready tasks." *)
Definition release_ready (ts : taskset_t) (t : Z) : taskset_t :=
  fold_left (fun ts i =>
               if can_release (tasks ts i) t
               then set_task ts i (release (tasks ts i) t)
               else ts)
            all_tasks ts.

(** "Execute the highest-priority task": [hp_task->remaining_wcet--]. *)
Definition execute_highest (ts : taskset_t) (t : Z) : taskset_t :=
  match get_highest_prio_active_task ts t with
  | Some i =>
      set_task ts i
        (set_sim_state (tasks ts i) (last_release_time (tasks ts i))
                       (int_wrap (remaining_wcet (tasks ts i) - 1)))
  | None => ts
  end.

(** The part of the loop body of [simulate_sas] after the deadline check. *)
Definition sas_tick (ts : taskset_t) (t : Z) : taskset_t :=
  execute_highest (release_ready ts t) t.

(** Outcome of a function call that threads the task set: the returned
    value and the task set as the call leaves it, a failed [assert], or no
    answer within the fuel given. *)
Inductive call (R : Type) : Type :=
| Returned (r : R) (ts : taskset_t)
| Aborted
| OutOfFuel.
Arguments Returned {R} r ts.
Arguments Aborted {R}.
Arguments OutOfFuel {R}.

(** [while (t <= ts->hyper_period) { ... t++; }] *)
Fixpoint sas_loop (fuel : nat) (ts : taskset_t) (t : Z)
    : call (option task_index) :=
  match fuel with
  | O => OutOfFuel
  | S fuel' =>
      if t <=? hyper_period ts then
        match first_deadline_miss ts t with
        | Some i => Returned (Some i) ts
        | None => sas_loop fuel' (sas_tick ts t) (long_wrap (t + 1))
        end
      else Returned None ts
  end.

Definition simulate_sas (fuel : nat) (ts : taskset_t)
    : call (option task_index) :=
  sas_loop fuel (reset_simulation_state ts) 0.

(** ** Statements, loops and the search state *)

(** Outcome of a statement inside a function body: control falls through
    to the next statement, the function returns, an [assert] fails, or the
    fuel runs out. *)
Inductive exec (S R : Type) : Type :=
| Next (s : S)
| Ret (r : R) (s : S)
| Abort
| Timeout.
Arguments Next {S R} s.
Arguments Ret {S R} r s.
Arguments Abort {S R}.
Arguments Timeout {S R}.

(** [for (int x = i; cond; x++) body].  A [continue] in the body is [Next]. *)
Fixpoint for_loop {S R : Type} (fuel : nat) (i : Z) (cond : Z -> S -> bool)
    (body : nat -> Z -> S -> exec S R) (s : S) : exec S R :=
  match fuel with
  | O => Timeout
  | S fuel' =>
      if cond i s then
        match body fuel' i s with
        | Next s' => for_loop fuel' (int_wrap (i + 1)) cond body s'
        | stop => stop
        end
      else Next s
  end.

(** The variables of a search function: the task set behind [ts], the
    counter of generated configurations, and (ghost) the configurations
    generated so far, oldest first. *)
Record search (E : Type) : Type := mk_search {
  cur : taskset_t;
  generated : Z;
  visited : list E
}.
Arguments mk_search {E} cur generated visited.
Arguments cur {E} s.
Arguments generated {E} s.
Arguments visited {E} s.

Definition with_cur {E} (s : search E) (ts : taskset_t) : search E :=
  mk_search ts (generated s) (visited s).

(** [generated++; ] and the configuration goes on record. *)
Definition count_generated {E} (s : search E) (e : E) : search E :=
  mk_search (cur s) (long_wrap (generated s + 1)) (visited s ++ [e]).

(** The phase change points of the four tasks. *)
Abbreviation pcp_config := (Z * Z * Z * Z)%type.

Definition pcps (ts : taskset_t) : pcp_config :=
  (phase_change_point (tasks0 ts), phase_change_point (tasks1 ts),
   phase_change_point (tasks2 ts), phase_change_point (tasks3 ts)).

Definition set_pcp (ts : taskset_t) (i : task_index) (v : Z) : taskset_t :=
  set_task ts i (set_phase_change_point (tasks ts i) v).

Definition set_pcps (ts : taskset_t) (c : pcp_config) : taskset_t :=
  let '(a, b, c, d) := c in
  set_pcp (set_pcp (set_pcp (set_pcp ts I0 a) I1 b) I2 c) I3 d.

(** The priorities of the four tasks, as [print_taskset] lists them:
    phase 1 and phase 2 of T1, then of T2, T3, T4. *)
Definition prios (ts : taskset_t) : list Z :=
  flat_map (fun i => [phase_1_prio (tasks ts i); phase_2_prio (tasks ts i)])
           all_tasks.

Inductive prio_slot : Type := Phase1 | Phase2.

Definition set_prio (ts : taskset_t) (sl : prio_slot) (i : task_index) (v : Z)
    : taskset_t :=
  match sl with
  | Phase1 => set_task ts i (set_phase_1_prio (tasks ts i) v)
  | Phase2 => set_task ts i (set_phase_2_prio (tasks ts i) v)
  end.

(** ** The FDMS policy *)

(** [while (1) { miss_task = simulate_sas(ts); ... }]; [sims] (ghost) lists
    the phase change points of the simulations made so far. *)
Fixpoint fdms_loop (fuel : nat) (ts : taskset_t) (sims : list pcp_config)
    : call (Z * list pcp_config) :=
  match fuel with
  | O => OutOfFuel
  | S fuel' =>
      let sims' := sims ++ [pcps ts] in
      match simulate_sas fuel' ts with
      | Returned None ts' => Returned (1, sims') ts'
      | Returned (Some k) ts' =>
          if 0 <? phase_change_point (tasks ts' k) then
            fdms_loop fuel'
              (set_pcp ts' k (int_wrap (phase_change_point (tasks ts' k) - 1)))
              sims'
          else Returned (0, sims') ts'
      | Aborted => Aborted
      | OutOfFuel => OutOfFuel
      end
  end.

Definition pcps_to_periods (ts : taskset_t) : taskset_t :=
  fold_left (fun ts i => set_pcp ts i (period (tasks ts i))) all_tasks ts.

Definition test_fdms_phase_change_points (fuel : nat) (ts : taskset_t)
    : call (Z * list pcp_config) :=
  fdms_loop fuel (pcps_to_periods ts) [].

(** ** All phase change points *)

(** The product is taken in [int]; the result is stored in a [long]. *)
Definition total_combinations (ts : taskset_t) : Z :=
  int_wrap (int_wrap (int_wrap (int_wrap (period (tasks0 ts) + 1)
                                * int_wrap (period (tasks1 ts) + 1))
                      * int_wrap (period (tasks2 ts) + 1))
            * int_wrap (period (tasks3 ts) + 1)).

(** [for (int Tpcp = 0; Tpcp <= ts->tasks[i].period; Tpcp++) {
       ts->tasks[i].phase_change_point = Tpcp; inner } ] *)
Definition pcp_loop {E R} (fuel : nat) (i : task_index)
    (inner : nat -> search E -> exec (search E) R) (s : search E)
    : exec (search E) R :=
  for_loop fuel 0
    (fun x s => x <=? period (tasks (cur s) i))
    (fun fuel' x s => inner fuel' (with_cur s (set_pcp (cur s) i x)))
    s.

(** A simulation on record: the phase change points and what
    [simulate_sas] returned. *)
Abbreviation sim_record := (pcp_config * option task_index)%type.

(** The body of the innermost loop. *)
Definition try_combination (fuel : nat) (s : search sim_record)
    : exec (search sim_record) Z :=
  match simulate_sas fuel (cur s) with
  | Returned None ts' =>
      Ret 1 (with_cur (count_generated s (pcps (cur s), None)) ts')
  | Returned (Some k) ts' =>
      Next (with_cur (count_generated s (pcps (cur s), Some k)) ts')
  | Aborted => Abort
  | OutOfFuel => Timeout
  end.

Definition all_phase_change_points (fuel : nat) (s : search sim_record)
    : exec (search sim_record) Z :=
  pcp_loop fuel I0 (fun fuel =>
  pcp_loop fuel I1 (fun fuel =>
  pcp_loop fuel I2 (fun fuel =>
  pcp_loop fuel I3 try_combination))) s.

Definition test_all_phase_change_points (fuel : nat) (ts : taskset_t)
    : call (Z * list sim_record) :=
  let total := total_combinations ts in
  match all_phase_change_points fuel (mk_search ts 0 []) with
  | Ret r s => Returned (r, visited s) (cur s)
  | Next s =>
      (* assert(generated_combinations == total_combinations); return 0; *)
      if generated s =? total then Returned (0, visited s) (cur s)
      else Aborted
  | Abort => Aborted
  | Timeout => OutOfFuel
  end.

(** ** All priority permutations *)

(** [for (int x = start; x < 8; x++) {
       if (x == u) continue;   (one test for each u of used, in order)
       ts->tasks[i].phase_k_prio = x; inner } ] *)
Definition prio_loop {E R} (fuel : nat) (start : Z) (used : list Z)
    (sl : prio_slot) (i : task_index)
    (inner : nat -> Z -> search E -> exec (search E) R) (s : search E)
    : exec (search E) R :=
  for_loop fuel start
    (fun x _ => x <? 8)
    (fun fuel' x s =>
       if existsb (Z.eqb x) used then Next s
       else inner fuel' x (with_cur s (set_prio (cur s) sl i x)))
    s.

(** The body of the innermost loop of both searches. *)
Definition try_permutation (fuel : nat) (s : search (list Z))
    : exec (search (list Z)) Z :=
  let s := count_generated s (prios (cur s)) in
  match test_all_phase_change_points fuel (cur s) with
  | Returned (r, _) ts' => if r =? 0 then Next (with_cur s ts')
                           else Ret 1 (with_cur s ts')
  | Aborted => Abort
  | OutOfFuel => Timeout
  end.

Definition all_priority_permutations (fuel : nat) (s : search (list Z))
    : exec (search (list Z)) Z :=
  prio_loop fuel 0 [] Phase2 I0 (fun fuel T1p2 =>
  prio_loop fuel 0 [T1p2] Phase2 I1 (fun fuel T2p2 =>
  prio_loop fuel 0 [T1p2; T2p2] Phase2 I2 (fun fuel T3p2 =>
  prio_loop fuel 0 [T1p2; T2p2; T3p2] Phase2 I3 (fun fuel T4p2 =>
  prio_loop fuel 0 [T1p2; T2p2; T3p2; T4p2] Phase1 I0 (fun fuel T1p1 =>
  prio_loop fuel 0 [T1p2; T2p2; T3p2; T4p2; T1p1] Phase1 I1 (fun fuel T2p1 =>
  prio_loop fuel 0 [T1p2; T2p2; T3p2; T4p2; T1p1; T2p1] Phase1 I2
    (fun fuel T3p1 =>
  prio_loop fuel 0 [T1p2; T2p2; T3p2; T4p2; T1p1; T2p1; T3p1] Phase1 I3
    (fun fuel T4p1 => try_permutation fuel)))))))) s.

(** The outcome of a permutation search, after its loops. *)
Definition finish_search {E} (total : Z) (r : exec (search E) Z)
    : call (Z * list E) :=
  match r with
  | Ret r s => Returned (r, visited s) (cur s)
  | Next s =>
      (* assert(generated_permutations == total_permutations); return 0; *)
      if generated s =? total then Returned (0, visited s) (cur s)
      else Aborted
  | Abort => Aborted
  | Timeout => OutOfFuel
  end.

Definition test_all_configurations_exhaustively (fuel : nat) (ts : taskset_t)
    : call (Z * list (list Z)) :=
  let total_permutations := 8*7*6*5*4*3*2*1 in
  finish_search total_permutations
    (all_priority_permutations fuel (mk_search ts 0 [])).

Definition rm_priority_permutations (fuel : nat) (s : search (list Z))
    : exec (search (list Z)) Z :=
  prio_loop fuel 0 [] Phase1 I0 (fun fuel T1p1 =>
  prio_loop fuel (int_wrap (T1p1 + 1)) [] Phase1 I1 (fun fuel T2p1 =>
  prio_loop fuel (int_wrap (T2p1 + 1)) [] Phase1 I2 (fun fuel T3p1 =>
  prio_loop fuel (int_wrap (T3p1 + 1)) [] Phase1 I3 (fun fuel T4p1 =>
  prio_loop fuel 0 [T1p1; T2p1; T3p1; T4p1] Phase2 I0 (fun fuel T1p2 =>
  prio_loop fuel 0 [T1p1; T2p1; T3p1; T4p1; T1p2] Phase2 I1 (fun fuel T2p2 =>
  prio_loop fuel 0 [T1p1; T2p1; T3p1; T4p1; T1p2; T2p2] Phase2 I2
    (fun fuel T3p2 =>
  prio_loop fuel 0 [T1p1; T2p1; T3p1; T4p1; T1p2; T2p2; T3p2] Phase2 I3
    (fun fuel T4p2 => try_permutation fuel)))))))) s.

Definition test_rm_configurations_exhaustively (fuel : nat) (ts : taskset_t)
    : call (Z * list (list Z)) :=
  let total_permutations := 8*7*6*5 in
  finish_search total_permutations
    (rm_priority_permutations fuel (mk_search ts 0 [])).

(** ** The task set of the third counterexample *)

Definition with_hyper_period (ts : taskset_t) (hp : Z) : taskset_t :=
  mk_taskset (tasks0 ts) (tasks1 ts) (tasks2 ts) (tasks3 ts) hp.

(** [verify_counterexample_3], up to the call of the FDMS test.  The fields
    that the C code leaves uninitialised are 0 here. *)
Definition cex3 : taskset_t :=
  let T c p p1 p2 := mk_task c p p1 p2 0 0 0 in
  let ts := mk_taskset (T 6 11 4 0) (T 6 20 5 1) (T 4 46 6 2) (T 5 74 7 3) 0 in
  with_hyper_period ts (hyper_period_of ts).

(** Four tasks that each need two units of a period of one. *)
Definition all_overloaded : taskset_t :=
  let T := mk_task 2 1 0 0 0 0 0 in
  mk_taskset T T T T 1.

(** * Properties *)

(** ** Task sets cell by cell *)

Lemma index_nat_inj i j : index_nat i = index_nat j -> i = j.
Proof. destruct i, j; simpl; intros H; congruence. Qed.

Lemma tasks_set_task ts i j tk :
  tasks (set_task ts i tk) j = if index_eqb i j then tk else tasks ts j.
Proof. destruct i, j; reflexivity. Qed.

Lemma hyper_period_set_task ts i tk :
  hyper_period (set_task ts i tk) = hyper_period ts.
Proof. destruct i; reflexivity. Qed.

Lemma taskset_ext ts ts' :
  (forall i, tasks ts i = tasks ts' i) ->
  hyper_period ts = hyper_period ts' -> ts = ts'.
Proof.
  intros H Hhp. destruct ts, ts'. simpl in Hhp.
  pose proof (H I0) as H0. pose proof (H I1) as H1.
  pose proof (H I2) as H2. pose proof (H I3) as H3.
  simpl in H0, H1, H2, H3. congruence.
Qed.

Lemma tasks_reset ts i :
  tasks (reset_simulation_state ts) i = set_sim_state (tasks ts i) (-1) (-1).
Proof. destruct i; reflexivity. Qed.

Lemma hyper_period_reset ts :
  hyper_period (reset_simulation_state ts) = hyper_period ts.
Proof. reflexivity. Qed.

Definition release_if_ready (t : Z) (tk : task_t) : task_t :=
  if can_release tk t then release tk t else tk.

Lemma release_step ts t i :
  (if can_release (tasks ts i) t
   then set_task ts i (release (tasks ts i) t) else ts)
  = set_task ts i (release_if_ready t (tasks ts i)).
Proof.
  unfold release_if_ready. destruct (can_release (tasks ts i) t).
  - reflexivity.
  - destruct ts, i; reflexivity.
Qed.

Lemma release_ready_cells ts t :
  release_ready ts t =
  mk_taskset (release_if_ready t (tasks0 ts)) (release_if_ready t (tasks1 ts))
             (release_if_ready t (tasks2 ts)) (release_if_ready t (tasks3 ts))
             (hyper_period ts).
Proof.
  unfold release_ready, all_tasks. cbn [fold_left].
  rewrite !release_step. reflexivity.
Qed.

Lemma tasks_release_ready ts t i :
  tasks (release_ready ts t) i = release_if_ready t (tasks ts i).
Proof. rewrite release_ready_cells. destruct i; reflexivity. Qed.

Lemma hyper_period_release_ready ts t :
  hyper_period (release_ready ts t) = hyper_period ts.
Proof. rewrite release_ready_cells. reflexivity. Qed.

(** The task that [execute_highest] leaves in cell [i]. *)
Definition run_one_unit (tk : task_t) : task_t :=
  set_sim_state tk (last_release_time tk) (int_wrap (remaining_wcet tk - 1)).

Lemma tasks_execute_highest ts t i :
  tasks (execute_highest ts t) i =
  match get_highest_prio_active_task ts t with
  | Some k => if index_eqb k i then run_one_unit (tasks ts i) else tasks ts i
  | None => tasks ts i
  end.
Proof.
  unfold execute_highest.
  destruct (get_highest_prio_active_task ts t) as [k|]; [|reflexivity].
  rewrite tasks_set_task.
  destruct k, i; cbn [index_eqb index_nat Nat.eqb]; reflexivity.
Qed.

Lemma hyper_period_execute_highest ts t :
  hyper_period (execute_highest ts t) = hyper_period ts.
Proof.
  unfold execute_highest.
  destruct (get_highest_prio_active_task ts t); [|reflexivity].
  apply hyper_period_set_task.
Qed.

Lemma hyper_period_sas_tick ts t :
  hyper_period (sas_tick ts t) = hyper_period ts.
Proof.
  unfold sas_tick.
  rewrite hyper_period_execute_highest. apply hyper_period_release_ready.
Qed.

(** ** The highest-priority active task *)

Section HighestPriority.

Variables (ts : taskset_t) (t : Z).

Let prio (i : task_index) : Z := get_priority (tasks ts i) t.
Let active (i : task_index) : Prop := is_active (tasks ts i) = true.

(** [k] is the choice among the tasks of [seen]: active, of the lowest
    priority value, and of the lowest index among those. *)
Definition chosen_among (seen : list task_index) (k : task_index) : Prop :=
  In k seen /\ active k /\
  forall j, In j seen -> active j ->
    prio k < prio j \/ (prio k = prio j /\ (index_nat k <= index_nat j)%nat).

Definition scan_ok (seen : list task_index) (acc : Z * option task_index)
    : Prop :=
  match snd acc with
  | None => fst acc < 0 /\ forall j, In j seen -> ~ active j
  | Some k => fst acc = prio k /\ chosen_among seen k
  end.

Hypothesis prios_nonneg :
  forall i, 0 <= phase_1_prio (tasks ts i) /\ 0 <= phase_2_prio (tasks ts i).

Lemma prio_nonneg i : 0 <= prio i.
Proof.
  unfold prio, get_priority. destruct (prios_nonneg i).
  destruct (_ <? _); assumption.
Qed.

Lemma hp_scan_step_ok seen acc i :
  (forall a, In a seen -> (index_nat a < index_nat i)%nat) ->
  scan_ok seen acc -> scan_ok (seen ++ [i]) (hp_scan_step ts t acc i).
Proof.
  intros Hbefore Hok. unfold hp_scan_step.
  destruct (is_active (tasks ts i)) eqn:Hact.
  - fold (prio i). destruct acc as [hp res]. unfold scan_ok in *. simpl in *.
    destruct ((prio i <? hp) || (hp <? 0)) eqn:Htake; simpl.
    + split; [reflexivity|]. split; [apply in_app_iff; right; left; reflexivity|].
      split; [exact Hact|]. intros j Hj Hactj.
      apply in_app_iff in Hj. destruct Hj as [Hj|[<-|[]]]; [|right; split; lia].
      destruct res as [k|].
      * destruct Hok as [-> (Hk & Hka & Hbest)].
        apply orb_true_iff in Htake. destruct Htake as [Hlt|Hneg].
        -- apply Z.ltb_lt in Hlt. destruct (Hbest j Hj Hactj) as [?|[? _]]; left; lia.
        -- apply Z.ltb_lt in Hneg. pose proof (prio_nonneg k). lia.
      * destruct Hok as [_ Hnone]. destruct (Hnone j Hj Hactj).
    + apply orb_false_iff in Htake. destruct Htake as [Hge Hpos].
      apply Z.ltb_ge in Hge, Hpos.
      destruct res as [k|]; [|destruct Hok; lia].
      destruct Hok as [-> (Hk & Hka & Hbest)].
      split; [reflexivity|]. split; [apply in_app_iff; left; exact Hk|].
      split; [exact Hka|]. intros j Hj Hactj.
      apply in_app_iff in Hj. destruct Hj as [Hj|[<-|[]]]; [auto|].
      pose proof (Hbefore k Hk).
      destruct (Z.eq_dec (prio k) (prio i)); [right; split; lia | left; lia].
  - destruct acc as [hp res]. unfold scan_ok in *. simpl in *.
    destruct res as [k|].
    + destruct Hok as [-> (Hk & Hka & Hbest)].
      split; [reflexivity|]. split; [apply in_app_iff; left; exact Hk|].
      split; [exact Hka|]. intros j Hj Hactj.
      apply in_app_iff in Hj. destruct Hj as [Hj|[<-|[]]]; [auto|].
      unfold active in Hactj. congruence.
    + destruct Hok as [Hneg Hnone]. split; [exact Hneg|].
      intros j Hj. apply in_app_iff in Hj. destruct Hj as [Hj|[<-|[]]]; [auto|].
      unfold active. congruence.
Qed.

Lemma hp_scan_ok l : forall seen acc,
  (forall a b, In a seen -> In b l -> (index_nat a < index_nat b)%nat) ->
  StronglySorted (fun a b => (index_nat a < index_nat b)%nat) l ->
  scan_ok seen acc -> scan_ok (seen ++ l) (hp_scan ts t l acc).
Proof.
  induction l as [|i l IH]; intros seen acc Hbefore Hsorted Hok; simpl.
  - rewrite app_nil_r. exact Hok.
  - replace (seen ++ i :: l) with ((seen ++ [i]) ++ l)
      by (rewrite <- app_assoc; reflexivity).
    inversion Hsorted as [|? ? Hs Hall]; subst.
    apply IH; [| exact Hs |].
    + intros a b Ha Hb. apply in_app_iff in Ha. destruct Ha as [Ha|[<-|[]]].
      * apply Hbefore; [exact Ha | right; exact Hb].
      * rewrite Forall_forall in Hall. apply Hall, Hb.
    + apply hp_scan_step_ok; [|exact Hok].
      intros a Ha. apply Hbefore; [exact Ha | left; reflexivity].
Qed.

Lemma all_tasks_sorted :
  StronglySorted (fun a b => (index_nat a < index_nat b)%nat) all_tasks.
Proof.
  unfold all_tasks.
  repeat first [ apply SSorted_nil | apply SSorted_cons
               | apply Forall_nil | apply Forall_cons ];
    apply Nat.ltb_lt; reflexivity.
Qed.

Lemma in_all_tasks i : In i all_tasks.
Proof. destruct i; simpl; auto. Qed.

Lemma get_highest_ok :
  scan_ok all_tasks (hp_scan ts t all_tasks (-1, None)).
Proof.
  apply (hp_scan_ok all_tasks [] (-1, None)).
  - intros a b [].
  - exact all_tasks_sorted.
  - unfold scan_ok. simpl. split; [lia | intros j []].
Qed.

Lemma chosen_among_unique seen k k' :
  chosen_among seen k -> chosen_among seen k' -> k = k'.
Proof.
  intros (Hk & Hka & Hb) (Hk' & Hka' & Hb').
  apply index_nat_inj.
  destruct (Hb k' Hk' Hka') as [?|[? ?]];
    destruct (Hb' k Hk Hka) as [?|[? ?]]; lia.
Qed.

End HighestPriority.

(** C4: with non-negative priorities, [get_highest_prio_active_task] returns
    the active task of numerically lowest effective priority ([get_priority]:
    phase 1 priority while [t - last_release_time < phase_change_point], phase
    2 priority afterwards), the lowest index winning ties, and it returns
    [NULL] exactly when no task is active. *)
Theorem get_highest_prio_active_task_spec (ts : taskset_t) (t : Z) :
  (forall i, 0 <= phase_1_prio (tasks ts i) /\ 0 <= phase_2_prio (tasks ts i)) ->
  (forall k,
     get_highest_prio_active_task ts t = Some k <->
     is_active (tasks ts k) = true /\
     forall j, is_active (tasks ts j) = true ->
       get_priority (tasks ts k) t < get_priority (tasks ts j) t \/
       (get_priority (tasks ts k) t = get_priority (tasks ts j) t /\
        (index_nat k <= index_nat j)%nat))
  /\ (get_highest_prio_active_task ts t = None <->
      forall j, is_active (tasks ts j) = false).
Proof.
  intros Hnn. pose proof (get_highest_ok ts t Hnn) as Hok.
  unfold get_highest_prio_active_task.
  destruct (hp_scan ts t all_tasks (-1, None)) as [hp res].
  unfold scan_ok in Hok. simpl in *. split.
  - intros k. split.
    + intros ->. destruct Hok as [_ (_ & Hact & Hbest)].
      split; [exact Hact|]. intros j Hj. apply Hbest; [apply in_all_tasks|exact Hj].
    + intros [Hact Hbest]. destruct res as [k'|].
      * destruct Hok as [_ Hch]. f_equal.
        apply (chosen_among_unique ts t all_tasks); [exact Hch|].
        split; [apply in_all_tasks|]. split; [exact Hact|].
        intros j _ Hj. apply Hbest, Hj.
      * destruct Hok as [_ Hnone]. destruct (Hnone k (in_all_tasks k) Hact).
  - split.
    + intros ->. destruct Hok as [_ Hnone]. intros j.
      destruct (is_active (tasks ts j)) eqn:E; [|reflexivity].
      destruct (Hnone j (in_all_tasks j) E).
    + intros Hnone. destruct res as [k|]; [|reflexivity].
      destruct Hok as [_ (_ & Hact & _)]. rewrite Hnone in Hact. discriminate.
Qed.

(** The witness of C4: the third counterexample at time 0, after the
    releases; T1 runs. *)
Lemma get_highest_prio_active_task_spec_witness :
  get_highest_prio_active_task
    (release_ready (reset_simulation_state cex3) 0) 0 = Some I0.
Proof.
  apply (get_highest_prio_active_task_spec
           (release_ready (reset_simulation_state cex3) 0) 0).
  - intros i. destruct i; vm_compute; split; discriminate.
  - split; [reflexivity|].
    intros j _. destruct j; vm_compute; [right | left | left | left];
      first [reflexivity | split; [reflexivity | apply le_n]].
Defined.

(** ** Runs of the simulator *)

Lemma hp_scan_active ts t l : forall acc,
  (forall i, snd acc = Some i -> is_active (tasks ts i) = true) ->
  forall i, snd (hp_scan ts t l acc) = Some i -> is_active (tasks ts i) = true.
Proof.
  induction l as [|j l IH]; intros acc Hacc i; simpl; [apply Hacc|].
  apply IH. intros i'. unfold hp_scan_step.
  destruct (is_active (tasks ts j)) eqn:Hact; [|apply Hacc].
  destruct (_ || _); [|apply Hacc].
  simpl. intros [= <-]. exact Hact.
Qed.

Lemma get_highest_is_active ts t i :
  get_highest_prio_active_task ts t = Some i -> is_active (tasks ts i) = true.
Proof.
  unfold get_highest_prio_active_task. apply hp_scan_active.
  simpl. discriminate.
Qed.

(** What a tick leaves of a task, but for its simulation state. *)
Lemma set_sim_state_release_if_ready t tk a b :
  set_sim_state (release_if_ready t tk) a b = set_sim_state tk a b.
Proof. unfold release_if_ready. destruct (can_release tk t); reflexivity. Qed.

Lemma set_sim_state_run_one_unit tk a b :
  set_sim_state (run_one_unit tk) a b = set_sim_state tk a b.
Proof. reflexivity. Qed.

Lemma reset_sas_tick ts t :
  reset_simulation_state (sas_tick ts t) = reset_simulation_state ts.
Proof.
  apply taskset_ext.
  - intros i. rewrite !tasks_reset. unfold sas_tick.
    rewrite tasks_execute_highest.
    destruct (get_highest_prio_active_task _ _) as [k|];
      [destruct (index_eqb k i)|];
      rewrite ?set_sim_state_run_one_unit, tasks_release_ready;
      apply set_sim_state_release_if_ready.
  - rewrite !hyper_period_reset. apply hyper_period_sas_tick.
Qed.

Lemma reset_idempotent ts :
  reset_simulation_state (reset_simulation_state ts) = reset_simulation_state ts.
Proof. reflexivity. Qed.

Lemma sas_loop_reset fuel : forall ts t v ts',
  sas_loop fuel ts t = Returned v ts' ->
  reset_simulation_state ts' = reset_simulation_state ts.
Proof.
  induction fuel as [|fuel IH]; intros ts t v ts'; simpl; [discriminate|].
  destruct (t <=? hyper_period ts).
  - destruct (first_deadline_miss ts t).
    + intros [= _ <-]. reflexivity.
    + intros H. apply IH in H. rewrite H. apply reset_sas_tick.
  - intros [= _ <-]. reflexivity.
Qed.

(** [simulate_sas] changes nothing but the simulation state. *)
Lemma simulate_sas_reset fuel ts v ts' :
  simulate_sas fuel ts = Returned v ts' ->
  reset_simulation_state ts' = reset_simulation_state ts.
Proof. intros H. apply sas_loop_reset in H. exact H. Qed.

(** It starts from the reset state, so it reads nothing else. *)
Lemma simulate_sas_config fuel ts ts' :
  reset_simulation_state ts = reset_simulation_state ts' ->
  simulate_sas fuel ts = simulate_sas fuel ts'.
Proof. unfold simulate_sas. intros ->. reflexivity. Qed.

Lemma sas_loop_never_aborts fuel : forall ts t, sas_loop fuel ts t <> Aborted.
Proof.
  induction fuel as [|fuel IH]; intros ts t; simpl; [discriminate|].
  destruct (t <=? hyper_period ts); [|discriminate].
  destruct (first_deadline_miss ts t); [discriminate|apply IH].
Qed.

(** More fuel does not change an answer. *)
Lemma sas_loop_more_fuel fuel : forall fuel' ts t v ts',
  (fuel <= fuel')%nat ->
  sas_loop fuel ts t = Returned v ts' -> sas_loop fuel' ts t = Returned v ts'.
Proof.
  induction fuel as [|fuel IH]; intros fuel' ts t v ts' Hle; simpl;
    [discriminate|].
  destruct fuel' as [|fuel']; [lia|]. simpl.
  destruct (t <=? hyper_period ts); [|trivial].
  destruct (first_deadline_miss ts t); [trivial|].
  apply IH. lia.
Qed.

Lemma simulate_sas_deterministic f1 f2 ts v1 v2 ts1 ts2 :
  simulate_sas f1 ts = Returned v1 ts1 ->
  simulate_sas f2 ts = Returned v2 ts2 -> v1 = v2 /\ ts1 = ts2.
Proof.
  unfold simulate_sas. intros H1 H2.
  apply (sas_loop_more_fuel f1 (Nat.max f1 f2)) in H1; [|lia].
  apply (sas_loop_more_fuel f2 (Nat.max f1 f2)) in H2; [|lia].
  rewrite H1 in H2. injection H2 as -> ->. split; reflexivity.
Qed.

(** The time counter does not overflow below [LONG_MAX], and the loop ends
    when it passes the hyper-period. *)
Lemma sas_loop_terminates fuel : forall ts t,
  hyper_period ts < LONG_MAX -> 0 <= t ->
  (Z.to_nat (hyper_period ts + 1 - t) < fuel)%nat ->
  sas_loop fuel ts t <> OutOfFuel.
Proof.
  induction fuel as [|fuel IH]; intros ts t Hhp Ht Hfuel; [lia|]. simpl.
  destruct (t <=? hyper_period ts) eqn:E; [|discriminate].
  apply Z.leb_le in E.
  destruct (first_deadline_miss ts t); [discriminate|].
  rewrite long_wrap_id
    by (unfold in_long, LONG_MIN; unfold LONG_MAX in *; lia).
  apply IH; rewrite ?hyper_period_sas_tick; lia.
Qed.

(** Fuel that is enough for any simulation of [ts]. *)
Definition sas_fuel (ts : taskset_t) : nat :=
  S (Z.to_nat (hyper_period ts + 1)).

Lemma simulate_sas_terminates fuel ts :
  hyper_period ts < LONG_MAX -> (sas_fuel ts <= fuel)%nat ->
  exists v ts', simulate_sas fuel ts = Returned v ts'.
Proof.
  intros Hhp Hfuel. unfold simulate_sas.
  pose proof (sas_loop_terminates fuel (reset_simulation_state ts) 0) as Ht.
  pose proof (sas_loop_never_aborts fuel (reset_simulation_state ts) 0) as Ha.
  rewrite hyper_period_reset in Ht. unfold sas_fuel in Hfuel.
  destruct (sas_loop fuel (reset_simulation_state ts) 0) as [v ts'| |].
  - exists v, ts'. reflexivity.
  - congruence.
  - exfalso. apply Ht; [exact Hhp | lia | | reflexivity].
    rewrite Z.sub_0_r. lia.
Qed.

(** The points of control of [simulate_sas]: at the deadline check, after
    the releases, after the execution of one unit. *)
Inductive stage : Type := Checking | Released | Executed.

(** [sas_run ts0 n stg t ts]: the simulation of [ts0] reaches stage [stg]
    of its round number [n] (from 0), with the time counter at [t] and the
    task set in state [ts]. *)
Inductive sas_run (ts0 : taskset_t) : nat -> stage -> Z -> taskset_t -> Prop :=
| run_start :
    sas_run ts0 0 Checking 0 (reset_simulation_state ts0)
| run_release n t ts :
    sas_run ts0 n Checking t ts ->
    t <= hyper_period ts ->
    first_deadline_miss ts t = None ->
    sas_run ts0 n Released t (release_ready ts t)
| run_execute n t ts :
    sas_run ts0 n Released t ts ->
    sas_run ts0 n Executed t (execute_highest ts t)
| run_next n t ts :
    sas_run ts0 n Executed t ts ->
    sas_run ts0 (S n) Checking (long_wrap (t + 1)) ts.

(** The loop goes through these points and no others: it stops at one. *)
Lemma sas_loop_follows_run ts0 fuel : forall n t ts v ts',
  sas_run ts0 n Checking t ts ->
  sas_loop fuel ts t = Returned v ts' ->
  exists n' t',
    sas_run ts0 n' Checking t' ts' /\
    match v with
    | Some k => t' <= hyper_period ts' /\ first_deadline_miss ts' t' = Some k
    | None => hyper_period ts' < t'
    end.
Proof.
  induction fuel as [|fuel IH]; intros n t ts v ts' Hrun; simpl; [discriminate|].
  destruct (t <=? hyper_period ts) eqn:E.
  - apply Z.leb_le in E. destruct (first_deadline_miss ts t) as [k|] eqn:Hm.
    + intros [= <- <-]. exists n, t. auto.
    + apply (IH (S n)). unfold sas_tick.
      apply run_next, run_execute, run_release; assumption.
  - apply Z.leb_gt in E. intros [= <- <-]. exists n, t. auto.
Qed.

Lemma first_deadline_miss_some ts t k :
  first_deadline_miss ts t = Some k -> has_missed_deadline (tasks ts k) t = true.
Proof. unfold first_deadline_miss. intros H. apply find_some in H. apply H. Qed.

(** C9: a task with [wcet = 0] goes through the simulator like any other
    (no call of [simulate_sas] ends in a failed check), it is never active at
    any point of the simulation (its remaining execution is never positive),
    and [simulate_sas] never returns it as the task that missed. *)
Theorem zero_wcet_never_active (ts : taskset_t) (k : task_index) :
  wcet (tasks ts k) = 0 ->
  (forall fuel, simulate_sas fuel ts <> Aborted)
  /\ (forall n stg t st, sas_run ts n stg t st ->
        is_active (tasks st k) = false /\ remaining_wcet (tasks st k) <= 0)
  /\ (forall fuel ts', simulate_sas fuel ts <> Returned (Some k) ts').
Proof.
  intros Hw.
  assert (Hinv : forall n stg t st, sas_run ts n stg t st ->
            wcet (tasks st k) = 0 /\ remaining_wcet (tasks st k) <= 0).
  { intros n stg t st Hrun. induction Hrun as
      [|n t st Hrun [IHw IHr] Ht Hm|n t st Hrun [IHw IHr]|n t st Hrun IH].
    - rewrite tasks_reset. simpl. split; [exact Hw|lia].
    - rewrite tasks_release_ready. unfold release_if_ready.
      destruct (can_release (tasks st k) t); simpl; lia.
    - rewrite tasks_execute_highest.
      destruct (get_highest_prio_active_task st t) as [i|] eqn:Hsel; [|auto].
      destruct (index_eqb i k) eqn:Heq; [|auto].
      apply Nat.eqb_eq, index_nat_inj in Heq. subst i.
      apply get_highest_is_active in Hsel. unfold is_active in Hsel.
      apply Z.ltb_lt in Hsel. lia.
    - exact IH. }
  split; [intros fuel; apply sas_loop_never_aborts|]. split.
  - intros n stg t st Hrun. destruct (Hinv n stg t st Hrun) as [_ Hr].
    split; [|exact Hr]. unfold is_active. apply Z.ltb_ge. exact Hr.
  - intros fuel ts' H. unfold simulate_sas in H.
    destruct (sas_loop_follows_run ts fuel 0 0 _ _ _ (run_start ts) H)
      as (n' & t' & Hrun & _ & Hmiss).
    apply first_deadline_miss_some in Hmiss.
    unfold has_missed_deadline, is_active in Hmiss.
    apply andb_true_iff in Hmiss. destruct Hmiss as [Hact _].
    apply Z.ltb_lt in Hact. destruct (Hinv _ _ _ _ Hrun). lia.
Qed.

(** The witness of C9: a task set whose last task has no work; it is
    schedulable, and the last task never missed. *)
Definition idle_last : taskset_t :=
  let T c p p1 p2 := mk_task c p p1 p2 0 0 0 in
  mk_taskset (T 1 2 4 0) (T 1 3 5 1) (T 1 6 6 2) (T 0 4 7 3) 6.

Lemma zero_wcet_never_active_witness :
  simulate_sas 10 idle_last <> Returned (Some I3) (reset_simulation_state idle_last).
Proof.
  apply (zero_wcet_never_active idle_last I3). reflexivity.
Defined.

(** The statement of C10 as the specification has it: at every point of
    every simulation, every task's remaining execution is at least 0. *)
Definition remaining_never_negative (ts : taskset_t) : Prop :=
  forall n stg t st i, sas_run ts n stg t st -> 0 <= remaining_wcet (tasks st i).

(** C10, counterexample: [reset_simulation_state] sets [remaining_wcet] to
    -1, and the deadline check of the first round runs on that state. *)
Lemma remaining_negative_after_reset : ~ remaining_never_negative cex3.
Proof.
  intros H.
  specialize (H 0%nat Checking 0 (reset_simulation_state cex3) I0 (run_start cex3)).
  vm_compute in H. apply H. reflexivity.
Qed.

(** C10, amended: for tasks with [0 <= wcet] (an [int]), at the deadline
    check of the first round every [remaining_wcet] is -1 (the value that
    [reset_simulation_state] gives it); at every later point of the
    simulation it is at least 0 (and at most [wcet]); and at every point a
    task is active exactly when its [remaining_wcet] is greater than 0. *)
Theorem remaining_nonnegative_after_first_release (ts : taskset_t) :
  (forall i, 0 <= wcet (tasks ts i) <= INT_MAX) ->
  forall n stg t st i, sas_run ts n stg t st ->
    (is_active (tasks st i) = true <-> remaining_wcet (tasks st i) > 0)
    /\ (n = 0%nat /\ stg = Checking -> remaining_wcet (tasks st i) = -1)
    /\ (~ (n = 0%nat /\ stg = Checking) ->
        0 <= remaining_wcet (tasks st i) <= wcet (tasks st i)).
Proof.
  intros Hw n stg t st i Hrun.
  split; [unfold is_active; rewrite Z.ltb_lt; lia|].
  assert (Hinv :
    wcet (tasks st i) = wcet (tasks ts i) /\
    ((n = 0%nat /\ stg = Checking) /\
       remaining_wcet (tasks st i) = -1 /\ last_release_time (tasks st i) = -1
     \/ ~ (n = 0%nat /\ stg = Checking) /\
        0 <= remaining_wcet (tasks st i) <= wcet (tasks st i))).
  { clear -Hw Hrun. pose proof (Hw i) as Hwi.
    induction Hrun as
      [|n t st Hrun [IHw IH] Ht Hm|n t st Hrun [IHw IH]|n t st Hrun [IHw IH]].
    - rewrite tasks_reset. simpl. auto.
    - rewrite tasks_release_ready. unfold release_if_ready, can_release.
      destruct IH as [(_ & Hr & Hl)|(_ & Hr)].
      + rewrite Hl. simpl. split; [exact IHw|]. right.
        split; [intros [_ [=]] | lia].
      + destruct (if last_release_time (tasks st i) <? 0 then true else _);
          simpl; (split; [exact IHw|]); right;
          (split; [intros [_ [=]] | lia]).
    - rewrite tasks_execute_highest.
      destruct IH as [([_ [=]] & _)|(_ & Hr)].
      assert (Hkeep : wcet (tasks st i) = wcet (tasks ts i) /\
                ((n = 0%nat /\ Executed = Checking) /\
                 remaining_wcet (tasks st i) = -1 /\
                 last_release_time (tasks st i) = -1 \/
                 ~ (n = 0%nat /\ Executed = Checking) /\
                 0 <= remaining_wcet (tasks st i) <= wcet (tasks st i))).
      { split; [exact IHw|]. right. split; [intros [_ [=]] | exact Hr]. }
      destruct (get_highest_prio_active_task st t) as [k|] eqn:Hsel;
        [|exact Hkeep].
      destruct (index_eqb k i) eqn:Heq; [|exact Hkeep].
      apply Nat.eqb_eq, index_nat_inj in Heq. subst k.
      apply get_highest_is_active in Hsel. unfold is_active in Hsel.
      apply Z.ltb_lt in Hsel. simpl.
      rewrite int_wrap_id by (unfold in_int, INT_MIN; lia).
      split; [exact IHw|]. right. split; [intros [_ [=]] | lia].
    - split; [exact IHw|]. right. split; [intros [[=] _]|].
      destruct IH as [([_ [=]] & _)|(_ & Hr)]. exact Hr. }
  destruct Hinv as [_ [(H0 & Hr & _)|(Hn0 & Hr)]].
  - split; [intros _; exact Hr | intros Hn; destruct (Hn H0)].
  - split; [intros H0; destruct (Hn0 H0) | intros _; exact Hr].
Qed.

(** The witness of C10: the third counterexample after the releases of the
    first round; T1 has all of its 6 units left. *)
Lemma remaining_nonnegative_after_first_release_witness :
  0 <= remaining_wcet
         (tasks (release_ready (reset_simulation_state cex3) 0) I0) <= 6.
Proof.
  refine (let H := remaining_nonnegative_after_first_release cex3 _
                     0%nat Released 0 _ I0
                     (run_release cex3 0%nat 0 _ (run_start cex3) _ _) in _).
  - destruct H as (_ & _ & H). apply H. intros [_ [=]].
  Unshelve.
  + intros i. destruct i; vm_compute; split; discriminate.
  + vm_compute. discriminate.
  + reflexivity.
Defined.

(** ** The first deadline miss *)

(** The state at the deadline check of round [n], had no check stopped the
    simulation before: [n] ticks from the reset state. *)
Fixpoint sas_state (ts : taskset_t) (n : nat) : taskset_t :=
  match n with
  | O => reset_simulation_state ts
  | S m => sas_tick (sas_state ts m) (Z.of_nat m)
  end.

Lemma sas_state_succ ts n :
  sas_state ts (S n) = sas_tick (sas_state ts n) (Z.of_nat n).
Proof. reflexivity. Qed.

(** Task [k] is both still active and due to release a new job at tick [n]. *)
Definition misses_at (ts : taskset_t) (n : nat) (k : task_index) : Prop :=
  let task := tasks (sas_state ts n) k in
  remaining_wcet task > 0 /\
  (last_release_time task < 0 \/
   Z.of_nat n - last_release_time task >= period task).

(** What [simulate_sas] returns, whatever fuel it takes. *)
Definition sas_returns (ts : taskset_t) (v : option task_index) : Prop :=
  exists fuel ts', simulate_sas fuel ts = Returned v ts'.

Lemma hyper_period_sas_state ts n :
  hyper_period (sas_state ts n) = hyper_period ts.
Proof.
  induction n as [|n IH]; simpl; [reflexivity|].
  rewrite hyper_period_sas_tick. exact IH.
Qed.

Lemma period_sas_state ts n i :
  period (tasks (sas_state ts n) i) = period (tasks ts i).
Proof.
  assert (H : reset_simulation_state (sas_state ts n) = reset_simulation_state ts).
  { induction n as [|n IH]; simpl; [reflexivity|].
    rewrite reset_sas_tick. exact IH. }
  apply (f_equal (fun x => period (tasks x i))) in H.
  rewrite !tasks_reset in H. exact H.
Qed.

(** No task was released at a time that has not come yet. *)
Lemma last_release_time_sas_state ts n i :
  -1 <= last_release_time (tasks (sas_state ts n) i) < Z.of_nat n.
Proof.
  induction n as [|n IH].
  - simpl. rewrite tasks_reset. simpl. lia.
  - cbn [sas_state]. unfold sas_tick. rewrite tasks_execute_highest.
    assert (Hrel : -1 <= last_release_time
                           (tasks (release_ready (sas_state ts n) (Z.of_nat n)) i)
                   < Z.of_nat (S n)).
    { rewrite tasks_release_ready. unfold release_if_ready.
      destruct (can_release _ _); simpl; lia. }
    destruct (get_highest_prio_active_task _ _) as [k|]; [|exact Hrel].
    destruct (index_eqb k i); [|exact Hrel]. exact Hrel.
Qed.

Lemma has_missed_deadline_at ts n k :
  Z.of_nat n <= LONG_MAX ->
  has_missed_deadline (tasks (sas_state ts n) k) (Z.of_nat n) = true
  <-> misses_at ts n k.
Proof.
  intros Hn. unfold misses_at, has_missed_deadline, is_active, can_release.
  pose proof (last_release_time_sas_state ts n k) as Hl.
  rewrite andb_true_iff, Z.ltb_lt.
  destruct (last_release_time (tasks (sas_state ts n) k) <? 0) eqn:E.
  - apply Z.ltb_lt in E. intuition lia.
  - apply Z.ltb_ge in E.
    rewrite long_wrap_id by (unfold in_long, LONG_MIN; unfold LONG_MAX in *; lia).
    rewrite Z.leb_le. intuition lia.
Qed.

Lemma find_all_tasks_some (f : task_index -> bool) (k : task_index) :
  find f all_tasks = Some k <->
  f k = true /\ forall j, (index_nat j < index_nat k)%nat -> f j = false.
Proof.
  unfold all_tasks. cbn [find].
  destruct (f I0) eqn:E0;
    [|destruct (f I1) eqn:E1;
      [|destruct (f I2) eqn:E2; [|destruct (f I3) eqn:E3]]].
  all: split;
    [ intros H;
      first [ discriminate H
            | injection H as <-; split; [assumption|];
              intros j Hj; destruct j; simpl in Hj; first [assumption | lia] ]
    | intros [Hk Hlow]; destruct k; try reflexivity; try congruence ].
  all: exfalso;
    first [ specialize (Hlow I0 ltac:(simpl; lia)); congruence
          | specialize (Hlow I1 ltac:(simpl; lia)); congruence
          | specialize (Hlow I2 ltac:(simpl; lia)); congruence ].
Qed.

Lemma first_deadline_miss_spec ts t k :
  first_deadline_miss ts t = Some k <->
  has_missed_deadline (tasks ts k) t = true /\
  forall j, (index_nat j < index_nat k)%nat ->
    has_missed_deadline (tasks ts j) t = false.
Proof.
  apply (find_all_tasks_some (fun i => has_missed_deadline (tasks ts i) t)).
Qed.

Lemma first_deadline_miss_none ts t :
  first_deadline_miss ts t = None <->
  forall j, has_missed_deadline (tasks ts j) t = false.
Proof.
  unfold first_deadline_miss. split.
  - intros H j. apply (find_none _ _ H j (in_all_tasks j)).
  - intros H. unfold all_tasks. cbn [find]. rewrite !H. reflexivity.
Qed.

(** The loop from round [n] on, against the states [sas_state]: it stops at
    the first round with a miss, or after the round of the hyper-period. *)
Lemma sas_loop_from_state ts (Hhp : hyper_period ts < LONG_MAX) fuel :
  forall n v ts',
  sas_loop fuel (sas_state ts n) (Z.of_nat n) = Returned v ts' ->
  match v with
  | Some k =>
      exists m, (n <= m)%nat /\ Z.of_nat m <= hyper_period ts /\
        first_deadline_miss (sas_state ts m) (Z.of_nat m) = Some k /\
        forall m', (n <= m' < m)%nat ->
          first_deadline_miss (sas_state ts m') (Z.of_nat m') = None
  | None =>
      forall m, (n <= m)%nat -> Z.of_nat m <= hyper_period ts ->
        first_deadline_miss (sas_state ts m) (Z.of_nat m) = None
  end.
Proof.
  induction fuel as [|fuel IH]; intros n v ts'; simpl; [discriminate|].
  rewrite hyper_period_sas_state.
  destruct (Z.of_nat n <=? hyper_period ts) eqn:E.
  - apply Z.leb_le in E.
    destruct (first_deadline_miss (sas_state ts n) (Z.of_nat n)) as [k|] eqn:Hm.
    + intros [= <- _]. exists n. repeat split; try assumption; try lia.
    + rewrite long_wrap_id
        by (unfold in_long, LONG_MIN; unfold LONG_MAX in *; lia).
      replace (Z.of_nat n + 1) with (Z.of_nat (S n)) by lia.
      rewrite <- sas_state_succ.
      intros H. apply IH in H. destruct v as [k|].
      * destruct H as (m & Hle & Hm' & Hk & Hbefore).
        exists m. repeat split; try assumption; try lia.
        intros m' Hm''. destruct (Nat.eq_dec m' n) as [->|]; [exact Hm|].
        apply Hbefore. lia.
      * intros m Hle Hm'. destruct (Nat.eq_dec m n) as [->|]; [exact Hm|].
        apply H; [lia|exact Hm'].
  - apply Z.leb_gt in E. intros [= <- _]. intros m Hle Hm. lia.
Qed.

(** C3: below [LONG_MAX], [simulate_sas] returns; it returns task [k] as
    having missed exactly when there is an earliest tick [n] in
    [[0, hyper_period]] at which some task is still active and due to release a
    new job, and [k] is the lowest index of such a task at that tick; it
    returns [NULL] exactly when there is no such tick up to and including the
    hyper-period. *)
Theorem simulate_sas_first_miss (ts : taskset_t) :
  hyper_period ts < LONG_MAX ->
  (exists v, sas_returns ts v)
  /\ (forall k, sas_returns ts (Some k) <->
        exists n, Z.of_nat n <= hyper_period ts /\
          (forall m j, (m < n)%nat -> ~ misses_at ts m j) /\
          misses_at ts n k /\
          (forall j, (index_nat j < index_nat k)%nat -> ~ misses_at ts n j))
  /\ (sas_returns ts None <->
        forall n j, Z.of_nat n <= hyper_period ts -> ~ misses_at ts n j).
Proof.
  intros Hhp.
  assert (Hbound : forall n, Z.of_nat n <= hyper_period ts ->
                             Z.of_nat n <= LONG_MAX) by (intros; lia).
  assert (Hnone : forall n, Z.of_nat n <= hyper_period ts ->
            (first_deadline_miss (sas_state ts n) (Z.of_nat n) = None <->
             forall j, ~ misses_at ts n j)).
  { intros n Hn. rewrite first_deadline_miss_none. split; intros H j.
    - rewrite <- has_missed_deadline_at by auto. rewrite H. discriminate.
    - specialize (H j). rewrite <- has_missed_deadline_at in H by auto.
      destruct (has_missed_deadline _ _); [destruct H|]; reflexivity. }
  assert (Hsome : forall n k, Z.of_nat n <= hyper_period ts ->
            (first_deadline_miss (sas_state ts n) (Z.of_nat n) = Some k <->
             misses_at ts n k /\
             forall j, (index_nat j < index_nat k)%nat -> ~ misses_at ts n j)).
  { intros n k Hn. rewrite first_deadline_miss_spec.
    rewrite has_missed_deadline_at by auto. split; intros [Hk Hlow]; (split; [exact Hk|]).
    - intros j Hj. rewrite <- has_missed_deadline_at by auto.
      rewrite (Hlow j Hj). discriminate.
    - intros j Hj. specialize (Hlow j Hj).
      rewrite <- has_missed_deadline_at in Hlow by auto.
      destruct (has_missed_deadline _ _); [destruct Hlow|]; reflexivity. }
  assert (Hspec : forall v, sas_returns ts v ->
    match v with
    | Some k =>
        exists n, Z.of_nat n <= hyper_period ts /\
          (forall m j, (m < n)%nat -> ~ misses_at ts m j) /\
          misses_at ts n k /\
          (forall j, (index_nat j < index_nat k)%nat -> ~ misses_at ts n j)
    | None => forall n j, Z.of_nat n <= hyper_period ts -> ~ misses_at ts n j
    end).
  { intros v (fuel & ts' & H).
    apply (sas_loop_from_state ts Hhp fuel 0%nat) in H. destruct v as [k|].
    - destruct H as (n & _ & Hn & Hk & Hbefore). exists n.
      split; [exact Hn|]. split.
      + intros m j Hm. apply Hnone; [lia|]. apply Hbefore. lia.
      + apply Hsome; assumption.
    - intros n j Hn. apply Hnone; [exact Hn|]. apply H; [lia|exact Hn]. }
  destruct (simulate_sas_terminates (sas_fuel ts) ts Hhp (le_n _))
    as (v0 & ts0 & Hrun).
  assert (Hv0 : sas_returns ts v0) by (exists (sas_fuel ts), ts0; exact Hrun).
  split; [exists v0; exact Hv0|].
  pose proof (Hspec v0 Hv0) as H0.
  split.
  - intros k. split; [apply (Hspec (Some k))|].
    intros (n & Hn & Hbefore & Hk & Hlow).
    destruct v0 as [k0|].
    + destruct H0 as (n0 & Hn0 & Hbefore0 & Hk0 & Hlow0).
      destruct (Nat.lt_trichotomy n n0) as [Hlt|[->|Hlt]].
      * destruct (Hbefore0 n k Hlt Hk).
      * destruct (Nat.lt_trichotomy (index_nat k) (index_nat k0)) as [Hi|[Hi|Hi]].
        -- destruct (Hlow0 k Hi Hk).
        -- apply index_nat_inj in Hi. subst k0. exact Hv0.
        -- destruct (Hlow k0 Hi Hk0).
      * destruct (Hbefore n0 k0 Hlt Hk0).
    + destruct (H0 n k Hn Hk).
  - split; [apply (Hspec None)|].
    intros Hall. destruct v0 as [k0|]; [|exact Hv0].
    destruct H0 as (n0 & Hn0 & _ & Hk0 & _). destruct (Hall n0 k0 Hn0 Hk0).
Qed.

(** The witness of C3: the third counterexample with the phase change
    points of the paper. *)
Lemma simulate_sas_first_miss_witness :
  exists v, sas_returns (set_pcps cex3 (5, 3, 25, 35)) v.
Proof.
  apply (simulate_sas_first_miss (set_pcps cex3 (5, 3, 25, 35))).
  vm_compute. reflexivity.
Defined.

(** ** Rules for the loops of the searches *)

(** The integers from [lo], [n] of them, and those from [lo] to [hi]. *)
Fixpoint zseq (lo : Z) (n : nat) : list Z :=
  match n with
  | O => []
  | S m => lo :: zseq (lo + 1) m
  end.

Definition zrange (lo hi : Z) : list Z := zseq lo (Z.to_nat (hi + 1 - lo)).

Lemma in_zseq n : forall lo x, In x (zseq lo n) <-> lo <= x < lo + Z.of_nat n.
Proof.
  induction n as [|n IH]; intros lo x; simpl; [lia|].
  rewrite IH. lia.
Qed.

Lemma in_zrange lo hi x : In x (zrange lo hi) <-> lo <= x <= hi.
Proof. unfold zrange. rewrite in_zseq. lia. Qed.

Lemma length_zseq n : forall lo, length (zseq lo n) = n.
Proof. induction n as [|n IH]; intros lo; simpl; [|rewrite IH]; reflexivity. Qed.

Lemma length_zrange lo hi : length (zrange lo hi) = Z.to_nat (hi + 1 - lo).
Proof. apply length_zseq. Qed.

Lemma NoDup_zseq n : forall lo, NoDup (zseq lo n).
Proof.
  induction n as [|n IH]; intros lo; simpl; constructor; [|apply IH].
  rewrite in_zseq. lia.
Qed.

Lemma NoDup_zrange lo hi : NoDup (zrange lo hi).
Proof. apply NoDup_zseq. Qed.

Lemma zrange_cons lo hi : lo <= hi -> zrange lo hi = lo :: zrange (lo + 1) hi.
Proof.
  intros H. unfold zrange.
  replace (Z.to_nat (hi + 1 - lo)) with (S (Z.to_nat (hi + 1 - (lo + 1)))) by lia.
  reflexivity.
Qed.

Lemma zrange_nil lo hi : hi < lo -> zrange lo hi = [].
Proof.
  intros H. unfold zrange.
  replace (Z.to_nat (hi + 1 - lo)) with 0%nat by lia. reflexivity.
Qed.

(** A property of the state that an outcome leaves, if it leaves one. *)
Definition leaves {S R} (P : S -> Prop) (o : exec S R) : Prop :=
  match o with
  | Next s | Ret _ s => P s
  | Abort | Timeout => True
  end.

(** A loop keeps what its body keeps. *)
Lemma for_loop_keeps {S R} (P : S -> Prop) (cond : Z -> S -> bool)
    (body : nat -> Z -> S -> exec S R) :
  (forall fuel i s, P s -> leaves P (body fuel i s)) ->
  forall fuel i s, P s -> leaves P (for_loop fuel i cond body s).
Proof.
  intros Hbody fuel. induction fuel as [|fuel IH]; intros i s Hs; simpl; [exact I|].
  destruct (cond i s); [|exact Hs].
  pose proof (Hbody fuel i s Hs) as Hb.
  destruct (body fuel i s) as [s'| | |]; simpl in *; auto.
Qed.

Section TraceRules.

(** The state [S] carries a record [log] of the entries generated so far;
    [key] is the part of an entry that the loops determine.  An entry after
    which the search goes on satisfies [ok], one on which it returns
    satisfies [fin]. *)
Context {S R E K : Type}.
Variables (log : S -> list E) (key : E -> K).
Variables (ok fin : E -> Prop) (retv : R -> Prop).
(** What is known when an assertion fails, and the condition under which
    fuel [F] is claimed to be enough. *)
Variables (ab tot : Prop).

(** The outcome [o] of a statement run from [s] with [fuel], for a statement
    that is to generate the keys [L] in order: it falls through having
    generated all of them, or returns at one of them. *)
Definition generates (F : nat) (Post : S -> Prop) (L : list K)
    (fuel : nat) (s : S) (o : exec S R) : Prop :=
  match o with
  | Next s' =>
      Post s' /\
      exists es, log s' = log s ++ es /\ map key es = L /\ Forall ok es
  | Ret r s' =>
      retv r /\
      exists es e rest,
        log s' = log s ++ es ++ [e] /\ L = map key es ++ key e :: rest /\
        Forall ok es /\ fin e
  | Abort => ab
  | Timeout => tot -> (fuel < F)%nat
  end.

Definition emits (F : nat) (Pre Post : S -> Prop) (L : list K)
    (c : nat -> S -> exec S R) : Prop :=
  forall fuel s, Pre s -> generates F Post L fuel s (c fuel s).

Lemma emits_weaken F F' (Pre Pre' Post Post' : S -> Prop) L c :
  (F <= F')%nat ->
  (forall s, Pre' s -> Pre s) -> (forall s, Post s -> Post' s) ->
  emits F Pre Post L c -> emits F' Pre' Post' L c.
Proof.
  intros HF Hpre Hpost H fuel s Hs. specialize (H fuel s (Hpre s Hs)).
  unfold generates in *. destruct (c fuel s) as [s'|r s'| |].
  - destruct H as [Hp He]. split; [apply Hpost, Hp|exact He].
  - exact H.
  - exact H.
  - intros Ht. specialize (H Ht). lia.
Qed.

(** An assignment before a statement, when it leaves the log alone. *)
Lemma emits_after F (Pre Pre' Post : S -> Prop) L c (upd : S -> S) :
  (forall s, log (upd s) = log s) ->
  (forall s, Pre' s -> Pre (upd s)) ->
  emits F Pre Post L c -> emits F Pre' Post L (fun fuel s => c fuel (upd s)).
Proof.
  intros Hlog Hpre H fuel s Hs. specialize (H fuel (upd s) (Hpre s Hs)).
  unfold generates in *. rewrite Hlog in H. exact H.
Qed.

(** [continue]: nothing is generated. *)
Lemma emits_continue F (Pre : S -> Prop) :
  emits F Pre Pre [] (fun _ s => Next s).
Proof.
  intros fuel s Hs. simpl. split; [exact Hs|].
  exists []. rewrite app_nil_r. repeat split. constructor.
Qed.

(** The rule of the [for] loop: a counter that runs from [lo] to [hi],
    below [INT_MAX], generates what its rounds generate, in order. *)
Lemma for_loop_emits (Inv : S -> Prop) (cond : Z -> S -> bool)
    (body : nat -> Z -> S -> exec S R) (hi : Z) (F : nat) (L : Z -> list K) :
  hi < INT_MAX ->
  (forall i s, Inv s -> cond i s = (i <=? hi)) ->
  forall n lo,
  INT_MIN <= lo -> Z.to_nat (hi + 1 - lo) = n ->
  (forall i, lo <= i <= hi -> emits F Inv Inv (L i) (fun fuel => body fuel i)) ->
  emits (F + n + 1) Inv Inv (flat_map L (zrange lo hi))
        (fun fuel => for_loop fuel lo cond body).
Proof.
  intros Hhi Hcond n. induction n as [|n IH]; intros lo Hlo Hn Hbody fuel s Hs.
  - rewrite zrange_nil by lia. destruct fuel as [|fuel]; simpl; [intros _; lia|].
    rewrite (Hcond lo s Hs). replace (lo <=? hi) with false by (symmetry; apply Z.leb_gt; lia).
    simpl. split; [exact Hs|]. exists []. rewrite app_nil_r. repeat split. constructor.
  - assert (Hle : lo <= hi) by lia.
    rewrite zrange_cons by exact Hle. cbn [flat_map].
    destruct fuel as [|fuel]; simpl; [intros _; lia|].
    rewrite (Hcond lo s Hs). replace (lo <=? hi) with true by (symmetry; apply Z.leb_le; lia).
    pose proof (Hbody lo (conj (Z.le_refl lo) Hle) fuel s Hs) as Hb.
    unfold generates in Hb.
    destruct (body fuel lo s) as [s1|r s1| |].
    + destruct Hb as (Hs1 & es1 & Hlog1 & Hkeys1 & Hok1).
      rewrite int_wrap_id by (unfold in_int; unfold INT_MIN, INT_MAX in *; lia).
      assert (Hrest : emits (F + n + 1) Inv Inv (flat_map L (zrange (lo + 1) hi))
                        (fun fuel => for_loop fuel (lo + 1) cond body)).
      { apply IH; [lia | lia |]. intros i Hi. apply Hbody. lia. }
      specialize (Hrest fuel s1 Hs1). unfold generates in *.
      destruct (for_loop fuel (lo + 1) cond body s1) as [s2|r s2| |].
      * destruct Hrest as (Hs2 & es2 & Hlog2 & Hkeys2 & Hok2).
        split; [exact Hs2|]. exists (es1 ++ es2).
        rewrite Hlog2, Hlog1, map_app, Hkeys1, Hkeys2, app_assoc.
        repeat split. apply Forall_app. split; assumption.
      * destruct Hrest as (Hr & es2 & e & rest & Hlog2 & Hkeys2 & Hok2 & Hfin).
        split; [exact Hr|]. exists (es1 ++ es2), e, rest.
        rewrite Hlog2, Hlog1, map_app, Hkeys1, Hkeys2, <- !app_assoc.
        repeat split; [|exact Hfin]. apply Forall_app. split; assumption.
      * exact Hrest.
      * intros Ht. specialize (Hrest Ht). lia.
    + destruct Hb as (Hr & es & e & rest & Hlog & Hkeys & Hok & Hfin).
      split; [exact Hr|]. exists es, e, (rest ++ flat_map L (zrange (lo + 1) hi)).
      rewrite Hlog, Hkeys, <- app_assoc. repeat split; assumption.
    + exact Hb.
    + intros Ht. specialize (Hb Ht). lia.
Qed.

End TraceRules.

(** Without a claim of termination, the fuel bound says nothing. *)
Lemma emits_partial {S R E K : Type} (log : S -> list E) (key : E -> K)
    (ok fin : E -> Prop) (retv : R -> Prop) (ab : Prop) (F F' : nat)
    (Pre Post : S -> Prop) (L : list K) (c : nat -> S -> exec S R) :
  emits log key ok fin retv ab False F Pre Post L c ->
  emits log key ok fin retv ab False F' Pre Post L c.
Proof.
  intros H fuel s Hs. specialize (H fuel s Hs). unfold generates in *.
  destruct (c fuel s); try exact H. intros [].
Qed.

(** ** The search over the phase change points *)

(** A task set, but for its simulation state and its phase change points. *)
Definition clear_pcps (ts : taskset_t) : taskset_t :=
  set_pcps (reset_simulation_state ts) (0, 0, 0, 0).

Definition same_static (ts ts' : taskset_t) : Prop :=
  clear_pcps ts = clear_pcps ts'.

Lemma same_static_set_pcp ts i v : same_static (set_pcp ts i v) ts.
Proof. destruct i; reflexivity. Qed.

Lemma same_static_reset ts ts' :
  reset_simulation_state ts = reset_simulation_state ts' -> same_static ts ts'.
Proof. unfold same_static, clear_pcps. intros ->. reflexivity. Qed.

Lemma same_static_trans ts1 ts2 ts3 :
  same_static ts1 ts2 -> same_static ts2 ts3 -> same_static ts1 ts3.
Proof. unfold same_static. congruence. Qed.

Lemma same_static_period ts ts' i :
  same_static ts ts' -> period (tasks ts i) = period (tasks ts' i).
Proof.
  intros H. apply (f_equal (fun x => period (tasks x i))) in H.
  destruct i; exact H.
Qed.

Lemma same_static_hyper_period ts ts' :
  same_static ts ts' -> hyper_period ts = hyper_period ts'.
Proof. intros H. apply (f_equal hyper_period) in H. exact H. Qed.

Lemma same_static_prios ts ts' : same_static ts ts' -> prios ts = prios ts'.
Proof.
  intros H. unfold prios, all_tasks. cbn [flat_map app].
  pose proof (f_equal (fun x => phase_1_prio (tasks x I0)) H) as A0.
  pose proof (f_equal (fun x => phase_2_prio (tasks x I0)) H) as B0.
  pose proof (f_equal (fun x => phase_1_prio (tasks x I1)) H) as A1.
  pose proof (f_equal (fun x => phase_2_prio (tasks x I1)) H) as B1.
  pose proof (f_equal (fun x => phase_1_prio (tasks x I2)) H) as A2.
  pose proof (f_equal (fun x => phase_2_prio (tasks x I2)) H) as B2.
  pose proof (f_equal (fun x => phase_1_prio (tasks x I3)) H) as A3.
  pose proof (f_equal (fun x => phase_2_prio (tasks x I3)) H) as B3.
  simpl in *. congruence.
Qed.

Lemma reset_by_config ts :
  reset_simulation_state ts = set_pcps (clear_pcps ts) (pcps ts).
Proof. destruct ts as [[] [] [] [] ?]. reflexivity. Qed.

Lemma reset_set_pcps ts cfg :
  reset_simulation_state (set_pcps ts cfg) = set_pcps (clear_pcps ts) cfg.
Proof. destruct cfg as [[[a b] c] d]. reflexivity. Qed.

(** Same static part and same phase change points: same simulation. *)
Lemma simulate_sas_set_pcps fuel ts ts0 :
  same_static ts ts0 ->
  simulate_sas fuel ts = simulate_sas fuel (set_pcps ts0 (pcps ts)).
Proof.
  intros H. apply simulate_sas_config.
  rewrite reset_by_config, reset_set_pcps, H. reflexivity.
Qed.

Lemma pcp_set_pcp ts i j v :
  phase_change_point (tasks (set_pcp ts i v) j) =
  if index_eqb i j then v else phase_change_point (tasks ts j).
Proof. destruct i, j; reflexivity. Qed.

(** All the combinations of phase change points, in the order of the four
    nested loops. *)
Definition pcp_space (ts : taskset_t) : list pcp_config :=
  flat_map (fun a =>
  flat_map (fun b =>
  flat_map (fun c =>
  flat_map (fun d => [(a, b, c, d)])
    (zrange 0 (period (tasks ts I3))))
    (zrange 0 (period (tasks ts I2))))
    (zrange 0 (period (tasks ts I1))))
    (zrange 0 (period (tasks ts I0))).

Lemma in_pcp_space ts a b c d :
  In (a, b, c, d) (pcp_space ts) <->
  0 <= a <= period (tasks ts I0) /\ 0 <= b <= period (tasks ts I1) /\
  0 <= c <= period (tasks ts I2) /\ 0 <= d <= period (tasks ts I3).
Proof.
  unfold pcp_space. rewrite in_flat_map. split.
  - intros (a' & Ha & H). rewrite in_flat_map in H. destruct H as (b' & Hb & H).
    rewrite in_flat_map in H. destruct H as (c' & Hc & H).
    rewrite in_flat_map in H. destruct H as (d' & Hd & [[= -> -> -> ->]|[]]).
    rewrite in_zrange in Ha, Hb, Hc, Hd. auto.
  - intros (Ha & Hb & Hc & Hd). exists a. rewrite in_zrange. split; [exact Ha|].
    rewrite in_flat_map. exists b. rewrite in_zrange. split; [exact Hb|].
    rewrite in_flat_map. exists c. rewrite in_zrange. split; [exact Hc|].
    rewrite in_flat_map. exists d. rewrite in_zrange. split; [exact Hd|].
    left. reflexivity.
Qed.

Lemma length_flat_map_const {A B} (f : A -> list B) (n : nat) (l : list A) :
  (forall x, In x l -> length (f x) = n) ->
  length (flat_map f l) = (length l * n)%nat.
Proof.
  induction l as [|x l IH]; intros H; simpl; [reflexivity|].
  rewrite length_app.
  rewrite H by (left; reflexivity).
  rewrite IH by (intros y Hy; apply H; right; exact Hy). lia.
Qed.

Lemma length_pcp_space ts :
  (forall i, 0 <= period (tasks ts i)) ->
  Z.of_nat (length (pcp_space ts)) =
  (period (tasks ts I0) + 1) * (period (tasks ts I1) + 1) *
  (period (tasks ts I2) + 1) * (period (tasks ts I3) + 1).
Proof.
  intros Hp. unfold pcp_space.
  pose proof (Hp I0). pose proof (Hp I1). pose proof (Hp I2). pose proof (Hp I3).
  rewrite (length_flat_map_const _
             (length (zrange 0 (period (tasks ts I1))) *
              (length (zrange 0 (period (tasks ts I2))) *
               (length (zrange 0 (period (tasks ts I3))) * 1)))).
  - rewrite !length_zrange. lia.
  - intros a _. apply length_flat_map_const.
    intros b _. apply length_flat_map_const.
    intros c _. apply length_flat_map_const.
    intros d _. reflexivity.
Qed.

Lemma NoDup_flat_map {A B} (f : A -> list B) (l : list A) :
  NoDup l ->
  (forall x, In x l -> NoDup (f x)) ->
  (forall x y b, In x l -> In y l -> In b (f x) -> In b (f y) -> x = y) ->
  NoDup (flat_map f l).
Proof.
  induction l as [|x l IH]; intros Hl Hf Hdisj; simpl; [constructor|].
  inversion Hl as [|? ? Hx Hl']; subst.
  apply NoDup_app.
  - apply Hf. left. reflexivity.
  - apply IH; [exact Hl'| |].
    + intros y Hy. apply Hf. right. exact Hy.
    + intros y z b Hy Hz. apply Hdisj; right; assumption.
  - intros b Hb Hb'. apply in_flat_map in Hb'. destruct Hb' as (y & Hy & Hby).
    assert (x = y) by (apply (Hdisj x y b); simpl; auto).
    subst y. contradiction.
Qed.

Lemma NoDup_pcp_space ts : NoDup (pcp_space ts).
Proof.
  unfold pcp_space.
  apply NoDup_flat_map; [apply NoDup_zrange| |].
  - intros a _. apply NoDup_flat_map; [apply NoDup_zrange| |].
    + intros b _. apply NoDup_flat_map; [apply NoDup_zrange| |].
      * intros c _. apply NoDup_flat_map; [apply NoDup_zrange| |].
        -- intros d _. repeat constructor. intros [].
        -- intros d d' x _ _ [<-|[]] [[=]|[]]. congruence.
      * intros c c' x _ _ Hx Hx'. apply in_flat_map in Hx, Hx'.
        destruct Hx as (d & _ & [<-|[]]). destruct Hx' as (d' & _ & [[=]|[]]).
        congruence.
    + intros b b' x _ _ Hx Hx'. apply in_flat_map in Hx, Hx'.
      destruct Hx as (c & _ & Hx). destruct Hx' as (c' & _ & Hx').
      apply in_flat_map in Hx, Hx'.
      destruct Hx as (d & _ & [<-|[]]). destruct Hx' as (d' & _ & [[=]|[]]).
      congruence.
  - intros a a' x _ _ Hx Hx'. apply in_flat_map in Hx, Hx'.
    destruct Hx as (b & _ & Hx). destruct Hx' as (b' & _ & Hx').
    apply in_flat_map in Hx, Hx'.
    destruct Hx as (c & _ & Hx). destruct Hx' as (c' & _ & Hx').
    apply in_flat_map in Hx, Hx'.
    destruct Hx as (d & _ & [<-|[]]). destruct Hx' as (d' & _ & [[=]|[]]).
    congruence.
Qed.

Section PhaseChangePointSearch.

(** The task set on which [test_all_phase_change_points] is called. *)
Variable ts0 : taskset_t.

(** What a record of the search says: [simulate_sas] on [ts0] with these
    phase change points returns this. *)
Definition recorded (e : sim_record) : Prop :=
  exists fuel ts', simulate_sas fuel (set_pcps ts0 (fst e)) = Returned (snd e) ts'.

Definition recorded_miss (e : sim_record) : Prop :=
  snd e <> None /\ recorded e.

Definition recorded_success (e : sim_record) : Prop :=
  snd e = None /\ recorded e.

(** The invariant of the search, inside the loops that have assigned the
    phase change points [assigned]. *)
Definition pcp_inv (assigned : list (task_index * Z)) (s : search sim_record)
    : Prop :=
  same_static (cur s) ts0 /\
  Forall (fun a => phase_change_point (tasks (cur s) (fst a)) = snd a) assigned /\
  generated s = long_wrap (Z.of_nat (length (visited s))).

Definition pcp_emits (F : nat) (assigned : list (task_index * Z))
    (L : list pcp_config)
    (c : nat -> search sim_record -> exec (search sim_record) Z) : Prop :=
  emits visited fst recorded_miss recorded_success (fun r => r = 1) False
        (hyper_period ts0 < LONG_MAX)
        F (pcp_inv assigned) (pcp_inv assigned) L c.

Lemma try_combination_emits a b c d :
  pcp_emits (sas_fuel ts0) [(I3, d); (I2, c); (I1, b); (I0, a)] [(a, b, c, d)]
            try_combination.
Proof.
  intros fuel s (Hst & Hpcp & Hgen).
  assert (Hcfg : pcps (cur s) = (a, b, c, d)).
  { repeat match goal with
           | H : Forall _ (_ :: _) |- _ =>
               apply Forall_cons_iff in H; destruct H as [? H]
           end.
    unfold pcps. simpl in *. subst a b c d. reflexivity. }
  unfold try_combination.
  pose proof (simulate_sas_set_pcps fuel (cur s) ts0 Hst) as Hsim.
  rewrite Hcfg in Hsim.
  destruct (simulate_sas fuel (cur s)) as [[k|] ts'| |] eqn:Hrun; simpl.
  - split.
    + split; [|split].
      * apply simulate_sas_reset in Hrun.
        apply same_static_trans with (cur s); [|exact Hst].
        apply same_static_reset. exact Hrun.
      * apply simulate_sas_reset in Hrun.
        assert (Hp : forall i, phase_change_point (tasks ts' i) =
                               phase_change_point (tasks (cur s) i)).
        { intros i.
          apply (f_equal (fun x => phase_change_point (tasks x i))) in Hrun.
          rewrite !tasks_reset in Hrun. exact Hrun. }
        eapply Forall_impl; [|exact Hpcp]. intros x Hx. simpl in *.
        rewrite Hp. exact Hx.
      * cbn [generated visited with_cur count_generated].
        rewrite Hgen, long_wrap_succ, length_app. simpl. f_equal. lia.
    + exists [((a, b, c, d), Some k)]. rewrite Hcfg. repeat split.
      constructor; [|constructor]. split; [discriminate|].
      exists fuel, ts'. simpl. symmetry. exact Hsim.
  - split; [reflexivity|]. exists [], ((a, b, c, d), None), [].
    rewrite Hcfg. repeat split. constructor.
    exists fuel, ts'. simpl. symmetry. exact Hsim.
  - apply (sas_loop_never_aborts _ _ _ Hrun).
  - intros Hhp. apply Nat.nle_gt. intros Hfuel.
    destruct (simulate_sas_terminates fuel (cur s)) as (v & ts' & Hv).
    + rewrite (same_static_hyper_period _ _ Hst). exact Hhp.
    + unfold sas_fuel in *. rewrite (same_static_hyper_period _ _ Hst). exact Hfuel.
    + congruence.
Qed.

(** One loop of the nest. *)
Lemma pcp_loop_emits F assigned i L inner :
  ~ In i (map fst assigned) ->
  period (tasks ts0 i) < INT_MAX ->
  (forall x, 0 <= x <= period (tasks ts0 i) ->
     pcp_emits F ((i, x) :: assigned) (L x) inner) ->
  pcp_emits (F + Z.to_nat (period (tasks ts0 i) + 1 - 0) + 1) assigned
            (flat_map L (zrange 0 (period (tasks ts0 i))))
            (fun fuel => pcp_loop fuel i inner).
Proof.
  intros Hfresh Hp Hinner. unfold pcp_emits, pcp_loop.
  apply for_loop_emits with (hi := period (tasks ts0 i)).
  - exact Hp.
  - intros x s (Hst & _). rewrite (same_static_period _ _ i Hst). reflexivity.
  - unfold INT_MIN. lia.
  - reflexivity.
  - intros x Hx.
    apply (emits_after visited fst _ _ _ _ _ _ (pcp_inv ((i, x) :: assigned))
                       _ _ _ _ (fun s => with_cur s (set_pcp (cur s) i x))).
    + reflexivity.
    + intros s (Hst & Hpcp & Hgen). split; [|split].
      * simpl. apply same_static_trans with (cur s); [|exact Hst].
        apply same_static_set_pcp.
      * constructor.
        -- simpl. rewrite pcp_set_pcp.
           unfold index_eqb. rewrite Nat.eqb_refl. reflexivity.
        -- rewrite Forall_forall in *. intros [j v] Hj. simpl.
           rewrite pcp_set_pcp. destruct (index_eqb i j) eqn:E.
           ++ apply Nat.eqb_eq, index_nat_inj in E. subst j.
              exfalso. apply Hfresh. apply in_map_iff. exists (i, v). auto.
           ++ apply (Hpcp (j, v) Hj).
      * exact Hgen.
    + eapply emits_weaken; [apply le_n| | |apply (Hinner x Hx)].
      * auto.
      * intros s (Hst & Hpcp & Hgen). split; [exact Hst|].
        split; [|exact Hgen]. inversion Hpcp; assumption.
Qed.

(** Fuel that is enough for the whole search. *)
Definition all_pcp_fuel : nat :=
  (sas_fuel ts0
   + Z.to_nat (period (tasks ts0 I3) + 1 - 0) + 1
   + Z.to_nat (period (tasks ts0 I2) + 1 - 0) + 1
   + Z.to_nat (period (tasks ts0 I1) + 1 - 0) + 1
   + Z.to_nat (period (tasks ts0 I0) + 1 - 0) + 1)%nat.

Hypothesis periods_below_max : forall i, period (tasks ts0 i) < INT_MAX.

Lemma all_phase_change_points_emits :
  pcp_emits all_pcp_fuel [] (pcp_space ts0) all_phase_change_points.
Proof.
  unfold all_phase_change_points, pcp_space, all_pcp_fuel.
  apply pcp_loop_emits; [simpl; tauto | apply periods_below_max |]. intros a _.
  apply pcp_loop_emits; [simpl; intuition discriminate
                        | apply periods_below_max |]. intros b _.
  apply pcp_loop_emits; [simpl; intuition discriminate
                        | apply periods_below_max |]. intros c _.
  apply pcp_loop_emits; [simpl; intuition discriminate
                        | apply periods_below_max |]. intros d _.
  apply try_combination_emits.
Qed.

End PhaseChangePointSearch.

(** What a call of [test_all_phase_change_points] comes to, for periods
    below [INT_MAX]: it returns 1 at the first combination on which the
    simulation succeeds, all the combinations before it having missed; or it
    has gone through all the combinations, which all missed, and returns 0 or
    fails its assertion; it runs out of fuel only with less than
    [all_pcp_fuel]. *)
Lemma test_all_phase_change_points_outcome (ts : taskset_t) (fuel : nat) :
  (forall i, period (tasks ts i) < INT_MAX) ->
  match test_all_phase_change_points fuel ts with
  | Returned (r, tr) ts' =>
      (r = 1 /\
       exists es e rest,
         tr = es ++ [e] /\ pcp_space ts = map fst es ++ fst e :: rest /\
         Forall (recorded_miss ts) es /\ recorded_success ts e)
      \/ (r = 0 /\ map fst tr = pcp_space ts /\ Forall (recorded_miss ts) tr /\
          long_wrap (Z.of_nat (length tr)) = total_combinations ts)
  | Aborted =>
      exists tr, map fst tr = pcp_space ts /\ Forall (recorded_miss ts) tr /\
                 long_wrap (Z.of_nat (length tr)) <> total_combinations ts
  | OutOfFuel => hyper_period ts < LONG_MAX -> (fuel < all_pcp_fuel ts)%nat
  end.
Proof.
  intros Hp. unfold test_all_phase_change_points.
  assert (Hinit : pcp_inv ts [] (mk_search ts 0 [])).
  { split; [reflexivity|]. split; [constructor|].
    simpl. rewrite long_wrap_id; [reflexivity|].
    unfold in_long, LONG_MIN, LONG_MAX. lia. }
  pose proof (all_phase_change_points_emits ts Hp fuel (mk_search ts 0 []) Hinit)
    as H.
  unfold generates in H.
  destruct (all_phase_change_points fuel (mk_search ts 0 [])) as [s|r s| |].
  - destruct H as ((_ & _ & Hgen) & es & Hlog & Hkeys & Hok).
    simpl in Hlog. rewrite Hgen, Hlog.
    destruct (long_wrap (Z.of_nat (length es)) =? total_combinations ts) eqn:E.
    + apply Z.eqb_eq in E. right. auto.
    + apply Z.eqb_neq in E. exists es. auto.
  - destruct H as (Hr & es & e & rest & Hlog & Hkeys & Hok & Hfin).
    simpl in Hlog. left. split; [exact Hr|]. exists es, e, rest. auto.
  - destruct H.
  - exact H.
Qed.

Lemma recorded_miss_not_success ts e cfg :
  recorded_miss ts e -> fst e = cfg -> ~ sas_returns (set_pcps ts cfg) None.
Proof.
  intros (Hmiss & f1 & ts1 & H1) <- (f2 & ts2 & H2).
  destruct (simulate_sas_deterministic _ _ _ _ _ _ _ H1 H2) as [Hv _].
  contradiction.
Qed.

(** If some combination in range is schedulable, the search returns 1. *)
Lemma test_all_phase_change_points_finds (ts : taskset_t) (cfg : pcp_config) :
  (forall i, period (tasks ts i) < INT_MAX) ->
  hyper_period ts < LONG_MAX ->
  In cfg (pcp_space ts) ->
  sas_returns (set_pcps ts cfg) None ->
  exists tr ts',
    test_all_phase_change_points (all_pcp_fuel ts) ts = Returned (1, tr) ts'.
Proof.
  intros Hp Hhp Hin Hok.
  pose proof (test_all_phase_change_points_outcome ts (all_pcp_fuel ts) Hp) as H.
  assert (Hall : forall tr, map fst tr = pcp_space ts ->
                            Forall (recorded_miss ts) tr -> False).
  { intros tr Hkeys Hmiss. rewrite <- Hkeys in Hin.
    apply in_map_iff in Hin. destruct Hin as (e & He & Hine).
    rewrite Forall_forall in Hmiss.
    apply (recorded_miss_not_success ts e cfg (Hmiss e Hine) He Hok). }
  destruct (test_all_phase_change_points (all_pcp_fuel ts) ts)
    as [[r tr] ts'| |].
  - destruct H as [(-> & _)|(_ & Hkeys & Hmiss & _)].
    + exists tr, ts'. reflexivity.
    + destruct (Hall tr Hkeys Hmiss).
  - destruct H as (tr & Hkeys & Hmiss & _). destruct (Hall tr Hkeys Hmiss).
  - specialize (H Hhp). lia.
Qed.

(** C1: for positive periods (below [INT_MAX], with the hyper-period below
    [LONG_MAX], so that no counter overflows), [test_all_phase_change_points]
    returns 1 if and only if there are phase change points, each between 0
    and the period of its task, for which [simulate_sas] returns [NULL]. *)
Theorem test_all_phase_change_points_iff (ts : taskset_t) :
  (forall i, 0 < period (tasks ts i) < INT_MAX) ->
  hyper_period ts < LONG_MAX ->
  (exists fuel tr ts',
     test_all_phase_change_points fuel ts = Returned (1, tr) ts')
  <->
  (exists a b c d,
     0 <= a <= period (tasks ts I0) /\ 0 <= b <= period (tasks ts I1) /\
     0 <= c <= period (tasks ts I2) /\ 0 <= d <= period (tasks ts I3) /\
     sas_returns (set_pcps ts (a, b, c, d)) None).
Proof.
  intros Hp Hhp.
  assert (Hp' : forall i, period (tasks ts i) < INT_MAX) by (intros i; apply Hp).
  split.
  - intros (fuel & tr & ts' & Hrun).
    pose proof (test_all_phase_change_points_outcome ts fuel Hp') as H.
    rewrite Hrun in H.
    destruct H as [(_ & es & e & rest & _ & Hkeys & _ & Hnone & Hrec)|([=] & _)].
    destruct e as [[[[a b] c] d] v]. simpl in *. subst v.
    assert (Hin : In (a, b, c, d) (pcp_space ts)).
    { rewrite Hkeys. apply in_app_iff. right. left. reflexivity. }
    apply in_pcp_space in Hin. destruct Hin as (Ha & Hb & Hc & Hd).
    exists a, b, c, d. repeat split; try tauto.
  - intros (a & b & c & d & Ha & Hb & Hc & Hd & Hok).
    destruct (test_all_phase_change_points_finds ts (a, b, c, d) Hp' Hhp)
      as (tr & ts' & Hrun); [apply in_pcp_space; tauto | exact Hok |].
    exists (all_pcp_fuel ts), tr, ts'. exact Hrun.
Qed.

(** The witness of C1: a small task set that is schedulable with all phase
    change points at 0. *)
Definition small_schedulable : taskset_t :=
  let T c p p1 p2 := mk_task c p p1 p2 0 0 0 in
  mk_taskset (T 1 2 4 0) (T 1 4 5 1) (T 0 1 6 2) (T 0 3 7 3) 12.

Lemma test_all_phase_change_points_iff_witness :
  exists a b c d,
    0 <= a <= 2 /\ 0 <= b <= 4 /\ 0 <= c <= 1 /\ 0 <= d <= 3 /\
    sas_returns (set_pcps small_schedulable (a, b, c, d)) None.
Proof.
  apply (proj1 (test_all_phase_change_points_iff small_schedulable
                  ltac:(intros i; destruct i; vm_compute; split; reflexivity)
                  ltac:(vm_compute; reflexivity))).
  exists 100%nat. eexists. eexists. vm_compute. reflexivity.
Defined.

(** *** What the search leaves of the task set *)

Lemma try_combination_keeps_static ts0 fuel s :
  same_static (cur s) ts0 ->
  leaves (fun s => same_static (cur s) ts0) (try_combination fuel s).
Proof.
  intros Hst. unfold try_combination.
  destruct (simulate_sas fuel (cur s)) as [[k|] ts'| |] eqn:Hrun; simpl; auto;
    apply simulate_sas_reset in Hrun;
    (apply same_static_trans with (cur s); [|exact Hst]);
    apply same_static_reset; exact Hrun.
Qed.

Lemma pcp_loop_keeps_static {E R} ts0 i
    (inner : nat -> search E -> exec (search E) R) :
  (forall fuel s, same_static (cur s) ts0 ->
     leaves (fun s => same_static (cur s) ts0) (inner fuel s)) ->
  forall fuel s, same_static (cur s) ts0 ->
    leaves (fun s => same_static (cur s) ts0) (pcp_loop fuel i inner s).
Proof.
  intros Hinner fuel s Hs. unfold pcp_loop.
  apply (for_loop_keeps (fun s => same_static (cur s) ts0)); [|exact Hs].
  intros fuel' x s' Hs'. apply Hinner. simpl.
  apply same_static_trans with (cur s'); [|exact Hs'].
  apply same_static_set_pcp.
Qed.

Lemma all_phase_change_points_keeps_static ts0 fuel s :
  same_static (cur s) ts0 ->
  leaves (fun s => same_static (cur s) ts0) (all_phase_change_points fuel s).
Proof.
  unfold all_phase_change_points.
  repeat (apply pcp_loop_keeps_static; intros ? ?).
  apply try_combination_keeps_static.
Qed.

(** [test_all_phase_change_points] changes phase change points and
    simulation state only. *)
Lemma test_all_phase_change_points_static fuel ts rv ts' :
  test_all_phase_change_points fuel ts = Returned rv ts' -> same_static ts' ts.
Proof.
  unfold test_all_phase_change_points.
  pose proof (all_phase_change_points_keeps_static ts fuel (mk_search ts 0 [])
                eq_refl) as H.
  destruct (all_phase_change_points fuel (mk_search ts 0 [])) as [s|r s| |];
    simpl in H.
  - destruct (_ =? _); [|discriminate]. intros [= _ <-]. exact H.
  - intros [= _ <-]. exact H.
  - discriminate.
  - discriminate.
Qed.

(** *** Loops that run to their end *)

(** A loop on [i <= hi] falls through only if its counter passes [hi]:
    [hi] is below [INT_MAX]. *)
Lemma for_loop_exhausted_bound {S R} (P : S -> Prop) (cond : Z -> S -> bool)
    (body : nat -> Z -> S -> exec S R) (hi : Z) :
  (forall i s, P s -> cond i s = (i <=? hi)) ->
  (forall fuel i s, P s -> leaves P (body fuel i s)) ->
  forall fuel lo s s',
    in_int lo -> P s -> for_loop fuel lo cond body s = Next s' -> hi < INT_MAX.
Proof.
  intros Hcond Hbody fuel.
  induction fuel as [|fuel IH]; intros lo s s' Hlo Hs; simpl; [discriminate|].
  rewrite (Hcond lo s Hs). destruct (lo <=? hi) eqn:E.
  - pose proof (Hbody fuel lo s Hs) as Hb.
    destruct (body fuel lo s) as [s1| | |]; try discriminate.
    apply IH; [apply int_wrap_range | exact Hb].
  - intros _. apply Z.leb_gt in E. unfold in_int in Hlo. lia.
Qed.

(** Its first round, if there is one, fell through too. *)
Lemma for_loop_exhausted_first {S R} (cond : Z -> S -> bool)
    (body : nat -> Z -> S -> exec S R) fuel lo s s' :
  for_loop fuel lo cond body s = Next s' -> cond lo s = true ->
  exists fuel' s1, body fuel' lo s = Next s1.
Proof.
  destruct fuel as [|fuel]; simpl; [discriminate|].
  intros H Hc. rewrite Hc in H.
  destruct (body fuel lo s) as [s1| | |] eqn:Hb; try discriminate.
  exists fuel, s1. exact Hb.
Qed.

Lemma pcp_loop_exhausted {E R} ts0 i
    (inner : nat -> search E -> exec (search E) R) fuel s s' :
  (forall fuel s, same_static (cur s) ts0 ->
     leaves (fun s => same_static (cur s) ts0) (inner fuel s)) ->
  same_static (cur s) ts0 -> 0 <= period (tasks ts0 i) ->
  pcp_loop fuel i inner s = Next s' ->
  period (tasks ts0 i) < INT_MAX /\
  exists fuel' s1 s1', same_static (cur s1) ts0 /\ inner fuel' s1 = Next s1'.
Proof.
  intros Hinner Hs Hp Hrun. unfold pcp_loop in Hrun. split.
  - apply (for_loop_exhausted_bound (fun s => same_static (cur s) ts0)
             _ _ (period (tasks ts0 i))) in Hrun; try assumption.
    + intros x s1 Hs1. rewrite (same_static_period _ _ i Hs1). reflexivity.
    + intros fuel' x s1 Hs1. apply Hinner. simpl.
      apply same_static_trans with (cur s1); [|exact Hs1].
      apply same_static_set_pcp.
    + unfold in_int, INT_MIN, INT_MAX. lia.
  - apply for_loop_exhausted_first in Hrun.
    + destruct Hrun as (fuel' & s1' & Hb).
      exists fuel', (with_cur s (set_pcp (cur s) i 0)), s1'.
      split; [|exact Hb]. simpl.
      apply same_static_trans with (cur s); [|exact Hs].
      apply same_static_set_pcp.
    + rewrite (same_static_period _ _ i Hs). apply Z.leb_le. exact Hp.
Qed.

(** If the four loops ran to their end, no period is [INT_MAX] or more. *)
Lemma all_phase_change_points_exhausted ts fuel s' :
  (forall i, 0 <= period (tasks ts i)) ->
  all_phase_change_points fuel (mk_search ts 0 []) = Next s' ->
  forall i, period (tasks ts i) < INT_MAX.
Proof.
  intros Hp Hrun. unfold all_phase_change_points in Hrun.
  apply (pcp_loop_exhausted ts) in Hrun; [|repeat (apply pcp_loop_keeps_static; intros ? ?);
                apply try_combination_keeps_static | reflexivity | apply Hp].
  destruct Hrun as (H0 & f1 & s1 & s1' & Hs1 & Hrun).
  apply (pcp_loop_exhausted ts) in Hrun; [|repeat (apply pcp_loop_keeps_static; intros ? ?);
                apply try_combination_keeps_static | exact Hs1 | apply Hp].
  destruct Hrun as (H1 & f2 & s2 & s2' & Hs2 & Hrun).
  apply (pcp_loop_exhausted ts) in Hrun; [|repeat (apply pcp_loop_keeps_static; intros ? ?);
                apply try_combination_keeps_static | exact Hs2 | apply Hp].
  destruct Hrun as (H2 & f3 & s3 & s3' & Hs3 & Hrun).
  apply (pcp_loop_exhausted ts) in Hrun; [|apply try_combination_keeps_static
                                          | exact Hs3 | apply Hp].
  destruct Hrun as (H3 & _).
  intros i. destruct i; assumption.
Qed.

(** A loop returns what its body returns. *)
Lemma for_loop_returns {S R} (Q : R -> Prop) (cond : Z -> S -> bool)
    (body : nat -> Z -> S -> exec S R) :
  (forall fuel i s r s', body fuel i s = Ret r s' -> Q r) ->
  forall fuel i s r s', for_loop fuel i cond body s = Ret r s' -> Q r.
Proof.
  intros Hbody fuel. induction fuel as [|fuel IH]; intros i s r s'; simpl;
    [discriminate|].
  destruct (cond i s); [|discriminate].
  destruct (body fuel i s) as [s1|r1 s1| |] eqn:Hb; try discriminate.
  - apply IH.
  - intros [= <- _]. apply (Hbody _ _ _ _ _ Hb).
Qed.

(** The loops of the search return 1 only. *)
Lemma all_phase_change_points_returns_1 fuel s r s' :
  all_phase_change_points fuel s = Ret r s' -> r = 1.
Proof.
  unfold all_phase_change_points, pcp_loop.
  apply (for_loop_returns (fun r => r = 1)). intros f0 x0 s0 r0 s0'.
  apply (for_loop_returns (fun r => r = 1)). intros f1 x1 s1 r1 s1'.
  apply (for_loop_returns (fun r => r = 1)). intros f2 x2 s2 r2 s2'.
  apply (for_loop_returns (fun r => r = 1)). intros f3 x3 s3 r3 s3'.
  unfold try_combination.
  destruct (simulate_sas f3 _) as [[k|] ts'| |]; try discriminate.
  intros [= <- _]. reflexivity.
Qed.

(** C7: for positive periods, when [test_all_phase_change_points] returns
    0 it has called the simulator on the combinations of [pcp_space], in that
    order: as many as the product of the [period + 1], each combination of
    phase change points between 0 and the periods once and no other; and the
    counter of generated combinations equals [total_combinations], as the
    assertion before [return 0] demands. *)
Theorem test_all_phase_change_points_exhaustive
    (ts : taskset_t) (fuel : nat) (tr : list sim_record) (ts' : taskset_t) :
  (forall i, 0 < period (tasks ts i)) ->
  test_all_phase_change_points fuel ts = Returned (0, tr) ts' ->
  map fst tr = pcp_space ts
  /\ Z.of_nat (length tr) =
       (period (tasks ts I0) + 1) * (period (tasks ts I1) + 1) *
       (period (tasks ts I2) + 1) * (period (tasks ts I3) + 1)
  /\ NoDup (map fst tr)
  /\ (forall a b c d,
        In (a, b, c, d) (map fst tr) <->
        0 <= a <= period (tasks ts I0) /\ 0 <= b <= period (tasks ts I1) /\
        0 <= c <= period (tasks ts I2) /\ 0 <= d <= period (tasks ts I3))
  /\ long_wrap (Z.of_nat (length tr)) = total_combinations ts.
Proof.
  intros Hpos Hrun.
  assert (Hp0 : forall i, 0 <= period (tasks ts i))
    by (intros i; specialize (Hpos i); lia).
  assert (Hp : forall i, period (tasks ts i) < INT_MAX).
  { unfold test_all_phase_change_points in Hrun.
    destruct (all_phase_change_points fuel (mk_search ts 0 [])) as [s|r s| |] eqn:E.
    - apply (all_phase_change_points_exhausted ts fuel s Hp0 E).
    - injection Hrun as Hr _ _. subst r.
      apply all_phase_change_points_returns_1 in E. discriminate E.
    - discriminate.
    - discriminate. }
  pose proof (test_all_phase_change_points_outcome ts fuel Hp) as H.
  rewrite Hrun in H.
  destruct H as [([=] & _)|(_ & Hkeys & _ & Hassert)].
  split; [exact Hkeys|]. split.
  - rewrite <- (length_map fst), Hkeys. apply length_pcp_space, Hp0.
  - split; [rewrite Hkeys; apply NoDup_pcp_space|].
    split; [|exact Hassert].
    intros a b c d. rewrite Hkeys. apply in_pcp_space.
Qed.

(** The witness of C7: three tasks that each need the whole processor; the
    search goes through the 2 * 2 * 2 * 3 combinations and returns 0. *)
Definition small_overloaded : taskset_t :=
  let T c p p1 p2 := mk_task c p p1 p2 0 0 0 in
  mk_taskset (T 1 1 4 0) (T 1 1 5 1) (T 1 1 6 2) (T 0 2 7 3) 2.

Lemma test_all_phase_change_points_exhaustive_witness :
  exists tr : list sim_record,
    Z.of_nat (length tr) = 24 /\ NoDup (map fst tr).
Proof.
  refine (let r := test_all_phase_change_points 100 small_overloaded in
          match r as r0 return r = r0 -> _ with
          | Returned (0, tr) ts' => fun Hr => ex_intro _ tr _
          | _ => fun Hr => _
          end eq_refl); try (vm_compute in Hr; discriminate Hr).
  pose proof (test_all_phase_change_points_exhaustive
                small_overloaded 100 tr ts'
                ltac:(intros i; destruct i; reflexivity) Hr) as H.
  destruct H as (_ & Hlen & Hnd & _). split; [exact Hlen | exact Hnd].
Defined.


(** ** The FDMS policy *)

Definition pcp_of (c : pcp_config) (i : task_index) : Z :=
  let '(a, b, c, d) := c in
  match i with I0 => a | I1 => b | I2 => c | I3 => d end.

Lemma pcp_of_pcps ts i : pcp_of (pcps ts) i = phase_change_point (tasks ts i).
Proof. destruct i; reflexivity. Qed.

(** From one simulation to the next, FDMS lowers one phase change point,
    which was positive, by one. *)
Definition lowers_one (c c' : pcp_config) : Prop :=
  exists k, 0 < pcp_of c k /\ pcp_of c' k = pcp_of c k - 1 /\
            forall j, j <> k -> pcp_of c' j = pcp_of c j.

Fixpoint descending (l : list pcp_config) : Prop :=
  match l with
  | c :: (c' :: _) as rest => lowers_one c c' /\ descending rest
  | _ => True
  end.

Definition total_pcp (ts : taskset_t) : Z :=
  phase_change_point (tasks ts I0) + phase_change_point (tasks ts I1) +
  phase_change_point (tasks ts I2) + phase_change_point (tasks ts I3).

Definition periods (ts : taskset_t) : pcp_config :=
  (period (tasks0 ts), period (tasks1 ts), period (tasks2 ts), period (tasks3 ts)).

Lemma pcps_to_periods_cells ts : pcps_to_periods ts = set_pcps ts (periods ts).
Proof. reflexivity. Qed.

Lemma pcps_set_pcps ts cfg : pcps (set_pcps ts cfg) = cfg.
Proof. destruct cfg as [[[a b] c] d]. reflexivity. Qed.

Lemma same_static_set_pcps ts cfg : same_static (set_pcps ts cfg) ts.
Proof. destruct cfg as [[[a b] c] d]. reflexivity. Qed.

Section FDMS.

Variable ts0 : taskset_t.
Hypothesis periods_int : forall i, period (tasks ts0 i) <= INT_MAX.

(** The invariant of the loop of FDMS. *)
Definition fdms_inv (ts : taskset_t) : Prop :=
  same_static ts ts0 /\
  forall i, 0 <= phase_change_point (tasks ts i) <= period (tasks ts0 i).

Lemma fdms_inv_in_space ts : fdms_inv ts -> In (pcps ts) (pcp_space ts0).
Proof.
  intros [_ H]. unfold pcps. apply in_pcp_space.
  repeat split; first [apply (H I0) | apply (H I1) | apply (H I2) | apply (H I3)].
Qed.

(** After a miss of task [k] whose phase change point is positive. *)
Lemma fdms_inv_step fuel ts k ts1 :
  fdms_inv ts ->
  simulate_sas fuel ts = Returned (Some k) ts1 ->
  0 < phase_change_point (tasks ts1 k) ->
  let ts2 := set_pcp ts1 k (int_wrap (phase_change_point (tasks ts1 k) - 1)) in
  fdms_inv ts2 /\ total_pcp ts2 = total_pcp ts - 1 /\
  lowers_one (pcps ts) (pcps ts2).
Proof.
  intros [Hst Hr] Hrun Hpos ts2.
  apply simulate_sas_reset in Hrun.
  assert (Hp : forall i, phase_change_point (tasks ts1 i) =
                         phase_change_point (tasks ts i)).
  { intros i. apply (f_equal (fun x => phase_change_point (tasks x i))) in Hrun.
    rewrite !tasks_reset in Hrun. exact Hrun. }
  assert (Hdec : int_wrap (phase_change_point (tasks ts1 k) - 1) =
                 phase_change_point (tasks ts k) - 1).
  { rewrite Hp in *. apply int_wrap_id.
    specialize (Hr k). specialize (periods_int k).
    unfold in_int, INT_MIN. lia. }
  assert (Hp2 : forall i, phase_change_point (tasks ts2 i) =
            if index_eqb k i then phase_change_point (tasks ts k) - 1
            else phase_change_point (tasks ts i)).
  { intros i. unfold ts2. rewrite pcp_set_pcp, Hdec, Hp. reflexivity. }
  rewrite Hp in Hpos. split; [split|split].
  - apply same_static_trans with ts1; [apply same_static_set_pcp|].
    apply same_static_trans with ts; [apply same_static_reset, Hrun | exact Hst].
  - intros i. rewrite Hp2. destruct (index_eqb k i) eqn:E; [|apply Hr].
    apply Nat.eqb_eq, index_nat_inj in E. subst i. specialize (Hr k). lia.
  - unfold total_pcp. rewrite !Hp2. destruct k; simpl; lia.
  - exists k. rewrite !pcp_of_pcps, Hp2.
    unfold index_eqb at 1. rewrite Nat.eqb_refl.
    split; [exact Hpos|]. split; [reflexivity|].
    intros j Hj. rewrite !pcp_of_pcps, Hp2.
    destruct (index_eqb k j) eqn:E; [|reflexivity].
    apply Nat.eqb_eq, index_nat_inj in E. congruence.
Qed.

(** FDMS succeeds on phase change points of the search space only. *)
Lemma fdms_loop_success fuel : forall ts sims sims' ts',
  fdms_inv ts ->
  fdms_loop fuel ts sims = Returned (1, sims') ts' ->
  exists cfg, In cfg (pcp_space ts0) /\ sas_returns (set_pcps ts0 cfg) None.
Proof.
  induction fuel as [|fuel IH]; intros ts sims sims' ts' Hinv; simpl;
    [discriminate|].
  destruct (simulate_sas fuel ts) as [[k|] ts1| |] eqn:Hrun; try discriminate.
  - destruct (0 <? phase_change_point (tasks ts1 k)) eqn:E; [|discriminate].
    apply Z.ltb_lt in E.
    destruct (fdms_inv_step fuel ts k ts1 Hinv Hrun E) as (Hinv2 & _).
    apply IH. exact Hinv2.
  - intros _. exists (pcps ts). split; [apply fdms_inv_in_space, Hinv|].
    exists fuel, ts1. rewrite <- Hrun. symmetry.
    apply simulate_sas_set_pcps. apply Hinv.
Qed.

Hypothesis hyper_period_below_max : hyper_period ts0 < LONG_MAX.

(** Every round lowers the sum of the phase change points by one: after
    at most [n + 1] simulations the loop has returned, if the sum is at most
    [n] at the start. *)
Lemma fdms_loop_terminates (n : nat) : forall fuel ts sims,
  fdms_inv ts -> total_pcp ts <= Z.of_nat n ->
  (n + 1 + sas_fuel ts0 <= fuel)%nat ->
  exists r new ts',
    fdms_loop fuel ts sims = Returned (r, sims ++ new) ts' /\
    (r = 0 \/ r = 1) /\ (length new <= n + 1)%nat /\
    hd_error new = Some (pcps ts) /\ descending new.
Proof.
  induction n as [|n IH]; intros fuel ts sims Hinv Hsum Hfuel;
    (destruct fuel as [|fuel]; [lia|]); simpl.
  - destruct (simulate_sas_terminates fuel ts) as (v & ts1 & Hrun).
    { rewrite (same_static_hyper_period _ _ (proj1 Hinv)). assumption. }
    { unfold sas_fuel in *.
      rewrite (same_static_hyper_period _ _ (proj1 Hinv)). lia. }
    rewrite Hrun. destruct v as [k|].
    + destruct (0 <? phase_change_point (tasks ts1 k)) eqn:E.
      * apply Z.ltb_lt in E. exfalso.
        destruct (fdms_inv_step fuel ts k ts1 Hinv Hrun E) as ([_ Hr2] & Hs2 & _).
        unfold total_pcp in Hs2 at 1.
        pose proof (Hr2 I0). pose proof (Hr2 I1).
        pose proof (Hr2 I2). pose proof (Hr2 I3). lia.
      * exists 0, [pcps ts], ts1. simpl. auto.
    + exists 1, [pcps ts], ts1. simpl. auto.
  - destruct (simulate_sas_terminates fuel ts) as (v & ts1 & Hrun).
    { rewrite (same_static_hyper_period _ _ (proj1 Hinv)). assumption. }
    { unfold sas_fuel in *.
      rewrite (same_static_hyper_period _ _ (proj1 Hinv)). lia. }
    rewrite Hrun. destruct v as [k|].
    + destruct (0 <? phase_change_point (tasks ts1 k)) eqn:E.
      * apply Z.ltb_lt in E.
        destruct (fdms_inv_step fuel ts k ts1 Hinv Hrun E) as (Hinv2 & Hs2 & Hlow).
        destruct (IH fuel _ (sims ++ [pcps ts]) Hinv2 ltac:(lia) ltac:(lia))
          as (r & new & ts' & Hloop & Hr & Hlen & Hhd & Hdesc).
        exists r, (pcps ts :: new), ts'.
        rewrite Hloop, <- app_assoc. simpl.
        split; [reflexivity|]. split; [exact Hr|]. split; [lia|].
        split; [reflexivity|].
        destruct new as [|c' new']; [exact I|].
        simpl in Hhd. injection Hhd as ->. split; assumption.
      * exists 0, [pcps ts], ts1. simpl. repeat split; auto. lia.
    + exists 1, [pcps ts], ts1. simpl. repeat split; auto. lia.
Qed.

End FDMS.

Lemma fdms_inv_start ts :
  (forall i, 0 <= period (tasks ts i)) -> fdms_inv ts (pcps_to_periods ts).
Proof.
  intros Hp. rewrite pcps_to_periods_cells. split.
  - apply same_static_set_pcps.
  - intros i. rewrite <- pcp_of_pcps, pcps_set_pcps.
    specialize (Hp i). destruct i; simpl in *; lia.
Qed.

(** C2: for positive periods (below [INT_MAX], hyper-period below
    [LONG_MAX]), if [test_fdms_phase_change_points] returns 1 then
    [test_all_phase_change_points] returns 1 on the same task set. *)
Theorem fdms_success_implies_witness (ts : taskset_t) :
  (forall i, 0 < period (tasks ts i) < INT_MAX) ->
  hyper_period ts < LONG_MAX ->
  (exists fuel sims ts',
     test_fdms_phase_change_points fuel ts = Returned (1, sims) ts') ->
  exists fuel tr ts',
    test_all_phase_change_points fuel ts = Returned (1, tr) ts'.
Proof.
  intros Hp Hhp (fuel & sims & ts' & Hrun).
  unfold test_fdms_phase_change_points in Hrun.
  apply (fdms_loop_success ts) in Hrun.
  - destruct Hrun as (cfg & Hin & Hok).
    destruct (test_all_phase_change_points_finds ts cfg) as (tr & ts2 & H);
      try assumption.
    + intros i. apply Hp.
    + exists (all_pcp_fuel ts), tr, ts2. exact H.
  - intros i. specialize (Hp i). lia.
  - apply fdms_inv_start. intros i. specialize (Hp i). lia.
Qed.

Lemma fdms_success_implies_witness_witness :
  exists fuel tr ts',
    test_all_phase_change_points fuel small_schedulable = Returned (1, tr) ts'.
Proof.
  apply (fdms_success_implies_witness small_schedulable).
  - intros i. destruct i; vm_compute; split; reflexivity.
  - vm_compute. reflexivity.
  - exists 100%nat. eexists. eexists. vm_compute. reflexivity.
Defined.

(** C5: for positive periods (of type [int], hyper-period below
    [LONG_MAX]), [test_fdms_phase_change_points] returns, 0 or 1; its first
    simulation has every phase change point at the period of its task, each
    further simulation has one phase change point, which was positive, lowered
    by one, and there are at most 1 + the sum of the periods simulations. *)
Theorem test_fdms_terminates (ts : taskset_t) :
  (forall i, 0 < period (tasks ts i) <= INT_MAX) ->
  hyper_period ts < LONG_MAX ->
  exists fuel r sims ts',
    test_fdms_phase_change_points fuel ts = Returned (r, sims) ts' /\
    (r = 0 \/ r = 1) /\
    Z.of_nat (length sims) <=
      1 + (period (tasks ts I0) + period (tasks ts I1) +
           period (tasks ts I2) + period (tasks ts I3)) /\
    hd_error sims = Some (periods ts) /\
    descending sims.
Proof.
  intros Hp Hhp.
  assert (Hp0 : forall i, 0 <= period (tasks ts i))
    by (intros i; specialize (Hp i); lia).
  pose proof (Hp0 I0). pose proof (Hp0 I1). pose proof (Hp0 I2). pose proof (Hp0 I3).
  set (n := Z.to_nat (period (tasks ts I0) + period (tasks ts I1) +
                      period (tasks ts I2) + period (tasks ts I3))).
  destruct (fdms_loop_terminates ts (fun i => proj2 (Hp i)) Hhp n
              (n + 1 + sas_fuel ts) (pcps_to_periods ts) [])
    as (r & new & ts' & Hloop & Hr & Hlen & Hhd & Hdesc).
  - apply fdms_inv_start, Hp0.
  - rewrite pcps_to_periods_cells. unfold total_pcp.
    rewrite <- !pcp_of_pcps, pcps_set_pcps. unfold n. simpl. lia.
  - apply le_n.
  - exists (n + 1 + sas_fuel ts)%nat, r, new, ts'.
    split; [exact Hloop|]. split; [exact Hr|]. split; [unfold n in Hlen; lia|].
    split; [|exact Hdesc].
    rewrite Hhd, pcps_to_periods_cells, pcps_set_pcps. reflexivity.
Qed.

Lemma test_fdms_terminates_witness :
  exists fuel r sims ts',
    test_fdms_phase_change_points fuel small_overloaded = Returned (r, sims) ts' /\
    (r = 0 \/ r = 1) /\ Z.of_nat (length sims) <= 1 + (1 + 1 + 1 + 2) /\
    hd_error sims = Some (1, 1, 1, 2) /\ descending sims.
Proof.
  apply (test_fdms_terminates small_overloaded).
  - intros i. destruct i; vm_compute; split; first [reflexivity | discriminate].
  - vm_compute. reflexivity.
Defined.

(** ** The searches over the priority permutations *)

(** The values that a loop [for (x = start; x < 8; x++)] gives to its slot,
    skipping those of [used], each followed by what the inner loops
    generate. *)
Definition choose {A} (start : Z) (used : list Z) (inner : Z -> list A)
    : list A :=
  flat_map (fun x => if existsb (Z.eqb x) used then [] else inner x)
           (zrange start 7).

(** All the priority permutations, in the order of the eight nested loops
    of [test_all_configurations_exhaustively]: phase 2 priorities first.
    A permutation lists the priorities as [prios] does. *)
Definition all_permutations : list (list Z) :=
  choose 0 [] (fun T1p2 =>
  choose 0 [T1p2] (fun T2p2 =>
  choose 0 [T1p2; T2p2] (fun T3p2 =>
  choose 0 [T1p2; T2p2; T3p2] (fun T4p2 =>
  choose 0 [T1p2; T2p2; T3p2; T4p2] (fun T1p1 =>
  choose 0 [T1p2; T2p2; T3p2; T4p2; T1p1] (fun T2p1 =>
  choose 0 [T1p2; T2p2; T3p2; T4p2; T1p1; T2p1] (fun T3p1 =>
  choose 0 [T1p2; T2p2; T3p2; T4p2; T1p1; T2p1; T3p1] (fun T4p1 =>
    [[T1p1; T1p2; T2p1; T2p2; T3p1; T3p2; T4p1; T4p2]])))))))).

(** Those of [test_rm_configurations_exhaustively]: increasing phase 1
    priorities first. *)
Definition rm_permutations : list (list Z) :=
  choose 0 [] (fun T1p1 =>
  choose (T1p1 + 1) [] (fun T2p1 =>
  choose (T2p1 + 1) [] (fun T3p1 =>
  choose (T3p1 + 1) [] (fun T4p1 =>
  choose 0 [T1p1; T2p1; T3p1; T4p1] (fun T1p2 =>
  choose 0 [T1p1; T2p1; T3p1; T4p1; T1p2] (fun T2p2 =>
  choose 0 [T1p1; T2p1; T3p1; T4p1; T1p2; T2p2] (fun T3p2 =>
  choose 0 [T1p1; T2p1; T3p1; T4p1; T1p2; T2p2; T3p2] (fun T4p2 =>
    [[T1p1; T1p2; T2p1; T2p2; T3p1; T3p2; T4p1; T4p2]])))))))).

Lemma in_choose {A} start used (inner : Z -> list A) (p : A) :
  In p (choose start used inner) <->
  exists x, start <= x <= 7 /\ ~ In x used /\ In p (inner x).
Proof.
  unfold choose. rewrite in_flat_map. split.
  - intros (x & Hx & Hp). apply in_zrange in Hx.
    destruct (existsb (Z.eqb x) used) eqn:E; [destruct Hp|].
    exists x. split; [exact Hx|]. split; [|exact Hp].
    intros Hin. assert (existsb (Z.eqb x) used = true); [|congruence].
    apply existsb_exists. exists x. split; [exact Hin | apply Z.eqb_refl].
  - intros (x & Hx & Hused & Hp). exists x. split; [apply in_zrange, Hx|].
    destruct (existsb (Z.eqb x) used) eqn:E; [|exact Hp].
    apply existsb_exists in E. destruct E as (y & Hy & Heq).
    apply Z.eqb_eq in Heq. subst y. contradiction.
Qed.

Definition prio_of (sl : prio_slot) (tk : task_t) : Z :=
  match sl with
  | Phase1 => phase_1_prio tk
  | Phase2 => phase_2_prio tk
  end.

Definition slot_eqb (a b : prio_slot * task_index) : bool :=
  match fst a, fst b with
  | Phase1, Phase1 | Phase2, Phase2 => index_eqb (snd a) (snd b)
  | _, _ => false
  end.

Lemma slot_eqb_eq a b : slot_eqb a b = true -> a = b.
Proof.
  destruct a as [[] i], b as [[] j]; unfold slot_eqb; simpl;
    try discriminate; intros H; apply Nat.eqb_eq, index_nat_inj in H;
    congruence.
Qed.

Lemma prio_of_set_prio ts sl i v sl' j :
  prio_of sl' (tasks (set_prio ts sl i v) j) =
  if slot_eqb (sl, i) (sl', j) then v else prio_of sl' (tasks ts j).
Proof. destruct sl, sl', i, j; reflexivity. Qed.

Lemma same_static_prio_of ts ts' sl i :
  same_static ts ts' -> prio_of sl (tasks ts i) = prio_of sl (tasks ts' i).
Proof.
  intros H. apply (f_equal (fun x => prio_of sl (tasks x i))) in H.
  destruct sl, i; exact H.
Qed.

Lemma ltb_8_leb_7 x : (x <? 8) = (x <=? 7).
Proof.
  destruct (x <? 8) eqn:E1, (x <=? 7) eqn:E2; try reflexivity;
    rewrite ?Z.ltb_lt, ?Z.ltb_ge, ?Z.leb_le, ?Z.leb_gt in *; lia.
Qed.

Section PermutationSearch.

(** The invariant of a search, inside the loops that have assigned the
    priorities [assigned]. *)
Definition perm_inv (assigned : list (prio_slot * task_index * Z))
    (s : search (list Z)) : Prop :=
  Forall (fun a => prio_of (fst (fst a)) (tasks (cur s) (snd (fst a))) = snd a)
         assigned /\
  generated s = long_wrap (Z.of_nat (length (visited s))).

(** The permutations on record are those of [L], in order; nothing is
    claimed about termination, nor when an inner assertion fails. *)
Definition perm_emits (assigned : list (prio_slot * task_index * Z))
    (L : list (list Z))
    (c : nat -> search (list Z) -> exec (search (list Z)) Z) : Prop :=
  emits visited (fun p => p) (fun _ => True) (fun _ => True) (fun _ => True)
        True False 0 (perm_inv assigned) (perm_inv assigned) L c.

Lemma try_permutation_emits assigned p :
  (forall s, perm_inv assigned s -> prios (cur s) = p) ->
  perm_emits assigned [p] try_permutation.
Proof.
  intros Hp fuel s Hinv. pose proof (Hp s Hinv) as Hprios.
  destruct Hinv as [Hslots Hgen].
  unfold try_permutation. cbn [cur count_generated].
  destruct (test_all_phase_change_points fuel (cur s))
    as [[r tr] ts'| |] eqn:Hrun; simpl; auto.
  assert (Hlog : visited s ++ [prios (cur s)] = visited s ++ [p])
    by (rewrite Hprios; reflexivity).
  destruct (r =? 0); simpl.
  - split.
    + split.
      * apply test_all_phase_change_points_static in Hrun.
        eapply Forall_impl; [|exact Hslots]. intros a Ha. simpl in *.
        rewrite (same_static_prio_of _ _ _ _ Hrun). exact Ha.
      * cbn [generated visited with_cur count_generated].
        rewrite Hgen, long_wrap_succ, length_app. simpl. f_equal. lia.
    + exists [p]. repeat split; [exact Hlog|]. repeat constructor.
  - split; [exact I|]. exists [], p, []. repeat split; [exact Hlog|constructor].
  - intros [].
Qed.

(** One loop of a nest. *)
Lemma prio_loop_emits assigned start used sl i L inner :
  ~ In (sl, i) (map fst assigned) ->
  0 <= start ->
  (forall x, start <= x <= 7 -> ~ In x used ->
     perm_emits ((sl, i, x) :: assigned) (L x) (fun fuel => inner fuel x)) ->
  perm_emits assigned (choose start used L)
             (fun fuel => prio_loop fuel start used sl i inner).
Proof.
  intros Hfresh Hstart Hinner. unfold perm_emits, prio_loop, choose.
  apply (emits_partial _ _ _ _ _ _ (0 + Z.to_nat (7 + 1 - start) + 1)).
  apply for_loop_emits with (hi := 7) (F := 0%nat)
                            (n := Z.to_nat (7 + 1 - start)).
  - unfold INT_MAX. lia.
  - intros x s _. apply ltb_8_leb_7.
  - unfold INT_MIN. lia.
  - reflexivity.
  - intros x Hx. destruct (existsb (Z.eqb x) used) eqn:E.
    + apply emits_continue.
    + assert (Hused : ~ In x used).
      { intros Hin. assert (existsb (Z.eqb x) used = true); [|congruence].
        apply existsb_exists. exists x. split; [exact Hin | apply Z.eqb_refl]. }
      apply (emits_after visited (fun p => p) _ _ _ _ _ _
               (perm_inv ((sl, i, x) :: assigned))
               _ _ _ (fun fuel => inner fuel x)
               (fun s => with_cur s (set_prio (cur s) sl i x))).
      * reflexivity.
      * intros s [Hslots Hgen]. split; [|exact Hgen]. constructor.
        -- simpl. rewrite prio_of_set_prio.
           replace (slot_eqb (sl, i) (sl, i)) with true; [reflexivity|].
           destruct sl; unfold slot_eqb, index_eqb; simpl;
             rewrite Nat.eqb_refl; reflexivity.
        -- rewrite Forall_forall in *. intros [[sl' j] v] Hj. simpl.
           rewrite prio_of_set_prio.
           destruct (slot_eqb (sl, i) (sl', j)) eqn:Heq.
           ++ apply slot_eqb_eq in Heq. exfalso. apply Hfresh.
              apply in_map_iff. exists (sl', j, v). split; [symmetry; exact Heq|exact Hj].
           ++ apply (Hslots (sl', j, v) Hj).
      * eapply emits_weaken; [apply le_n | | |apply (Hinner x Hx Hused)].
        -- auto.
        -- intros s [Hslots Hgen]. split; [|exact Hgen].
           inversion Hslots; assumption.
Qed.

(** The priorities of a task set in which all eight are assigned. *)
Ltac read_prios :=
  intros s [Hslots _];
  repeat match goal with
         | H : Forall _ (_ :: _) |- _ =>
             apply Forall_cons_iff in H; destruct H as [? H]
         end;
  unfold prios, all_tasks; simpl in *; congruence.

Ltac fresh_slot :=
  simpl; intuition discriminate.

Lemma all_priority_permutations_emits :
  perm_emits [] all_permutations all_priority_permutations.
Proof.
  unfold all_priority_permutations, all_permutations.
  apply prio_loop_emits; [fresh_slot | lia |]. intros T1p2 _ _.
  apply prio_loop_emits; [fresh_slot | lia |]. intros T2p2 _ _.
  apply prio_loop_emits; [fresh_slot | lia |]. intros T3p2 _ _.
  apply prio_loop_emits; [fresh_slot | lia |]. intros T4p2 _ _.
  apply prio_loop_emits; [fresh_slot | lia |]. intros T1p1 _ _.
  apply prio_loop_emits; [fresh_slot | lia |]. intros T2p1 _ _.
  apply prio_loop_emits; [fresh_slot | lia |]. intros T3p1 _ _.
  apply prio_loop_emits; [fresh_slot | lia |]. intros T4p1 _ _.
  apply try_permutation_emits. read_prios.
Qed.

Lemma rm_start x : 0 <= x <= 7 -> int_wrap (x + 1) = x + 1.
Proof. intros H. apply int_wrap_id. unfold in_int, INT_MIN, INT_MAX. lia. Qed.

Lemma rm_priority_permutations_emits :
  perm_emits [] rm_permutations rm_priority_permutations.
Proof.
  unfold rm_priority_permutations, rm_permutations.
  apply prio_loop_emits; [fresh_slot | lia |]. intros T1p1 H1 _.
  rewrite rm_start by lia.
  apply prio_loop_emits; [fresh_slot | lia |]. intros T2p1 H2 _.
  rewrite rm_start by lia.
  apply prio_loop_emits; [fresh_slot | lia |]. intros T3p1 H3 _.
  rewrite rm_start by lia.
  apply prio_loop_emits; [fresh_slot | lia |]. intros T4p1 H4 _.
  apply prio_loop_emits; [fresh_slot | lia |]. intros T1p2 _ _.
  apply prio_loop_emits; [fresh_slot | lia |]. intros T2p2 _ _.
  apply prio_loop_emits; [fresh_slot | lia |]. intros T3p2 _ _.
  apply prio_loop_emits; [fresh_slot | lia |]. intros T4p2 _ _.
  apply try_permutation_emits. read_prios.
Qed.

End PermutationSearch.

(** *** The permutations generated *)

(** A list of 8 values among which every value from 0 to 7 occurs. *)
Definition is_perm8 (p : list Z) : bool :=
  Nat.eqb (length p) 8 && forallb (fun v => existsb (Z.eqb v) p) (zrange 0 7).

Lemma is_perm8_sound p : is_perm8 p = true -> Permutation (zrange 0 7) p.
Proof.
  unfold is_perm8. rewrite andb_true_iff, Nat.eqb_eq, forallb_forall.
  intros [Hlen Hall]. apply NoDup_Permutation_bis.
  - apply NoDup_zrange.
  - rewrite Hlen. reflexivity.
  - intros v Hv. specialize (Hall v Hv). apply existsb_exists in Hall.
    destruct Hall as (y & Hy & Heq). apply Z.eqb_eq in Heq. subst y. exact Hy.
Qed.

(** The phase 1 priorities increase with the task index. *)
Definition rm_phase_1 (p : list Z) : Prop :=
  nth 0 p 0 < nth 2 p 0 /\ nth 2 p 0 < nth 4 p 0 /\ nth 4 p 0 < nth 6 p 0.

Definition rm_phase_1b (p : list Z) : bool :=
  (nth 0 p 0 <? nth 2 p 0) && (nth 2 p 0 <? nth 4 p 0) && (nth 4 p 0 <? nth 6 p 0).

Lemma rm_phase_1b_sound p : rm_phase_1b p = true -> rm_phase_1 p.
Proof.
  unfold rm_phase_1b, rm_phase_1. rewrite !andb_true_iff, !Z.ltb_lt. tauto.
Qed.

(** A strictly increasing list has no duplicates. *)
Fixpoint increasing_from (lo : Z) (l : list Z) : bool :=
  match l with
  | [] => true
  | x :: r => (lo <? x) && increasing_from x r
  end.

Lemma increasing_from_NoDup l : forall lo,
  increasing_from lo l = true -> (forall x, In x l -> lo < x) /\ NoDup l.
Proof.
  induction l as [|y l IH]; intros lo; simpl.
  - intros _. split; [intros x []|constructor].
  - rewrite andb_true_iff, Z.ltb_lt. intros [Hlo Hl].
    destruct (IH y Hl) as [Hgt Hnd]. split.
    + intros x [<-|Hx]; [exact Hlo|]. specialize (Hgt x Hx). lia.
    + constructor; [|exact Hnd]. intros Hy. specialize (Hgt y Hy). lia.
Qed.

(** A permutation as a number in base 8, its digits in the order given. *)
Definition perm_code (order : list nat) (p : list Z) : Z :=
  fold_left (fun acc k => acc * 8 + nth k p 0) order 0.

Lemma NoDup_by_code order (l : list (list Z)) :
  increasing_from (-1) (map (perm_code order) l) = true -> NoDup l.
Proof.
  intros H. apply increasing_from_NoDup in H.
  apply (NoDup_map_inv (perm_code order)). apply H.
Qed.

Lemma length_all_permutations : Z.of_nat (length all_permutations) = 40320.
Proof. vm_compute. reflexivity. Qed.

Lemma length_rm_permutations : Z.of_nat (length rm_permutations) = 1680.
Proof. vm_compute. reflexivity. Qed.

Lemma NoDup_all_permutations : NoDup all_permutations.
Proof.
  apply (NoDup_by_code [1; 3; 5; 7; 0; 2; 4; 6]%nat). vm_compute. reflexivity.
Qed.

Lemma NoDup_rm_permutations : NoDup rm_permutations.
Proof.
  apply (NoDup_by_code [0; 2; 4; 6; 1; 3; 5; 7]%nat). vm_compute. reflexivity.
Qed.

Lemma all_permutations_sound :
  forallb is_perm8 all_permutations = true.
Proof. vm_compute. reflexivity. Qed.

Lemma rm_permutations_sound :
  forallb (fun p => is_perm8 p && rm_phase_1b p) rm_permutations = true.
Proof. vm_compute. reflexivity. Qed.

(** A permutation of 0..7 is a list of eight values, all different, all
    between 0 and 7. *)
Lemma perm8_cells p :
  Permutation (zrange 0 7) p ->
  exists a b c d e f g h,
    p = [a; b; c; d; e; f; g; h] /\ NoDup p /\ forall x, In x p -> 0 <= x <= 7.
Proof.
  intros Hperm.
  pose proof (Permutation_length Hperm) as Hlen.
  pose proof (Permutation_NoDup Hperm (NoDup_zrange 0 7)) as Hnd.
  assert (Hin : forall x, In x p -> 0 <= x <= 7).
  { intros x Hx. apply in_zrange.
    apply (Permutation_in x (Permutation_sym Hperm) Hx). }
  rewrite length_zrange in Hlen. simpl in Hlen.
  destruct p as [|a [|b [|c [|d [|e [|f [|g [|h [|]]]]]]]]]; try discriminate.
  exists a, b, c, d, e, f, g, h. auto.
Qed.

(** The inequalities between the eight values are kept away from [lia],
    which would split on each of them. *)
Ltac range_goal :=
  repeat match goal with H : _ <> _ |- _ => clear H end; lia.

Ltac unused_goal :=
  cbn [In]; intuition congruence.

Ltac pick_slot v :=
  apply in_choose; exists v; split; [range_goal|]; split; [unused_goal|].

(** The eight values are between 0 and 7 and pairwise different. *)
Ltac perm8_facts Hnd Hin :=
  pose proof (Hin _ (or_introl eq_refl));
  pose proof (Hin _ (or_intror (or_introl eq_refl)));
  pose proof (Hin _ (or_intror (or_intror (or_introl eq_refl))));
  pose proof (Hin _ (or_intror (or_intror (or_intror (or_introl eq_refl)))));
  pose proof (Hin _ (or_intror (or_intror (or_intror (or_intror
                      (or_introl eq_refl))))));
  pose proof (Hin _ (or_intror (or_intror (or_intror (or_intror (or_intror
                      (or_introl eq_refl)))))));
  pose proof (Hin _ (or_intror (or_intror (or_intror (or_intror (or_intror
                      (or_intror (or_introl eq_refl))))))));
  pose proof (Hin _ (or_intror (or_intror (or_intror (or_intror (or_intror
                      (or_intror (or_intror (or_introl eq_refl)))))))));
  clear Hin;
  repeat match goal with
         | H : NoDup (_ :: _) |- _ =>
             let Hx := fresh "Hx" in
             apply NoDup_cons_iff in H; destruct H as [Hx H];
             cbn [In] in Hx
         end;
  repeat match goal with
         | H : ~ (_ \/ _) |- _ =>
             let Hd := fresh "Hd" in
             apply Decidable.not_or in H; destruct H as [Hd H]
         end.

Lemma all_permutations_complete p :
  Permutation (zrange 0 7) p -> In p all_permutations.
Proof.
  intros Hperm.
  destruct (perm8_cells p Hperm) as (a & b & c & d & e & f & g & h & -> & Hnd & Hin).
  clear Hperm. perm8_facts Hnd Hin. unfold all_permutations.
  pick_slot b. pick_slot d. pick_slot f. pick_slot h.
  pick_slot a. pick_slot c. pick_slot e. pick_slot g.
  left. reflexivity.
Qed.

Lemma rm_permutations_complete p :
  Permutation (zrange 0 7) p -> rm_phase_1 p -> In p rm_permutations.
Proof.
  intros Hperm Hrm.
  destruct (perm8_cells p Hperm) as (a & b & c & d & e & f & g & h & -> & Hnd & Hin).
  clear Hperm. perm8_facts Hnd Hin.
  unfold rm_phase_1 in Hrm. cbn [nth] in Hrm. unfold rm_permutations.
  pick_slot a. pick_slot c. pick_slot e. pick_slot g.
  pick_slot b. pick_slot d. pick_slot f. pick_slot h.
  left. reflexivity.
Qed.

Lemma in_all_permutations p :
  In p all_permutations <-> Permutation (zrange 0 7) p.
Proof.
  split; [|apply all_permutations_complete].
  intros Hin. apply is_perm8_sound.
  pose proof all_permutations_sound as H. rewrite forallb_forall in H.
  apply H, Hin.
Qed.

Lemma in_rm_permutations p :
  In p rm_permutations <-> Permutation (zrange 0 7) p /\ rm_phase_1 p.
Proof.
  split; [|intros [Hp Hrm]; apply rm_permutations_complete; assumption].
  intros Hin. pose proof rm_permutations_sound as H.
  rewrite forallb_forall in H. specialize (H p Hin).
  apply andb_true_iff in H. destruct H as [H1 H2].
  split; [apply is_perm8_sound, H1 | apply rm_phase_1b_sound, H2].
Qed.

(** *** The two exhaustive searches *)

(** What a search returned, and the configurations it had generated. *)
Definition returned_value {E} (c : call (Z * list E)) : option Z :=
  match c with
  | Returned (r, _) _ => Some r
  | Aborted | OutOfFuel => None
  end.

Definition returned_trace {E} (c : call (Z * list E)) : list E :=
  match c with
  | Returned (_, tr) _ => tr
  | Aborted | OutOfFuel => []
  end.

Lemma try_permutation_returns_1 fuel s r s' :
  try_permutation fuel s = Ret r s' -> r = 1.
Proof.
  unfold try_permutation.
  destruct (test_all_phase_change_points fuel _) as [[r0 tr] ts'| |];
    try discriminate.
  destruct (r0 =? 0); [discriminate|]. intros [= <- _]. reflexivity.
Qed.

Lemma prio_loop_returns_1 {E} fuel start used sl i
    (inner : nat -> Z -> search E -> exec (search E) Z) s r s' :
  (forall fuel x s r s', inner fuel x s = Ret r s' -> r = 1) ->
  prio_loop fuel start used sl i inner s = Ret r s' -> r = 1.
Proof.
  intros Hinner. unfold prio_loop.
  apply (for_loop_returns (fun r => r = 1)). intros f x s0 r0 s0'.
  destruct (existsb (Z.eqb x) used); [discriminate|]. apply Hinner.
Qed.

Lemma all_priority_permutations_returns_1 fuel s r s' :
  all_priority_permutations fuel s = Ret r s' -> r = 1.
Proof.
  unfold all_priority_permutations.
  repeat (apply prio_loop_returns_1; intros ? ? ? ? ?).
  apply try_permutation_returns_1.
Qed.

Lemma rm_priority_permutations_returns_1 fuel s r s' :
  rm_priority_permutations fuel s = Ret r s' -> r = 1.
Proof.
  unfold rm_priority_permutations.
  repeat (apply prio_loop_returns_1; intros ? ? ? ? ?).
  apply try_permutation_returns_1.
Qed.

Lemma perm_inv_start ts : perm_inv [] (mk_search ts 0 []).
Proof.
  split; [constructor|]. simpl. symmetry. apply long_wrap_id.
  unfold in_long, LONG_MIN, LONG_MAX. lia.
Qed.

(** A nest that generates [L]: when its loops run to their end, [L] is on
    record and the counter is its length. *)
Lemma exhausted_search L loops fuel ts s' :
  perm_emits [] L loops ->
  Z.of_nat (length L) <= LONG_MAX ->
  loops fuel (mk_search ts 0 []) = Next s' ->
  visited s' = L /\ generated s' = Z.of_nat (length L).
Proof.
  intros Hem Hlen Hrun.
  pose proof (Hem fuel (mk_search ts 0 []) (perm_inv_start ts)) as H.
  unfold generates in H. rewrite Hrun in H.
  destruct H as ((_ & Hgen) & es & Hlog & Hkeys & _).
  rewrite map_id in Hkeys. simpl in Hlog. rewrite Hkeys in Hlog.
  split; [exact Hlog|]. rewrite Hgen, Hlog. apply long_wrap_id.
  unfold in_long, LONG_MIN. lia.
Qed.

Lemma finished_search L loops total fuel ts :
  perm_emits [] L loops ->
  Z.of_nat (length L) <= LONG_MAX ->
  (forall fuel s r s', loops fuel s = Ret r s' -> r = 1) ->
  let run := finish_search total (loops fuel (mk_search ts 0 [])) in
  returned_value run = Some 0 -> returned_trace run = L.
Proof.
  intros Hem Hlen Hret run. unfold run, finish_search.
  destruct (loops fuel (mk_search ts 0 [])) as [s|r s| |] eqn:Hrun.
  - destruct (exhausted_search L loops fuel ts s Hem Hlen Hrun) as [Hv _].
    destruct (generated s =? total); simpl; [|discriminate]. intros _. exact Hv.
  - simpl. intros [= ->]. apply Hret in Hrun. discriminate.
  - discriminate.
  - discriminate.
Qed.

(** C6: when the eight loops of [test_all_configurations_exhaustively] run
    to their end they have generated the 40320 lists of [all_permutations], in
    that order (phase 2 priorities first): all different, and exactly the
    arrangements of the values 0..7 over the eight priorities; the counter is
    then 8*7*6*5*4*3*2*1, as the assertion demands, and a call that returns 0
    has generated them.  Likewise [test_rm_configurations_exhaustively]
    generates the 1680 lists of [rm_permutations]: the arrangements in which
    the phase 1 priorities increase with the task index; the counter is then
    8*7*6*5. *)
Theorem exhaustive_searches_generate_all :
  (forall fuel ts s',
     all_priority_permutations fuel (mk_search ts 0 []) = Next s' ->
     visited s' = all_permutations /\ generated s' = 8*7*6*5*4*3*2*1)
  /\ (forall fuel ts,
        returned_value (test_all_configurations_exhaustively fuel ts) = Some 0 ->
        returned_trace (test_all_configurations_exhaustively fuel ts)
        = all_permutations)
  /\ Z.of_nat (length all_permutations) = 40320
  /\ NoDup all_permutations
  /\ (forall p, In p all_permutations <-> Permutation (zrange 0 7) p)
  /\ (forall fuel ts s',
        rm_priority_permutations fuel (mk_search ts 0 []) = Next s' ->
        visited s' = rm_permutations /\ generated s' = 8*7*6*5)
  /\ (forall fuel ts,
        returned_value (test_rm_configurations_exhaustively fuel ts) = Some 0 ->
        returned_trace (test_rm_configurations_exhaustively fuel ts)
        = rm_permutations)
  /\ Z.of_nat (length rm_permutations) = 1680
  /\ NoDup rm_permutations
  /\ (forall p, In p rm_permutations <->
                Permutation (zrange 0 7) p /\ rm_phase_1 p).
Proof.
  assert (Hall : Z.of_nat (length all_permutations) <= LONG_MAX)
    by (rewrite length_all_permutations; unfold LONG_MAX; lia).
  assert (Hrm : Z.of_nat (length rm_permutations) <= LONG_MAX)
    by (rewrite length_rm_permutations; unfold LONG_MAX; lia).
  split; [|split; [|split; [|split; [|split; [|split; [|split; [|split;
    [|split]]]]]]]].
  - intros fuel ts s' Hrun.
    destruct (exhausted_search _ _ fuel ts s'
                all_priority_permutations_emits Hall Hrun) as [Hv Hg].
    split; [exact Hv|]. rewrite Hg, length_all_permutations. reflexivity.
  - intros fuel ts.
    apply (finished_search all_permutations all_priority_permutations);
      [exact all_priority_permutations_emits | exact Hall |].
    intros f s r s'. apply all_priority_permutations_returns_1.
  - exact length_all_permutations.
  - exact NoDup_all_permutations.
  - exact in_all_permutations.
  - intros fuel ts s' Hrun.
    destruct (exhausted_search _ _ fuel ts s'
                rm_priority_permutations_emits Hrm Hrun) as [Hv Hg].
    split; [exact Hv|]. rewrite Hg, length_rm_permutations. reflexivity.
  - intros fuel ts.
    apply (finished_search rm_permutations rm_priority_permutations);
      [exact rm_priority_permutations_emits | exact Hrm |].
    intros f s r s'. apply rm_priority_permutations_returns_1.
  - exact length_rm_permutations.
  - exact NoDup_rm_permutations.
  - exact in_rm_permutations.
Qed.

(** * Further properties of the code *)

(** ** The convenience functions *)

(** The loop of [gcd] keeps the greatest common divisor of [a] and [b], and
    [|b|] rounds are enough for it to end. *)
Lemma gcd_loop_spec fuel : forall a b,
  (Z.abs_nat b < fuel)%nat ->
  exists g, gcd_loop fuel a b = Some g /\ Z.abs g = Z.gcd a b /\
            (0 <= a -> 0 <= b -> 0 <= g).
Proof.
  induction fuel as [|fuel IH]; intros a b Hfuel; [lia|]. simpl.
  destruct (b =? 0) eqn:E.
  - apply Z.eqb_eq in E. subst b. exists a.
    rewrite Z.gcd_0_r. auto.
  - apply Z.eqb_neq in E.
    pose proof (Z.rem_bound_abs a b E) as Hrem.
    destruct (IH b (Z.rem a b)) as (g & Hg & Habs & Hsign); [lia|].
    exists g. split; [exact Hg|]. split.
    + rewrite Habs. rewrite (Z.gcd_comm a b).
      rewrite (Z.quot_rem a b E) at 2.
      rewrite Z.add_comm, Z.mul_comm. symmetry. apply Z.gcd_add_mult_diag_r.
    + intros Ha Hb. apply Hsign; [exact Hb|]. apply Z.rem_nonneg; lia.
Qed.



(** [lcm] without overflow. *)
Lemma lcm_spec (a b : Z) :
  0 < a -> 0 < b -> Z.lcm a b <= LONG_MAX -> lcm a b = Z.lcm a b.
Proof.
  intros Ha Hb Hfit. unfold lcm.
  assert (Hg : gcd a b = Z.gcd a b).
  { unfold gcd.
    destruct (gcd_loop_spec (S (Z.abs_nat b)) a b (Nat.lt_succ_diag_r _))
      as (g & -> & Habs & Hsign).
    specialize (Hsign ltac:(lia) ltac:(lia)). lia. }
  rewrite Hg.
  assert (Hpos : 0 < Z.gcd a b).
  { pose proof (Z.gcd_nonneg a b).
    assert (Z.gcd a b <> 0) by (intros H0; apply Z.gcd_eq_0_l in H0; lia). lia. }
  destruct (Z.gcd_divide_l a b) as [a' Ha'].
  destruct (Z.gcd_divide_r a b) as [b' Hb'].
  assert (Hq : Z.quot a (Z.gcd a b) * b = Z.lcm a b).
  { unfold Z.lcm. rewrite Z.quot_div_nonneg by lia.
    rewrite Ha' at 1. rewrite Z.div_mul by lia.
    rewrite Hb' at 2. rewrite Z.div_mul by lia.
    assert (0 < a') by nia. assert (0 < b') by nia.
    rewrite Z.abs_eq by nia. rewrite Hb' at 1. rewrite Ha' at 2. ring. }
  rewrite Hq. apply long_wrap_id. unfold in_long, LONG_MIN.
  pose proof (Z.lcm_nonneg a b). lia.
Qed.

Lemma lcm_pos a b : 0 < a -> 0 < b -> 0 < Z.lcm a b.
Proof.
  intros Ha Hb. pose proof (Z.lcm_nonneg a b).
  assert (Z.lcm a b <> 0) by (intros H0; apply Z.lcm_eq_0 in H0; lia). lia.
Qed.

(** X2: for positive arguments whose least common multiple fits a [long],
    [lcm] returns it: a positive multiple of both arguments that divides
    every common multiple. *)
Theorem lcm_correct (a b : Z) :
  0 < a -> 0 < b -> Z.lcm a b <= LONG_MAX ->
  lcm a b = Z.lcm a b /\ 0 < lcm a b /\ (a | lcm a b) /\ (b | lcm a b) /\
  forall m, (a | m) -> (b | m) -> (lcm a b | m).
Proof.
  intros Ha Hb Hfit. rewrite (lcm_spec a b Ha Hb Hfit).
  split; [reflexivity|]. split; [apply lcm_pos; assumption|].
  split; [apply Z.divide_lcm_l|]. split; [apply Z.divide_lcm_r|].
  intros m. apply Z.lcm_least.
Qed.

Lemma lcm_correct_witness : (220 | lcm 220 46) /\ (46 | lcm 220 46).
Proof.
  destruct (lcm_correct 220 46) as (_ & _ & H1 & H2 & _);
    [vm_compute; congruence .. |].
  split; assumption.
Defined.

(** X3: for positive periods whose least common multiple fits a [long],
    [hyper_period] returns it: a positive number that every period divides,
    and that divides every common multiple of the periods. *)
Theorem hyper_period_of_correct (ts : taskset_t) :
  (forall i, 0 < period (tasks ts i)) ->
  Z.lcm (Z.lcm (Z.lcm (Z.lcm 1 (period (tasks ts I0))) (period (tasks ts I1)))
               (period (tasks ts I2))) (period (tasks ts I3)) <= LONG_MAX ->
  0 < hyper_period_of ts
  /\ (forall i, (period (tasks ts i) | hyper_period_of ts))
  /\ (forall m, (forall i, (period (tasks ts i) | m)) -> (hyper_period_of ts | m)).
Proof.
  intros Hp Hfit.
  pose proof (Hp I0) as H0. pose proof (Hp I1) as H1.
  pose proof (Hp I2) as H2. pose proof (Hp I3) as H3.
  set (p0 := period (tasks ts I0)) in *. set (p1 := period (tasks ts I1)) in *.
  set (p2 := period (tasks ts I2)) in *. set (p3 := period (tasks ts I3)) in *.
  assert (L0 : 0 < Z.lcm 1 p0) by (apply lcm_pos; lia).
  assert (L1 : 0 < Z.lcm (Z.lcm 1 p0) p1) by (apply lcm_pos; lia).
  assert (L2 : 0 < Z.lcm (Z.lcm (Z.lcm 1 p0) p1) p2) by (apply lcm_pos; lia).
  assert (L3 : 0 < Z.lcm (Z.lcm (Z.lcm (Z.lcm 1 p0) p1) p2) p3)
    by (apply lcm_pos; lia).
  assert (F2 : Z.lcm (Z.lcm (Z.lcm 1 p0) p1) p2 <= LONG_MAX).
  { pose proof (Z.divide_pos_le _ _ L3 (Z.divide_lcm_l _ p3)). lia. }
  assert (F1 : Z.lcm (Z.lcm 1 p0) p1 <= LONG_MAX).
  { pose proof (Z.divide_pos_le _ _ L2 (Z.divide_lcm_l _ p2)). lia. }
  assert (F0 : Z.lcm 1 p0 <= LONG_MAX).
  { pose proof (Z.divide_pos_le _ _ L1 (Z.divide_lcm_l _ p1)). lia. }
  assert (Heq : hyper_period_of ts =
                Z.lcm (Z.lcm (Z.lcm (Z.lcm 1 p0) p1) p2) p3).
  { unfold hyper_period_of, all_tasks. cbn [fold_left].
    fold p0 p1 p2 p3.
    rewrite (lcm_spec 1 p0) by lia.
    rewrite (lcm_spec _ p1) by lia.
    rewrite (lcm_spec _ p2) by lia.
    rewrite (lcm_spec _ p3) by lia. reflexivity. }
  rewrite Heq. split; [exact L3|]. split.
  - intros i. destruct i; fold p0 p1 p2 p3.
    + eapply Z.divide_trans; [apply (Z.divide_lcm_r 1 p0)|].
      eapply Z.divide_trans; [apply Z.divide_lcm_l|].
      eapply Z.divide_trans; [apply Z.divide_lcm_l|]. apply Z.divide_lcm_l.
    + eapply Z.divide_trans; [apply (Z.divide_lcm_r (Z.lcm 1 p0) p1)|].
      eapply Z.divide_trans; [apply Z.divide_lcm_l|]. apply Z.divide_lcm_l.
    + eapply Z.divide_trans;
        [apply (Z.divide_lcm_r (Z.lcm (Z.lcm 1 p0) p1) p2)|].
      apply Z.divide_lcm_l.
    + apply Z.divide_lcm_r.
  - intros m Hm. pose proof (Hm I0). pose proof (Hm I1).
    pose proof (Hm I2). pose proof (Hm I3).
    repeat apply Z.lcm_least; try assumption. apply Z.divide_1_l.
Qed.

Lemma hyper_period_of_correct_witness :
  (period (tasks cex3 I3) | hyper_period_of cex3).
Proof.
  apply (hyper_period_of_correct cex3).
  - intros i. destruct i; reflexivity.
  - vm_compute. congruence.
Defined.

(** ** More on the choice of the task to execute *)

Section ScanEdges.

Variables (ts : taskset_t) (t : Z).

(** What the scan holds after the tasks of [seen], whatever the priorities:
    no task if none of them is active; and if all the active ones have a
    negative priority, the last active one. *)
Definition scan_none_ok (seen : list task_index) (acc : Z * option task_index)
    : Prop :=
  match snd acc with
  | None => fst acc < 0 /\ forall j, In j seen -> is_active (tasks ts j) = false
  | Some k => is_active (tasks ts k) = true
  end.

Lemma hp_scan_none_ok l : forall seen acc,
  scan_none_ok seen acc -> scan_none_ok (seen ++ l) (hp_scan ts t l acc).
Proof.
  induction l as [|i l IH]; intros seen acc Hok; simpl.
  - rewrite app_nil_r. exact Hok.
  - replace (seen ++ i :: l) with ((seen ++ [i]) ++ l)
      by (rewrite <- app_assoc; reflexivity).
    apply IH. unfold hp_scan_step, scan_none_ok in *.
    destruct acc as [hp res]. simpl in *.
    destruct (is_active (tasks ts i)) eqn:Hact.
    + destruct res as [k|].
      * destruct (_ || _); simpl; assumption.
      * destruct Hok as [Hneg _].
        replace (hp <? 0) with true by (symmetry; apply Z.ltb_lt; exact Hneg).
        rewrite orb_true_r. simpl. exact Hact.
    + destruct res as [k|]; simpl; [exact Hok|].
      destruct Hok as [Hneg Hnone]. split; [exact Hneg|].
      intros j Hj. apply in_app_iff in Hj. destruct Hj as [Hj|[<-|[]]]; auto.
Qed.

Definition scan_last_ok (seen : list task_index) (acc : Z * option task_index)
    : Prop :=
  fst acc < 0 /\
  match snd acc with
  | None => forall j, In j seen -> is_active (tasks ts j) = false
  | Some k =>
      In k seen /\ is_active (tasks ts k) = true /\
      forall j, In j seen -> is_active (tasks ts j) = true ->
                (index_nat j <= index_nat k)%nat
  end.

Hypothesis active_negative :
  forall j, is_active (tasks ts j) = true -> get_priority (tasks ts j) t < 0.

Lemma hp_scan_last_ok l : forall seen acc,
  (forall a b, In a seen -> In b l -> (index_nat a < index_nat b)%nat) ->
  StronglySorted (fun a b => (index_nat a < index_nat b)%nat) l ->
  scan_last_ok seen acc -> scan_last_ok (seen ++ l) (hp_scan ts t l acc).
Proof.
  induction l as [|i l IH]; intros seen acc Hbefore Hsorted Hok; simpl.
  - rewrite app_nil_r. exact Hok.
  - replace (seen ++ i :: l) with ((seen ++ [i]) ++ l)
      by (rewrite <- app_assoc; reflexivity).
    inversion Hsorted as [|? ? Hs Hall]; subst.
    apply IH; [| exact Hs |].
    + intros a b Ha Hb. apply in_app_iff in Ha. destruct Ha as [Ha|[<-|[]]].
      * apply Hbefore; [exact Ha | right; exact Hb].
      * rewrite Forall_forall in Hall. apply Hall, Hb.
    + unfold hp_scan_step, scan_last_ok in *.
      destruct acc as [hp res]. simpl in *. destruct Hok as [Hneg Hres].
      destruct (is_active (tasks ts i)) eqn:Hact.
      * replace (hp <? 0) with true by (symmetry; apply Z.ltb_lt; exact Hneg).
        rewrite orb_true_r. simpl. split; [apply active_negative, Hact|].
        split; [apply in_app_iff; right; left; reflexivity|].
        split; [exact Hact|]. intros j Hj _.
        apply in_app_iff in Hj. destruct Hj as [Hj|[<-|[]]]; [|lia].
        specialize (Hbefore j i Hj (or_introl eq_refl)). lia.
      * simpl. split; [exact Hneg|]. destruct res as [k|].
        -- destruct Hres as (Hk & Hka & Hlast).
           split; [apply in_app_iff; left; exact Hk|]. split; [exact Hka|].
           intros j Hj Hja. apply in_app_iff in Hj.
           destruct Hj as [Hj|[<-|[]]]; [auto | congruence].
        -- intros j Hj. apply in_app_iff in Hj.
           destruct Hj as [Hj|[<-|[]]]; auto.
Qed.

End ScanEdges.

(** When the scan finds no task, none is active. *)
Lemma get_highest_idle (ts : taskset_t) (t : Z) :
  get_highest_prio_active_task ts t = None ->
  forall j, is_active (tasks ts j) = false.
Proof.
  pose proof (hp_scan_none_ok ts t all_tasks [] (-1, None)) as H.
  unfold get_highest_prio_active_task. simpl app in H.
  unfold scan_none_ok in H.
  destruct (snd (hp_scan ts t all_tasks (-1, None))) as [k|] eqn:E;
    [discriminate|].
  intros _ j.
  apply H; [simpl; split; [lia | intros j' []] | apply in_all_tasks].
Qed.

(** X4: whatever the priorities, [get_highest_prio_active_task] returns
    [NULL] exactly when no task is active, and a task it returns is active. *)
Theorem get_highest_prio_active_task_none (ts : taskset_t) (t : Z) :
  (get_highest_prio_active_task ts t = None <->
   forall j, is_active (tasks ts j) = false)
  /\ (forall k, get_highest_prio_active_task ts t = Some k ->
                is_active (tasks ts k) = true).
Proof.
  split; [split|].
  - apply get_highest_idle.
  - intros Hnone.
    destruct (get_highest_prio_active_task ts t) as [k|] eqn:E; [|reflexivity].
    apply get_highest_is_active in E. rewrite Hnone in E. discriminate.
  - intros k. apply get_highest_is_active.
Qed.

(** X5: the sentinel -1 of the scan stands for "no task yet", so a
    negative priority does not hold its place: when every active task has a
    negative priority at [t], the task returned is the active task of highest
    index, whatever the priorities are. *)
Theorem get_highest_prio_active_task_negative (ts : taskset_t) (t : Z) :
  (forall j, is_active (tasks ts j) = true -> get_priority (tasks ts j) t < 0) ->
  forall k,
    get_highest_prio_active_task ts t = Some k <->
    is_active (tasks ts k) = true /\
    forall j, is_active (tasks ts j) = true -> (index_nat j <= index_nat k)%nat.
Proof.
  intros Hneg k.
  pose proof (hp_scan_last_ok ts t Hneg all_tasks [] (-1, None)) as H.
  unfold get_highest_prio_active_task. simpl app in H.
  unfold scan_last_ok in H.
  destruct H as [_ H].
  - intros a b [].
  - apply all_tasks_sorted.
  - simpl. split; [lia | intros j []].
  - destruct (snd (hp_scan ts t all_tasks (-1, None))) as [k'|].
    + destruct H as (_ & Hact & Hlast). split.
      * intros [= <-]. split; [exact Hact|].
        intros j Hj. apply Hlast; [apply in_all_tasks | exact Hj].
      * intros [Hk Hmax]. f_equal. apply index_nat_inj.
        pose proof (Hmax k' Hact).
        pose proof (Hlast k (in_all_tasks k) Hk). lia.
    + split; [discriminate|]. intros [Hk _].
      rewrite (H k (in_all_tasks k)) in Hk. discriminate.
Qed.

(** The witness of X5: two active tasks with negative priorities; the
    second is returned, though the first has the lower priority value. *)
Definition negative_priorities : taskset_t :=
  let T p := mk_task 1 5 p p 0 0 1 in
  mk_taskset (T (-7)) (T (-2)) (mk_task 1 5 0 0 0 0 0) (mk_task 1 5 0 0 0 0 0) 5.

Lemma get_highest_prio_active_task_negative_witness :
  get_highest_prio_active_task negative_priorities 1 = Some I1.
Proof.
  apply (get_highest_prio_active_task_negative negative_priorities 1).
  - intros j. destruct j; vm_compute; congruence.
  - split; [reflexivity|].
    intros j. destruct j; vm_compute; intros H;
      first [discriminate H | repeat constructor].
Defined.

(** ** More on the simulator *)

(** X6: [simulate_sas] changes nothing but the simulation state, and it
    does not read the simulation state it finds: run again on the task set it
    left, it returns the same task and leaves the same task set. *)
Theorem simulate_sas_repeatable fuel ts v ts' :
  simulate_sas fuel ts = Returned v ts' ->
  hyper_period ts' = hyper_period ts
  /\ (forall i,
        wcet (tasks ts' i) = wcet (tasks ts i) /\
        period (tasks ts' i) = period (tasks ts i) /\
        phase_1_prio (tasks ts' i) = phase_1_prio (tasks ts i) /\
        phase_2_prio (tasks ts' i) = phase_2_prio (tasks ts i) /\
        phase_change_point (tasks ts' i) = phase_change_point (tasks ts i))
  /\ simulate_sas fuel ts' = Returned v ts'.
Proof.
  intros Hrun. pose proof (simulate_sas_reset _ _ _ _ Hrun) as Hreset.
  split; [|split].
  - apply (f_equal hyper_period) in Hreset. exact Hreset.
  - intros i.
    pose proof (f_equal (fun x => tasks x i) Hreset) as Hi. simpl in Hi.
    rewrite !tasks_reset in Hi. unfold set_sim_state in Hi.
    injection Hi as H1 H2 H3 H4 H5. auto.
  - rewrite <- Hrun. apply simulate_sas_config. exact Hreset.
Qed.

Lemma simulate_sas_repeatable_witness :
  exists v ts',
    simulate_sas 100 small_schedulable = Returned v ts' /\
    simulate_sas 100 ts' = Returned v ts'.
Proof.
  eexists. eexists. split; [vm_compute; reflexivity|].
  eapply (simulate_sas_repeatable 100 small_schedulable).
  vm_compute. reflexivity.
Defined.

(** *** When jobs are released *)

Lemma last_release_time_sas_tick ts t i :
  last_release_time (tasks (sas_tick ts t) i) =
  if can_release (tasks ts i) t then t else last_release_time (tasks ts i).
Proof.
  unfold sas_tick. rewrite tasks_execute_highest.
  assert (H : last_release_time (tasks (release_ready ts t) i) =
              if can_release (tasks ts i) t then t
              else last_release_time (tasks ts i)).
  { rewrite tasks_release_ready. unfold release_if_ready.
    destruct (can_release (tasks ts i) t); reflexivity. }
  destruct (get_highest_prio_active_task _ _) as [k|]; [|exact H].
  destruct (index_eqb k i); exact H.
Qed.

Lemma can_release_sas_state ts n i :
  Z.of_nat n <= LONG_MAX ->
  can_release (tasks (sas_state ts n) i) (Z.of_nat n) = true <->
  last_release_time (tasks (sas_state ts n) i) < 0 \/
  period (tasks ts i)
  <= Z.of_nat n - last_release_time (tasks (sas_state ts n) i).
Proof.
  intros Hn. unfold can_release.
  pose proof (last_release_time_sas_state ts n i) as Hl.
  rewrite period_sas_state.
  destruct (last_release_time (tasks (sas_state ts n) i) <? 0) eqn:E.
  - apply Z.ltb_lt in E. intuition lia.
  - apply Z.ltb_ge in E.
    rewrite long_wrap_id by (unfold in_long, LONG_MIN; unfold LONG_MAX in *; lia).
    rewrite Z.leb_le. intuition lia.
Qed.

(** After round [n], the last release was at the last multiple of the
    period up to [n]. *)
Lemma last_release_time_multiple ts i n :
  0 < period (tasks ts i) -> Z.of_nat n <= LONG_MAX ->
  last_release_time (tasks (sas_state ts (S n)) i)
  = period (tasks ts i) * (Z.of_nat n / period (tasks ts i)).
Proof.
  intros Hp. set (p := period (tasks ts i)) in *.
  induction n as [|n IH]; intros Hn.
  - rewrite sas_state_succ, last_release_time_sas_tick.
    simpl sas_state. unfold can_release. rewrite tasks_reset. simpl.
    rewrite Z.div_0_l by lia. lia.
  - rewrite sas_state_succ, last_release_time_sas_tick.
    specialize (IH ltac:(lia)).
    pose proof (can_release_sas_state ts (S n) i Hn) as Hc. fold p in Hc.
    rewrite IH in *.
    pose proof (Z.div_mod (Z.of_nat n) p ltac:(lia)) as Hdm.
    pose proof (Z.mod_pos_bound (Z.of_nat n) p Hp) as Hmod.
    assert (Hq : 0 <= Z.of_nat n / p) by (apply Z.div_pos; lia).
    destruct (can_release (tasks (sas_state ts (S n)) i) (Z.of_nat (S n))) eqn:E.
    + destruct Hc as [Hc _]. specialize (Hc eq_refl).
      destruct Hc as [Hc|Hc]; [nia|].
      assert (Hdiv : Z.of_nat (S n) / p = Z.of_nat n / p + 1).
      { symmetry. apply (Z.div_unique _ _ _ 0); [lia|nia]. }
      rewrite Hdiv. nia.
    + assert (Hno : ~ (p * (Z.of_nat n / p) < 0 \/
                       p <= Z.of_nat (S n) - p * (Z.of_nat n / p))).
      { intros H. apply Hc in H. discriminate. }
      assert (Hdiv : Z.of_nat (S n) / p = Z.of_nat n / p).
      { symmetry. apply (Z.div_unique _ _ _ (Z.of_nat n mod p + 1)); lia. }
      rewrite Hdiv. reflexivity.
Qed.

(** The rounds at which a task is released. *)
Lemma release_rounds (ts : taskset_t) (i : task_index) (n : nat) :
  0 < period (tasks ts i) -> Z.of_nat n <= LONG_MAX ->
  can_release (tasks (sas_state ts n) i) (Z.of_nat n) = true <->
  Z.of_nat n mod period (tasks ts i) = 0.
Proof.
  intros Hp Hn. set (p := period (tasks ts i)) in *.
  rewrite can_release_sas_state by exact Hn. fold p.
  destruct n as [|m].
  - simpl sas_state. rewrite tasks_reset. simpl.
    rewrite Z.mod_0_l by lia. intuition lia.
  - rewrite (last_release_time_multiple ts i m Hp) by lia. fold p.
    pose proof (Z.div_mod (Z.of_nat m) p ltac:(lia)) as Hdm.
    pose proof (Z.mod_pos_bound (Z.of_nat m) p Hp) as Hmod.
    assert (Hq : 0 <= Z.of_nat m / p) by (apply Z.div_pos; lia).
    split.
    + intros [H|H]; [nia|].
      assert (Z.of_nat (S m) = p * (Z.of_nat m / p + 1)) by nia.
      rewrite H0, Z.mul_comm. apply Z.mod_mul. lia.
    + intros H. right.
      apply Z.mod_divide in H; [|lia]. destruct H as [c Hc].
      assert (Z.of_nat m / p < c) by nia. nia.
Qed.

(** X7: for a task with a positive period, and as long as the time counter
    has not overflowed, a new job is due at the deadline check of tick [n]
    exactly when [n] is a multiple of the period, and from tick 1 on the last
    release was at the last multiple of the period before [n]. *)
Theorem releases_at_multiples_of_period (ts : taskset_t) (i : task_index) (n : nat) :
  0 < period (tasks ts i) -> Z.of_nat n <= LONG_MAX ->
  (can_release (tasks (sas_state ts n) i) (Z.of_nat n) = true <->
   Z.of_nat n mod period (tasks ts i) = 0)
  /\ ((0 < n)%nat ->
      last_release_time (tasks (sas_state ts n) i)
      = period (tasks ts i) * ((Z.of_nat n - 1) / period (tasks ts i))).
Proof.
  intros Hp Hn. split; [apply release_rounds; assumption|].
  intros Hpos. destruct n as [|m]; [lia|].
  replace (Z.of_nat (S m) - 1) with (Z.of_nat m) by lia.
  apply last_release_time_multiple; [exact Hp | lia].
Qed.

Lemma releases_at_multiples_of_period_witness :
  can_release (tasks (sas_state cex3 22) I0) 22 = true.
Proof.
  apply (releases_at_multiples_of_period cex3 I0 22).
  - reflexivity.
  - vm_compute. congruence.
  - reflexivity.
Defined.

(** *** One unit of work for each tick *)

(** X8: the processor is never idle while a task is active, and it
    executes one unit of one task for each tick: [execute_highest] lowers the
    remaining execution of one active task by one when there is one, and
    changes nothing otherwise. *)
Theorem execute_highest_one_unit (ts : taskset_t) (t : Z) :
  (forall i, remaining_wcet (tasks ts i) <= INT_MAX) ->
  (exists k, is_active (tasks ts k) = true /\
             remaining_wcet (tasks (execute_highest ts t) k)
             = remaining_wcet (tasks ts k) - 1 /\
             forall j, j <> k -> tasks (execute_highest ts t) j = tasks ts j)
  \/ ((forall j, is_active (tasks ts j) = false) /\ execute_highest ts t = ts).
Proof.
  intros Hint.
  destruct (get_highest_prio_active_task ts t) as [k|] eqn:E.
  - left. exists k. pose proof (get_highest_is_active ts t k E) as Hact.
    split; [exact Hact|]. split.
    + rewrite tasks_execute_highest, E.
      unfold index_eqb. rewrite Nat.eqb_refl. simpl.
      apply int_wrap_id. unfold is_active in Hact. apply Z.ltb_lt in Hact.
      specialize (Hint k). unfold in_int, INT_MIN. lia.
    + intros j Hj. rewrite tasks_execute_highest, E.
      destruct (index_eqb k j) eqn:Heq; [|reflexivity].
      apply Nat.eqb_eq, index_nat_inj in Heq. congruence.
  - right. split; [apply (get_highest_idle ts t E)|].
    unfold execute_highest. rewrite E. reflexivity.
Qed.

Lemma execute_highest_one_unit_witness :
  exists k,
    remaining_wcet
      (tasks (execute_highest (release_ready (reset_simulation_state cex3) 0) 0) k)
    = remaining_wcet (tasks (release_ready (reset_simulation_state cex3) 0) k) - 1.
Proof.
  destruct (execute_highest_one_unit
              (release_ready (reset_simulation_state cex3) 0) 0)
    as [(k & _ & H & _)|[Hnone _]].
  - intros i. destruct i; vm_compute; congruence.
  - exists k. exact H.
  - specialize (Hnone I0). vm_compute in Hnone. discriminate Hnone.
Defined.

(** *** The verdict as a scan of the rounds *)

(** The first miss found at the rounds [n], [n + 1], ..., [count] of them. *)
Fixpoint scan_rounds (ts : taskset_t) (n count : nat) : option task_index :=
  match count with
  | O => None
  | S c =>
      match first_deadline_miss (sas_state ts n) (Z.of_nat n) with
      | Some k => Some k
      | None => scan_rounds ts (S n) c
      end
  end.

Lemma scan_rounds_none ts count : forall n,
  scan_rounds ts n count = None <->
  forall m, (n <= m < n + count)%nat ->
    first_deadline_miss (sas_state ts m) (Z.of_nat m) = None.
Proof.
  induction count as [|c IH]; intros n; simpl.
  - split; [intros _ m Hm; lia | reflexivity].
  - destruct (first_deadline_miss (sas_state ts n) (Z.of_nat n)) as [k|] eqn:E.
    + split; [discriminate|]. intros H. rewrite (H n) in E by lia. discriminate.
    + rewrite IH. split; intros H m Hm.
      * destruct (Nat.eq_dec m n) as [->|]; [exact E|]. apply H. lia.
      * apply H. lia.
Qed.

Lemma sas_loop_scan_rounds ts (Hhp : hyper_period ts < LONG_MAX) count :
  forall n fuel,
  Z.of_nat n + Z.of_nat count = hyper_period ts + 1 ->
  (count < fuel)%nat ->
  exists ts',
    sas_loop fuel (sas_state ts n) (Z.of_nat n)
    = Returned (scan_rounds ts n count) ts'.
Proof.
  induction count as [|c IH]; intros n fuel Hsum Hfuel;
    (destruct fuel as [|fuel]; [lia|]); simpl; rewrite hyper_period_sas_state.
  - replace (Z.of_nat n <=? hyper_period ts) with false
      by (symmetry; apply Z.leb_gt; lia).
    eexists. reflexivity.
  - replace (Z.of_nat n <=? hyper_period ts) with true
      by (symmetry; apply Z.leb_le; lia).
    destruct (first_deadline_miss (sas_state ts n) (Z.of_nat n)) as [k|].
    + eexists. reflexivity.
    + rewrite long_wrap_id
        by (unfold in_long, LONG_MIN; unfold LONG_MAX in *; lia).
      replace (Z.of_nat n + 1) with (Z.of_nat (S n)) by lia.
      rewrite <- sas_state_succ. apply IH; lia.
Qed.

(** Below [LONG_MAX], what [simulate_sas] returns is the first miss of the
    rounds 0 to [hyper_period]. *)
Lemma sas_returns_scan_rounds ts v :
  hyper_period ts < LONG_MAX ->
  sas_returns ts v <->
  v = scan_rounds ts 0 (Z.to_nat (hyper_period ts + 1)).
Proof.
  intros Hhp.
  assert (Hrun : exists ts', simulate_sas (sas_fuel ts) ts
            = Returned (scan_rounds ts 0 (Z.to_nat (hyper_period ts + 1))) ts').
  { unfold simulate_sas.
    destruct (Z_lt_le_dec (hyper_period ts) 0) as [Hneg|Hpos].
    - unfold sas_fuel. replace (Z.to_nat (hyper_period ts + 1)) with 0%nat by lia.
      simpl. replace (0 <=? hyper_period ts) with false
        by (symmetry; apply Z.leb_gt; lia).
      eexists. reflexivity.
    - apply (sas_loop_scan_rounds ts Hhp _ 0%nat); unfold sas_fuel; lia. }
  destruct Hrun as (ts0 & Hrun). split.
  - intros (fuel & ts' & H).
    destruct (simulate_sas_deterministic _ _ _ _ _ _ _ H Hrun) as [-> _].
    reflexivity.
  - intros ->. exists (sas_fuel ts), ts0. exact Hrun.
Qed.

(** *** A task that needs more than its period *)

Lemma static_sas_state ts n :
  reset_simulation_state (sas_state ts n) = reset_simulation_state ts.
Proof.
  induction n as [|n IH]; simpl; [reflexivity|].
  rewrite reset_sas_tick. exact IH.
Qed.

Lemma wcet_sas_state ts n i :
  wcet (tasks (sas_state ts n) i) = wcet (tasks ts i).
Proof.
  pose proof (f_equal (fun x => wcet (tasks x i)) (static_sas_state ts n)) as H.
  simpl in H. rewrite !tasks_reset in H. exact H.
Qed.

Lemma remaining_wcet_sas_tick ts t i :
  remaining_wcet (tasks ts i) <= INT_MAX -> wcet (tasks ts i) <= INT_MAX ->
  let r := remaining_wcet (tasks (sas_tick ts t) i) in
  if can_release (tasks ts i) t
  then wcet (tasks ts i) - 1 <= r <= wcet (tasks ts i)
  else remaining_wcet (tasks ts i) - 1 <= r <= remaining_wcet (tasks ts i).
Proof.
  intros Hr Hw. unfold sas_tick. cbv zeta. rewrite tasks_execute_highest.
  pose proof (tasks_release_ready ts t i) as Hrel.
  unfold release_if_ready in Hrel.
  destruct (get_highest_prio_active_task (release_ready ts t) t) as [k|] eqn:E.
  - destruct (index_eqb k i) eqn:Heq.
    + apply Nat.eqb_eq, index_nat_inj in Heq. subst k.
      apply get_highest_is_active in E. unfold is_active in E.
      apply Z.ltb_lt in E. simpl. rewrite Hrel in *.
      destruct (can_release (tasks ts i) t); simpl in *;
        rewrite int_wrap_id by (unfold in_int, INT_MIN; lia); lia.
    + rewrite Hrel. destruct (can_release (tasks ts i) t); simpl; lia.
  - rewrite Hrel. destruct (can_release (tasks ts i) t); simpl; lia.
Qed.

(** During its first period, a task has run for at most one unit a tick. *)
Lemma remaining_in_first_period ts i (n : nat) :
  0 < period (tasks ts i) -> wcet (tasks ts i) <= INT_MAX ->
  Z.of_nat n < period (tasks ts i) -> period (tasks ts i) <= LONG_MAX ->
  wcet (tasks ts i) - Z.of_nat (S n)
  <= remaining_wcet (tasks (sas_state ts (S n)) i) <= wcet (tasks ts i).
Proof.
  intros Hp Hw Hn Hlong. induction n as [|n IH].
  - rewrite sas_state_succ.
    pose proof (remaining_wcet_sas_tick (sas_state ts 0) (Z.of_nat 0) i) as H.
    cbv zeta in H. simpl sas_state in *. rewrite tasks_reset in H.
    unfold can_release in H. simpl in H. simpl Z.of_nat.
    specialize (H ltac:(unfold INT_MAX; lia) Hw). lia.
  - specialize (IH ltac:(lia)). rewrite sas_state_succ.
    pose proof (remaining_wcet_sas_tick (sas_state ts (S n)) (Z.of_nat (S n)) i)
      as H.
    cbv zeta in H. rewrite wcet_sas_state in H.
    specialize (H ltac:(lia) Hw).
    pose proof (release_rounds ts i (S n) Hp ltac:(lia)) as Hc.
    destruct (can_release (tasks (sas_state ts (S n)) i) (Z.of_nat (S n))) eqn:E.
    + destruct Hc as [Hc _]. specialize (Hc eq_refl).
      rewrite Z.mod_small in Hc by lia. lia.
    + lia.
Qed.

(** A task that needs more than its period misses a deadline, at the
    latest at the end of its first period. *)
Lemma overloaded_misses (ts : taskset_t) (i : task_index) :
  0 < period (tasks ts i) ->
  period (tasks ts i) < wcet (tasks ts i) <= INT_MAX ->
  period (tasks ts i) <= hyper_period ts < LONG_MAX ->
  exists k, sas_returns ts (Some k).
Proof.
  intros Hp Hw Hhp.
  set (p := period (tasks ts i)) in *.
  destruct (scan_rounds ts 0 (Z.to_nat (hyper_period ts + 1))) as [k|] eqn:E.
  - exists k. apply sas_returns_scan_rounds; [lia | symmetry; exact E].
  - exfalso. rewrite scan_rounds_none in E.
    specialize (E (Z.to_nat p) ltac:(lia)).
    rewrite first_deadline_miss_none in E. specialize (E i).
    assert (Hn : exists n, Z.to_nat p = S n /\ Z.of_nat n < p).
    { exists (Z.to_nat (p - 1)). lia. }
    destruct Hn as (n & Hn & Hlt). rewrite Hn in E.
    pose proof (remaining_in_first_period ts i n Hp ltac:(lia) Hlt ltac:(lia))
      as Hrem.
    pose proof (release_rounds ts i (S n) Hp ltac:(lia)) as Hc.
    unfold has_missed_deadline in E. apply andb_false_iff in E.
    destruct E as [E|E].
    + unfold is_active in E. apply Z.ltb_ge in E. lia.
    + rewrite (proj2 Hc) in E; [discriminate|].
      replace (Z.of_nat (S n)) with p by lia. apply Z.mod_same. lia.
Qed.

(** X9: a task set with a task whose execution time exceeds its period is
    never found schedulable, whatever the priorities and the phase change
    points, once the hyper-period is at least that period: [simulate_sas]
    returns a task, and never [NULL]. *)
Theorem overloaded_task_misses (ts : taskset_t) (i : task_index) :
  0 < period (tasks ts i) ->
  period (tasks ts i) < wcet (tasks ts i) <= INT_MAX ->
  period (tasks ts i) <= hyper_period ts < LONG_MAX ->
  (exists k, sas_returns ts (Some k)) /\ ~ sas_returns ts None.
Proof.
  intros Hp Hw Hhp.
  destruct (overloaded_misses ts i Hp Hw Hhp) as (k & f1 & ts1 & H1).
  split; [exists k, f1, ts1; exact H1|].
  intros (f2 & ts2 & H2).
  destruct (simulate_sas_deterministic _ _ _ _ _ _ _ H1 H2) as [Hv _].
  discriminate.
Qed.

Lemma overloaded_task_misses_witness :
  (exists k, sas_returns all_overloaded (Some k)) /\
  ~ sas_returns all_overloaded None.
Proof.
  apply (overloaded_task_misses all_overloaded I0);
    vm_compute; intuition congruence.
Defined.

(** ** What the searches leave behind *)

(** A loop returns in a state in which its body returns. *)
Lemma for_loop_returns_in {S R} (Q : R -> S -> Prop) (cond : Z -> S -> bool)
    (body : nat -> Z -> S -> exec S R) :
  (forall fuel i s r s', body fuel i s = Ret r s' -> Q r s') ->
  forall fuel i s r s', for_loop fuel i cond body s = Ret r s' -> Q r s'.
Proof.
  intros Hbody fuel. induction fuel as [|fuel IH]; intros i s r s'; simpl;
    [discriminate|].
  destruct (cond i s); [|discriminate].
  destruct (body fuel i s) as [s1|r1 s1| |] eqn:Hb; try discriminate.
  - apply IH.
  - intros [= <- <-]. apply (Hbody _ _ _ _ _ Hb).
Qed.

Lemma same_static_fields ts ts' :
  same_static ts ts' ->
  hyper_period ts = hyper_period ts' /\
  forall i,
    wcet (tasks ts i) = wcet (tasks ts' i) /\
    period (tasks ts i) = period (tasks ts' i) /\
    phase_1_prio (tasks ts i) = phase_1_prio (tasks ts' i) /\
    phase_2_prio (tasks ts i) = phase_2_prio (tasks ts' i).
Proof.
  intros H. split; [apply same_static_hyper_period, H|]. intros i.
  pose proof (f_equal (fun x => wcet (tasks x i)) H) as Hw.
  split; [destruct i; exact Hw|].
  split; [apply same_static_period, H|].
  split; [apply (same_static_prio_of _ _ Phase1 i H)
         |apply (same_static_prio_of _ _ Phase2 i H)].
Qed.

Lemma pcps_reset_eq ts ts' :
  reset_simulation_state ts = reset_simulation_state ts' -> pcps ts = pcps ts'.
Proof.
  intros H. unfold pcps.
  pose proof (f_equal (fun x => phase_change_point (tasks x I0)) H) as H0.
  pose proof (f_equal (fun x => phase_change_point (tasks x I1)) H) as H1.
  pose proof (f_equal (fun x => phase_change_point (tasks x I2)) H) as H2.
  pose proof (f_equal (fun x => phase_change_point (tasks x I3)) H) as H3.
  simpl in H0, H1, H2, H3. congruence.
Qed.

(** The state in which the loops of the search return: the last simulation
    on record is that of the task set left, and it found no miss. *)
Definition found (r : Z) (s : search sim_record) : Prop :=
  r = 1 /\ sas_returns (cur s) None /\
  exists es, visited s = es ++ [(pcps (cur s), None)].

Lemma all_phase_change_points_found fuel s r s' :
  all_phase_change_points fuel s = Ret r s' -> found r s'.
Proof.
  unfold all_phase_change_points, pcp_loop.
  apply (for_loop_returns_in found). intros f0 x0 s0 r0 s0'.
  apply (for_loop_returns_in found). intros f1 x1 s1 r1 s1'.
  apply (for_loop_returns_in found). intros f2 x2 s2 r2 s2'.
  apply (for_loop_returns_in found). intros f3 x3 s3 r3 s3'.
  unfold try_combination.
  destruct (simulate_sas f3 _) as [[k|] ts'| |] eqn:Hrun; try discriminate.
  intros [= <- <-]. pose proof (simulate_sas_reset _ _ _ _ Hrun) as Hreset.
  split; [reflexivity|]. split.
  - exists f3, ts'. rewrite <- Hrun. apply simulate_sas_config. exact Hreset.
  - eexists. cbn [cur visited with_cur count_generated].
    rewrite (pcps_reset_eq _ _ Hreset). reflexivity.
Qed.

(** X10: when [test_all_phase_change_points] returns 1, the task set it
    leaves holds a schedulable configuration: [simulate_sas] returns [NULL] on
    it, its phase change points are between 0 and the periods, and nothing
    else has changed but the simulation state. *)
Theorem test_all_phase_change_points_leaves_witness
    (ts : taskset_t) (fuel : nat) (tr : list sim_record) (ts' : taskset_t) :
  (forall i, period (tasks ts i) < INT_MAX) ->
  test_all_phase_change_points fuel ts = Returned (1, tr) ts' ->
  sas_returns ts' None
  /\ (forall i, 0 <= phase_change_point (tasks ts' i) <= period (tasks ts i))
  /\ hyper_period ts' = hyper_period ts
  /\ (forall i,
        wcet (tasks ts' i) = wcet (tasks ts i) /\
        period (tasks ts' i) = period (tasks ts i) /\
        phase_1_prio (tasks ts' i) = phase_1_prio (tasks ts i) /\
        phase_2_prio (tasks ts' i) = phase_2_prio (tasks ts i)).
Proof.
  intros Hp Hrun.
  pose proof (test_all_phase_change_points_outcome ts fuel Hp) as Hout.
  pose proof (test_all_phase_change_points_static _ _ _ _ Hrun) as Hst.
  rewrite Hrun in Hout.
  destruct Hout as [(_ & es & e & rest & Htr & Hkeys & _)|([=] & _)].
  unfold test_all_phase_change_points in Hrun.
  destruct (all_phase_change_points fuel (mk_search ts 0 [])) as [s|r s| |] eqn:E;
    try discriminate.
  { destruct (_ =? _); discriminate. }
  injection Hrun as -> <- <-.
  destruct (all_phase_change_points_found _ _ _ _ E) as (_ & Hok & es' & Hlast).
  split; [exact Hok|].
  rewrite Htr in Hlast. apply app_inj_tail in Hlast. destruct Hlast as [_ ->].
  simpl in Hkeys.
  assert (Hin : In (pcps (cur s)) (pcp_space ts)).
  { rewrite Hkeys. apply in_app_iff. right. left. reflexivity. }
  unfold pcps in Hin. apply in_pcp_space in Hin.
  split; [intros i; destruct i; tauto|].
  apply same_static_fields. exact Hst.
Qed.

Lemma test_all_phase_change_points_leaves_witness_witness :
  exists ts', sas_returns ts' None.
Proof.
  eexists.
  eapply (test_all_phase_change_points_leaves_witness small_schedulable 100).
  - intros i. destruct i; vm_compute; reflexivity.
  - vm_compute. reflexivity.
Defined.

Lemma for_loop_never_aborts {S R} (cond : Z -> S -> bool)
    (body : nat -> Z -> S -> exec S R) :
  (forall fuel i s, body fuel i s <> Abort) ->
  forall fuel i s, for_loop fuel i cond body s <> Abort.
Proof.
  intros Hbody fuel. induction fuel as [|fuel IH]; intros i s; simpl;
    [discriminate|].
  destruct (cond i s); [|discriminate].
  destruct (body fuel i s) as [s1|r1 s1| |] eqn:Hb; try discriminate.
  - apply IH.
  - exfalso. exact (Hbody _ _ _ Hb).
Qed.

Lemma all_phase_change_points_never_aborts fuel s :
  all_phase_change_points fuel s <> Abort.
Proof.
  unfold all_phase_change_points, pcp_loop.
  apply for_loop_never_aborts. intros f0 x0 s0.
  apply for_loop_never_aborts. intros f1 x1 s1.
  apply for_loop_never_aborts. intros f2 x2 s2.
  apply for_loop_never_aborts. intros f3 x3 s3.
  unfold try_combination.
  pose proof (sas_loop_never_aborts f3 (reset_simulation_state
    (cur (with_cur s3 (set_pcp (cur s3) I3 x3)))) 0) as H.
  unfold simulate_sas.
  destruct (sas_loop f3 _ 0) as [[k|] ts'| |]; try discriminate.
  exfalso. apply H. reflexivity.
Qed.

(** The product of the [period + 1], as the assertion has it. *)
Definition combinations (ts : taskset_t) : Z :=
  (period (tasks ts I0) + 1) * (period (tasks ts I1) + 1) *
  (period (tasks ts I2) + 1) * (period (tasks ts I3) + 1).

Lemma total_combinations_fits ts :
  (forall i, 0 <= period (tasks ts i)) ->
  combinations ts <= INT_MAX ->
  total_combinations ts = combinations ts.
Proof.
  intros Hp0 Hfit. unfold combinations in *.
  pose proof (Hp0 I0). pose proof (Hp0 I1). pose proof (Hp0 I2). pose proof (Hp0 I3).
  simpl in *.
  set (a := period (tasks0 ts) + 1) in *. set (b := period (tasks1 ts) + 1) in *.
  set (c := period (tasks2 ts) + 1) in *. set (d := period (tasks3 ts) + 1) in *.
  assert (Hab : 0 <= a * b <= INT_MAX) by (unfold INT_MAX in *; nia).
  assert (Habc : 0 <= a * b * c <= INT_MAX) by (unfold INT_MAX in *; nia).
  assert (Ha : a <= INT_MAX) by (unfold INT_MAX in *; nia).
  assert (Hb : b <= INT_MAX) by (unfold INT_MAX in *; nia).
  assert (Hc : c <= INT_MAX) by (unfold INT_MAX in *; nia).
  assert (Hd : d <= INT_MAX) by (unfold INT_MAX in *; nia).
  unfold total_combinations. fold a b c d.
  rewrite (int_wrap_id a), (int_wrap_id b), (int_wrap_id c), (int_wrap_id d)
    by (unfold in_int, INT_MIN; lia).
  rewrite (int_wrap_id (a * b)) by (unfold in_int, INT_MIN; lia).
  rewrite (int_wrap_id (a * b * c)) by (unfold in_int, INT_MIN; lia).
  apply int_wrap_id. unfold in_int, INT_MIN; lia.
Qed.

(** The assertion fails only when the product overflows. *)
Lemma test_all_phase_change_points_aborted ts fuel :
  (forall i, 0 <= period (tasks ts i)) ->
  test_all_phase_change_points fuel ts = Aborted ->
  INT_MAX < combinations ts.
Proof.
  intros Hp0 Hrun.
  assert (Hp : forall i, period (tasks ts i) < INT_MAX).
  { unfold test_all_phase_change_points in Hrun.
    destruct (all_phase_change_points fuel (mk_search ts 0 [])) as [s|r s| |] eqn:E;
      try discriminate.
    - apply (all_phase_change_points_exhausted ts fuel s Hp0 E).
    - exfalso. revert E. apply all_phase_change_points_never_aborts. }
  pose proof (test_all_phase_change_points_outcome ts fuel Hp) as Hout.
  rewrite Hrun in Hout. destruct Hout as (tr & Hkeys & _ & Hne).
  apply Z.lt_nge. intros Hfit. apply Hne.
  rewrite (total_combinations_fits ts Hp0 Hfit).
  pose proof (length_pcp_space ts Hp0) as Hlen.
  rewrite <- Hkeys, length_map in Hlen. fold (combinations ts) in Hlen.
  rewrite Hlen. apply long_wrap_id.
  assert (0 <= combinations ts) by (rewrite <- Hlen; lia).
  unfold in_long, LONG_MIN, LONG_MAX. unfold INT_MAX in *. lia.
Qed.

(** X11: when the periods are not negative and the product of the
    [period + 1], which the code takes in [int], is at most [INT_MAX], the
    assertion of [test_all_phase_change_points] cannot fail: the call never
    aborts, whatever the fuel. *)
Theorem test_all_phase_change_points_never_aborts (ts : taskset_t) (fuel : nat) :
  (forall i, 0 <= period (tasks ts i)) ->
  (period (tasks ts I0) + 1) * (period (tasks ts I1) + 1) *
  (period (tasks ts I2) + 1) * (period (tasks ts I3) + 1) <= INT_MAX ->
  test_all_phase_change_points fuel ts <> Aborted.
Proof.
  intros Hp0 Hfit Hrun.
  apply (test_all_phase_change_points_aborted ts fuel Hp0) in Hrun.
  unfold combinations in Hrun. lia.
Qed.

Lemma test_all_phase_change_points_never_aborts_witness :
  test_all_phase_change_points 100 small_schedulable <> Aborted.
Proof.
  apply (test_all_phase_change_points_never_aborts small_schedulable 100).
  - intros i. destruct i; vm_compute; discriminate.
  - vm_compute. discriminate.
Defined.

(** *** FDMS *)

Lemma fdms_inv_reset ts0 ts ts1 :
  fdms_inv ts0 ts ->
  reset_simulation_state ts1 = reset_simulation_state ts ->
  fdms_inv ts0 ts1.
Proof.
  intros [Hst Hr] Hreset. split.
  - apply same_static_trans with ts; [apply same_static_reset, Hreset|exact Hst].
  - intros i. apply (f_equal (fun x => phase_change_point (tasks x i))) in Hreset.
    rewrite !tasks_reset in Hreset. simpl in Hreset. rewrite Hreset. apply Hr.
Qed.

(** What the loop of FDMS returns: the task set of its last simulation. *)
Definition fdms_result (r : Z) (sims : list pcp_config) (ts' : taskset_t)
    : Prop :=
  (exists es, sims = es ++ [pcps ts']) /\
  (r = 1 /\ sas_returns ts' None \/
   r = 0 /\ exists k, sas_returns ts' (Some k) /\
                      phase_change_point (tasks ts' k) = 0).

Lemma fdms_loop_result ts0 :
  (forall i, period (tasks ts0 i) <= INT_MAX) ->
  forall fuel ts sims r sims' ts',
  fdms_inv ts0 ts ->
  fdms_loop fuel ts sims = Returned (r, sims') ts' ->
  fdms_inv ts0 ts' /\ fdms_result r sims' ts'.
Proof.
  intros Hint fuel.
  induction fuel as [|fuel IH]; intros ts sims r sims' ts' Hinv; simpl;
    [discriminate|].
  destruct (simulate_sas fuel ts) as [[k|] ts1| |] eqn:Hrun; try discriminate.
  - pose proof (simulate_sas_reset _ _ _ _ Hrun) as Hreset.
    destruct (0 <? phase_change_point (tasks ts1 k)) eqn:E.
    + apply Z.ltb_lt in E.
      destruct (fdms_inv_step ts0 Hint fuel ts k ts1 Hinv Hrun E) as (Hinv2 & _).
      apply IH. exact Hinv2.
    + apply Z.ltb_ge in E. intros [= <- <- <-].
      pose proof (fdms_inv_reset _ _ _ Hinv Hreset) as Hinv1.
      split; [exact Hinv1|]. split.
      * exists sims. rewrite (pcps_reset_eq _ _ Hreset). reflexivity.
      * right. split; [reflexivity|]. exists k. split.
        -- exists fuel, ts1. rewrite <- Hrun. apply simulate_sas_config, Hreset.
        -- destruct Hinv1 as [_ Hr]. specialize (Hr k). lia.
  - pose proof (simulate_sas_reset _ _ _ _ Hrun) as Hreset.
    intros [= <- <- <-].
    split; [exact (fdms_inv_reset _ _ _ Hinv Hreset)|]. split.
    + exists sims. rewrite (pcps_reset_eq _ _ Hreset). reflexivity.
    + left. split; [reflexivity|].
      exists fuel, ts1. rewrite <- Hrun. apply simulate_sas_config, Hreset.
Qed.

(** X12: the task set that [test_fdms_phase_change_points] leaves holds the
    configuration of its last simulation, with phase change points between 0
    and the periods. When the result is 1 that configuration is schedulable;
    when it is 0, [simulate_sas] returns on it a task whose phase change
    point is 0. Nothing else has changed but the simulation state. *)
Theorem test_fdms_phase_change_points_result
    (ts : taskset_t) (fuel : nat) (r : Z) (sims : list pcp_config)
    (ts' : taskset_t) :
  (forall i, 0 <= period (tasks ts i) <= INT_MAX) ->
  test_fdms_phase_change_points fuel ts = Returned (r, sims) ts' ->
  (r = 1 /\ sas_returns ts' None \/
   r = 0 /\ exists k, sas_returns ts' (Some k) /\
                      phase_change_point (tasks ts' k) = 0)
  /\ (exists es, sims = es ++ [pcps ts'])
  /\ (forall i, 0 <= phase_change_point (tasks ts' i) <= period (tasks ts i))
  /\ hyper_period ts' = hyper_period ts
  /\ (forall i,
        wcet (tasks ts' i) = wcet (tasks ts i) /\
        period (tasks ts' i) = period (tasks ts i) /\
        phase_1_prio (tasks ts' i) = phase_1_prio (tasks ts i) /\
        phase_2_prio (tasks ts' i) = phase_2_prio (tasks ts i)).
Proof.
  intros Hp Hrun. unfold test_fdms_phase_change_points in Hrun.
  apply (fdms_loop_result ts) in Hrun.
  - destruct Hrun as ([Hst Hr] & Hlast & Hres).
    split; [exact Hres|]. split; [exact Hlast|]. split; [exact Hr|].
    apply same_static_fields. exact Hst.
  - intros i. apply Hp.
  - apply fdms_inv_start. intros i. apply Hp.
Qed.

Lemma test_fdms_phase_change_points_result_witness :
  exists ts' k, sas_returns ts' (Some k) /\
                phase_change_point (tasks ts' k) = 0.
Proof.
  assert (Hrun : exists sims ts',
            test_fdms_phase_change_points 100 small_overloaded =
            Returned (0, sims) ts')
    by (eexists; eexists; vm_compute; reflexivity).
  destruct Hrun as (sims & ts' & Hrun). exists ts'.
  destruct (test_fdms_phase_change_points_result small_overloaded 100 0 sims ts')
    as ([[H _]|[_ H]] & _).
  - intros i. destruct i; vm_compute; split; discriminate.
  - exact Hrun.
  - discriminate H.
  - exact H.
Defined.

(** ** The verdicts of the exhaustive searches *)

(** The part of a task set that no search changes. *)
Definition same_base (ts ts0 : taskset_t) : Prop :=
  hyper_period ts = hyper_period ts0 /\
  forall i, wcet (tasks ts i) = wcet (tasks ts0 i) /\
            period (tasks ts i) = period (tasks ts0 i).

Definition pcps_in_range (ts ts0 : taskset_t) : Prop :=
  forall i, 0 <= phase_change_point (tasks ts i) <= period (tasks ts0 i).

Lemma same_static_base ts ts' : same_static ts ts' -> same_base ts ts'.
Proof.
  intros H. destruct (same_static_fields _ _ H) as [Hhp Hf].
  split; [exact Hhp|]. intros i. destruct (Hf i) as (Hw & Hp & _). auto.
Qed.

Lemma same_base_trans ts1 ts2 ts3 :
  same_base ts1 ts2 -> same_base ts2 ts3 -> same_base ts1 ts3.
Proof.
  intros [H1 F1] [H2 F2]. split; [congruence|]. intros i.
  destruct (F1 i), (F2 i). split; congruence.
Qed.

Lemma same_base_set_prio ts sl i v : same_base (set_prio ts sl i v) ts.
Proof.
  split; [destruct sl, i; reflexivity|]. intros j.
  destruct sl, i, j; split; reflexivity.
Qed.

Lemma same_static_of_base ts ts2 ts0 :
  same_base ts ts0 -> same_base ts2 ts0 -> prios ts = prios ts2 ->
  same_static ts ts2.
Proof.
  intros [Hhp Hf] [Hhp2 Hf2] Hp.
  destruct (Hf I0) as [W0 P0], (Hf I1) as [W1 P1], (Hf I2) as [W2 P2],
           (Hf I3) as [W3 P3].
  destruct (Hf2 I0) as [V0 Q0], (Hf2 I1) as [V1 Q1], (Hf2 I2) as [V2 Q2],
           (Hf2 I3) as [V3 Q3].
  destruct ts as [[] [] [] [] ?], ts2 as [[] [] [] [] ?].
  unfold prios, all_tasks in Hp. simpl in *.
  injection Hp as ? ? ? ? ? ? ? ?.
  unfold same_static, clear_pcps, reset_simulation_state. simpl.
  unfold set_phase_change_point, set_sim_state. simpl. congruence.
Qed.

Lemma pcp_space_base ts ts0 :
  same_base ts ts0 -> pcp_space ts = pcp_space ts0.
Proof.
  intros [_ Hf]. unfold pcp_space.
  rewrite (proj2 (Hf I0)), (proj2 (Hf I1)), (proj2 (Hf I2)), (proj2 (Hf I3)).
  reflexivity.
Qed.

Lemma all_pcp_fuel_base ts ts0 :
  same_base ts ts0 -> all_pcp_fuel ts = all_pcp_fuel ts0.
Proof.
  intros [Hhp Hf]. unfold all_pcp_fuel, sas_fuel.
  rewrite Hhp, (proj2 (Hf I0)), (proj2 (Hf I1)), (proj2 (Hf I2)), (proj2 (Hf I3)).
  reflexivity.
Qed.

Lemma combinations_base ts ts0 :
  same_base ts ts0 -> combinations ts = combinations ts0.
Proof.
  intros [_ Hf]. unfold combinations.
  rewrite (proj2 (Hf I0)), (proj2 (Hf I1)), (proj2 (Hf I2)), (proj2 (Hf I3)).
  reflexivity.
Qed.

Section SearchVerdicts.

Variable ts0 : taskset_t.
Hypothesis periods_range : forall i, 0 <= period (tasks ts0 i) < INT_MAX.

(** Every configuration with the priorities [p] misses a deadline. *)
Definition all_miss (p : list Z) : Prop :=
  forall ts, same_base ts ts0 -> prios ts = p -> pcps_in_range ts ts0 ->
    exists k, sas_returns ts (Some k).

(** Some configuration with the priorities [p] is schedulable. *)
Definition has_witness (p : list Z) : Prop :=
  exists ts, same_base ts ts0 /\ prios ts = p /\ pcps_in_range ts ts0 /\
             sas_returns ts None.

Definition verdict_inv (assigned : list (prio_slot * task_index * Z))
    (s : search (list Z)) : Prop :=
  perm_inv assigned s /\ same_base (cur s) ts0.

(** The search goes on after the permutations on which all the phase change
    points miss and returns 1 at one that has a schedulable configuration;
    an assertion fails only when the product of the [period + 1] overflows,
    and fuel [F] is enough when the hyper-period is below [LONG_MAX]. *)
Definition verdict_emits (F : nat)
    (assigned : list (prio_slot * task_index * Z)) (L : list (list Z))
    (c : nat -> search (list Z) -> exec (search (list Z)) Z) : Prop :=
  emits visited (fun p => p) all_miss has_witness (fun r => r = 1)
        (INT_MAX < combinations ts0) (hyper_period ts0 < LONG_MAX)
        F (verdict_inv assigned) (verdict_inv assigned) L c.

Lemma try_permutation_verdict assigned p :
  (forall s, verdict_inv assigned s -> prios (cur s) = p) ->
  verdict_emits (all_pcp_fuel ts0) assigned [p] try_permutation.
Proof.
  intros Hp fuel s Hinv. pose proof (Hp s Hinv) as Hprios.
  destruct Hinv as [[Hslots Hgen] Hbase].
  assert (Hper : forall i, period (tasks (cur s) i) < INT_MAX).
  { intros i. rewrite (proj2 (proj2 Hbase i)). apply periods_range. }
  assert (Hper0 : forall i, 0 <= period (tasks (cur s) i)).
  { intros i. rewrite (proj2 (proj2 Hbase i)). apply periods_range. }
  pose proof (test_all_phase_change_points_outcome (cur s) fuel Hper) as Hout.
  pose proof (test_all_phase_change_points_aborted (cur s) fuel Hper0) as Hab.
  unfold try_permutation. cbn [cur count_generated].
  destruct (test_all_phase_change_points fuel (cur s))
    as [[r tr] ts'| |] eqn:Hrun; simpl.
  - assert (Hlog : visited s ++ [prios (cur s)] = visited s ++ [p])
      by (rewrite Hprios; reflexivity).
    pose proof (test_all_phase_change_points_static _ _ _ _ Hrun) as Hst.
    destruct (r =? 0) eqn:Er; simpl.
    + apply Z.eqb_eq in Er. subst r.
      destruct Hout as [[[=] _]|(_ & Hkeys & Hmiss & _)].
      split.
      * split; [split|].
        -- eapply Forall_impl; [|exact Hslots]. intros a Ha. simpl in *.
           rewrite (same_static_prio_of _ _ _ _ Hst). exact Ha.
        -- cbn [generated visited with_cur count_generated].
           rewrite Hgen, long_wrap_succ, length_app. simpl. f_equal. lia.
        -- simpl. apply same_base_trans with (cur s);
             [apply same_static_base, Hst | exact Hbase].
      * exists [p]. split; [exact Hlog|]. split; [reflexivity|].
        constructor; [|constructor].
        intros ts Hb Hpr Hrange.
        assert (Hss : same_static ts (cur s)).
        { apply same_static_of_base with ts0; [exact Hb|exact Hbase|congruence]. }
        assert (Hin : In (pcps ts) (pcp_space (cur s))).
        { rewrite (pcp_space_base _ _ Hbase). unfold pcps. apply in_pcp_space.
          pose proof (Hrange I0). pose proof (Hrange I1).
          pose proof (Hrange I2). pose proof (Hrange I3). simpl in *. tauto. }
        rewrite <- Hkeys in Hin. apply in_map_iff in Hin.
        destruct Hin as (e & He & Hine).
        rewrite Forall_forall in Hmiss.
        destruct (Hmiss e Hine) as (Hne & f & ts1 & Hsim).
        destruct (snd e) as [k|] eqn:Ek; [|contradiction].
        exists k, f, ts1.
        rewrite (simulate_sas_set_pcps f ts (cur s) Hss), <- He. exact Hsim.
    + apply Z.eqb_neq in Er.
      destruct Hout as [(_ & es & e & rest & _ & Hkeys & _ & Hnone & Hrec)
                       |(Hr & _)]; [|contradiction].
      split; [reflexivity|]. exists [], p, [].
      split; [exact Hlog|]. split; [reflexivity|]. split; [constructor|].
      exists (set_pcps (cur s) (fst e)). split; [|split; [|split]].
      * apply same_base_trans with (cur s); [|exact Hbase].
        apply same_static_base, same_static_set_pcps.
      * rewrite (same_static_prios _ _ (same_static_set_pcps (cur s) (fst e))).
        exact Hprios.
      * assert (Hin : In (fst e) (pcp_space ts0)).
        { rewrite <- (pcp_space_base _ _ Hbase), Hkeys.
          apply in_app_iff. right. left. reflexivity. }
        intros i. rewrite <- pcp_of_pcps, pcps_set_pcps.
        destruct (fst e) as [[[a b] c] d]. apply in_pcp_space in Hin.
        destruct i; simpl; tauto.
      * destruct Hrec as (f & ts1 & Hsim). rewrite Hnone in Hsim.
        exists f, ts1. exact Hsim.
  - rewrite <- (combinations_base _ _ Hbase). apply Hab. reflexivity.
  - intros Hhp. rewrite <- (all_pcp_fuel_base _ _ Hbase). apply Hout.
    rewrite (proj1 Hbase). exact Hhp.
Qed.

(** One loop of a nest. *)
Lemma prio_loop_verdict F assigned start used sl i L inner :
  ~ In (sl, i) (map fst assigned) ->
  0 <= start ->
  (forall x, start <= x <= 7 -> ~ In x used ->
     verdict_emits F ((sl, i, x) :: assigned) (L x) (fun fuel => inner fuel x)) ->
  verdict_emits (F + 8 + 1) assigned (choose start used L)
                (fun fuel => prio_loop fuel start used sl i inner).
Proof.
  intros Hfresh Hstart Hinner. unfold verdict_emits, prio_loop, choose.
  eapply emits_weaken with (F := (F + Z.to_nat (7 + 1 - start) + 1)%nat);
    [lia | intros s H; exact H | intros s H; exact H |].
  apply for_loop_emits with (hi := 7).
  - unfold INT_MAX. lia.
  - intros x s _. apply ltb_8_leb_7.
  - unfold INT_MIN. lia.
  - reflexivity.
  - intros x Hx. destruct (existsb (Z.eqb x) used) eqn:E.
    + apply emits_continue.
    + assert (Hused : ~ In x used).
      { intros Hin. assert (existsb (Z.eqb x) used = true); [|congruence].
        apply existsb_exists. exists x. split; [exact Hin | apply Z.eqb_refl]. }
      apply (emits_after visited (fun p => p) _ _ _ _ _ _
               (verdict_inv ((sl, i, x) :: assigned))
               _ _ _ (fun fuel => inner fuel x)
               (fun s => with_cur s (set_prio (cur s) sl i x))).
      * reflexivity.
      * intros s [[Hslots Hgen] Hbase]. split; [split; [|exact Hgen]|].
        -- constructor.
           ++ simpl. rewrite prio_of_set_prio.
              replace (slot_eqb (sl, i) (sl, i)) with true; [reflexivity|].
              destruct sl; unfold slot_eqb, index_eqb; simpl;
                rewrite Nat.eqb_refl; reflexivity.
           ++ rewrite Forall_forall in *. intros [[sl' j] v] Hj. simpl.
              rewrite prio_of_set_prio.
              destruct (slot_eqb (sl, i) (sl', j)) eqn:Heq.
              ** apply slot_eqb_eq in Heq. exfalso. apply Hfresh.
                 apply in_map_iff. exists (sl', j, v).
                 split; [symmetry; exact Heq|exact Hj].
              ** apply (Hslots (sl', j, v) Hj).
        -- simpl. apply same_base_trans with (cur s);
             [apply same_base_set_prio | exact Hbase].
      * eapply emits_weaken; [apply le_n | | |apply (Hinner x Hx Hused)].
        -- auto.
        -- intros s [[Hslots Hgen] Hbase]. split; [split; [|exact Hgen]|exact Hbase].
           inversion Hslots; assumption.
Qed.

(** Fuel that is enough for a search over the permutations. *)
Definition search_fuel : nat :=
  (all_pcp_fuel ts0 + 8 + 1 + 8 + 1 + 8 + 1 + 8 + 1
                    + 8 + 1 + 8 + 1 + 8 + 1 + 8 + 1)%nat.

Ltac read_all_prios :=
  intros s [[Hslots _] _];
  repeat match goal with
         | H : Forall _ (_ :: _) |- _ =>
             apply Forall_cons_iff in H; destruct H as [? H]
         end;
  unfold prios, all_tasks; simpl in *; congruence.

Ltac unassigned_slot :=
  simpl; intuition discriminate.

Lemma all_priority_permutations_verdict :
  verdict_emits search_fuel [] all_permutations all_priority_permutations.
Proof.
  unfold all_priority_permutations, all_permutations, search_fuel.
  apply prio_loop_verdict; [unassigned_slot | lia |]. intros T1p2 _ _.
  apply prio_loop_verdict; [unassigned_slot | lia |]. intros T2p2 _ _.
  apply prio_loop_verdict; [unassigned_slot | lia |]. intros T3p2 _ _.
  apply prio_loop_verdict; [unassigned_slot | lia |]. intros T4p2 _ _.
  apply prio_loop_verdict; [unassigned_slot | lia |]. intros T1p1 _ _.
  apply prio_loop_verdict; [unassigned_slot | lia |]. intros T2p1 _ _.
  apply prio_loop_verdict; [unassigned_slot | lia |]. intros T3p1 _ _.
  apply prio_loop_verdict; [unassigned_slot | lia |]. intros T4p1 _ _.
  apply try_permutation_verdict. read_all_prios.
Qed.

Lemma rm_priority_permutations_verdict :
  verdict_emits search_fuel [] rm_permutations rm_priority_permutations.
Proof.
  unfold rm_priority_permutations, rm_permutations, search_fuel.
  apply prio_loop_verdict; [unassigned_slot | lia |]. intros T1p1 H1 _.
  rewrite rm_start by lia.
  apply prio_loop_verdict; [unassigned_slot | lia |]. intros T2p1 H2 _.
  rewrite rm_start by lia.
  apply prio_loop_verdict; [unassigned_slot | lia |]. intros T3p1 H3 _.
  rewrite rm_start by lia.
  apply prio_loop_verdict; [unassigned_slot | lia |]. intros T4p1 H4 _.
  apply prio_loop_verdict; [unassigned_slot | lia |]. intros T1p2 _ _.
  apply prio_loop_verdict; [unassigned_slot | lia |]. intros T2p2 _ _.
  apply prio_loop_verdict; [unassigned_slot | lia |]. intros T3p2 _ _.
  apply prio_loop_verdict; [unassigned_slot | lia |]. intros T4p2 _ _.
  apply try_permutation_verdict. read_all_prios.
Qed.

End SearchVerdicts.

Lemma verdict_inv_start ts : verdict_inv ts [] (mk_search ts 0 []).
Proof.
  split; [apply perm_inv_start|]. split; [reflexivity|]. intros i. auto.
Qed.

(** What a search over the permutations [L] comes to, with enough fuel. *)
Definition verdict (ts : taskset_t) (L : list (list Z))
    (run : call (Z * list (list Z))) : Prop :=
  exists r perms ts',
    run = Returned (r, perms) ts' /\
    (r = 0 /\ perms = L /\ Forall (all_miss ts) L \/
     r = 1 /\ exists p, In p L /\ has_witness ts p).

Lemma search_verdict ts L loops total fuel :
  (forall i, 0 <= period (tasks ts i) < INT_MAX) ->
  hyper_period ts < LONG_MAX ->
  combinations ts <= INT_MAX ->
  verdict_emits ts (search_fuel ts) [] L loops ->
  Z.of_nat (length L) = total -> total <= LONG_MAX ->
  (search_fuel ts <= fuel)%nat ->
  verdict ts L (finish_search total (loops fuel (mk_search ts 0 []))).
Proof.
  intros Hp Hhp Hfit Hem Hlen Htot Hfuel.
  pose proof (Hem fuel (mk_search ts 0 []) (verdict_inv_start ts)) as H.
  unfold generates in H. unfold verdict, finish_search.
  destruct (loops fuel (mk_search ts 0 [])) as [s|r s| |].
  - destruct H as (((_ & Hgen) & _) & es & Hlog & Hkeys & Hok).
    rewrite map_id in Hkeys. simpl in Hlog. rewrite Hkeys in Hlog, Hok.
    assert (Hg : generated s = total).
    { rewrite Hgen, Hlog, Hlen. apply long_wrap_id.
      unfold in_long, LONG_MIN. lia. }
    rewrite Hg, Z.eqb_refl. exists 0, (visited s), (cur s).
    split; [reflexivity|]. left. rewrite Hlog. auto.
  - destruct H as (Hr & es & e & rest & Hlog & Hkeys & _ & Hfin).
    exists r, (visited s), (cur s). split; [reflexivity|]. right.
    split; [exact Hr|]. exists e. split; [|exact Hfin].
    rewrite Hkeys. apply in_app_iff. right. left. reflexivity.
  - lia.
  - specialize (H Hhp). lia.
Qed.

(** A verdict is right: 1 exactly when one of the permutations of [L] has
    a schedulable configuration. *)
Lemma verdict_decides ts L run :
  verdict ts L run ->
  exists r perms ts',
    run = Returned (r, perms) ts' /\ (r = 0 \/ r = 1) /\
    (r = 1 <-> exists cfg, same_base cfg ts /\ In (prios cfg) L /\
                           pcps_in_range cfg ts /\ sas_returns cfg None).
Proof.
  intros (r & perms & ts' & Hrun & H). exists r, perms, ts'.
  split; [exact Hrun|]. destruct H as [(-> & _ & Hmiss)|(-> & p & Hin & Hw)].
  - split; [left; reflexivity|]. split; [discriminate|].
    intros (cfg & Hb & Hin & Hrange & f1 & ts1 & H1). exfalso.
    rewrite Forall_forall in Hmiss.
    destruct (Hmiss _ Hin cfg Hb eq_refl Hrange) as (k & f2 & ts2 & H2).
    destruct (simulate_sas_deterministic _ _ _ _ _ _ _ H1 H2) as [Hv _].
    discriminate.
  - split; [right; reflexivity|]. split; [|reflexivity]. intros _.
    destruct Hw as (cfg & Hb & Hpr & Hrange & Hok). exists cfg.
    rewrite Hpr. auto.
Qed.

(** X13: for periods from 0 to below [INT_MAX], a hyper-period below
    [LONG_MAX] and a product of the [period + 1] that fits an [int],
    [test_all_configurations_exhaustively] returns, 0 or 1, and it returns 1
    exactly when the task set has a schedulable configuration: a task set
    with the same execution times, periods and hyper-period, the values 0..7
    as its eight priorities in some order, and phase change points between 0
    and the periods, on which [simulate_sas] returns [NULL]. *)
Theorem test_all_configurations_exhaustively_decides
    (ts : taskset_t) (fuel : nat) :
  (forall i, 0 <= period (tasks ts i) < INT_MAX) ->
  hyper_period ts < LONG_MAX ->
  (period (tasks ts I0) + 1) * (period (tasks ts I1) + 1) *
  (period (tasks ts I2) + 1) * (period (tasks ts I3) + 1) <= INT_MAX ->
  (search_fuel ts <= fuel)%nat ->
  exists r perms ts',
    test_all_configurations_exhaustively fuel ts = Returned (r, perms) ts' /\
    (r = 0 \/ r = 1) /\
    (r = 1 <->
     exists cfg, same_base cfg ts /\ Permutation (zrange 0 7) (prios cfg) /\
                 pcps_in_range cfg ts /\ sas_returns cfg None).
Proof.
  intros Hp Hhp Hfit Hfuel.
  destruct (verdict_decides ts all_permutations
              (test_all_configurations_exhaustively fuel ts))
    as (r & perms & ts' & Hrun & Hr & Hiff).
  { apply search_verdict; try assumption.
    - apply all_priority_permutations_verdict, Hp.
    - rewrite length_all_permutations. reflexivity.
    - unfold LONG_MAX. lia. }
  exists r, perms, ts'. split; [exact Hrun|]. split; [exact Hr|].
  rewrite Hiff. split; intros (cfg & Hb & Hin & H); exists cfg;
    (split; [exact Hb|]); (split; [|exact H]); apply in_all_permutations, Hin.
Qed.

Lemma test_all_configurations_exhaustively_decides_witness :
  exists r perms ts',
    test_all_configurations_exhaustively 200 small_schedulable
    = Returned (r, perms) ts' /\
    (r = 0 \/ r = 1) /\
    (r = 1 <->
     exists cfg, same_base cfg small_schedulable /\
                 Permutation (zrange 0 7) (prios cfg) /\
                 pcps_in_range cfg small_schedulable /\ sas_returns cfg None).
Proof.
  apply (test_all_configurations_exhaustively_decides small_schedulable 200).
  - intros i. destruct i; vm_compute; split; congruence.
  - vm_compute. reflexivity.
  - vm_compute. discriminate.
  - apply Nat.leb_le. vm_compute. reflexivity.
Defined.

(** X14: under the same conditions [test_rm_configurations_exhaustively]
    returns, 0 or 1, and it returns 1 exactly when the task set has a
    schedulable configuration whose phase 1 priorities increase with the task
    index. *)
Theorem test_rm_configurations_exhaustively_decides
    (ts : taskset_t) (fuel : nat) :
  (forall i, 0 <= period (tasks ts i) < INT_MAX) ->
  hyper_period ts < LONG_MAX ->
  (period (tasks ts I0) + 1) * (period (tasks ts I1) + 1) *
  (period (tasks ts I2) + 1) * (period (tasks ts I3) + 1) <= INT_MAX ->
  (search_fuel ts <= fuel)%nat ->
  exists r perms ts',
    test_rm_configurations_exhaustively fuel ts = Returned (r, perms) ts' /\
    (r = 0 \/ r = 1) /\
    (r = 1 <->
     exists cfg, same_base cfg ts /\ Permutation (zrange 0 7) (prios cfg) /\
                 rm_phase_1 (prios cfg) /\
                 pcps_in_range cfg ts /\ sas_returns cfg None).
Proof.
  intros Hp Hhp Hfit Hfuel.
  destruct (verdict_decides ts rm_permutations
              (test_rm_configurations_exhaustively fuel ts))
    as (r & perms & ts' & Hrun & Hr & Hiff).
  { apply search_verdict; try assumption.
    - apply rm_priority_permutations_verdict, Hp.
    - rewrite length_rm_permutations. reflexivity.
    - unfold LONG_MAX. lia. }
  exists r, perms, ts'. split; [exact Hrun|]. split; [exact Hr|].
  rewrite Hiff. split.
  - intros (cfg & Hb & Hin & H). exists cfg. apply in_rm_permutations in Hin.
    tauto.
  - intros (cfg & Hb & Hperm & Hrm & H). exists cfg.
    split; [exact Hb|]. split; [|exact H]. apply in_rm_permutations. tauto.
Qed.

Lemma test_rm_configurations_exhaustively_decides_witness :
  exists r perms ts',
    test_rm_configurations_exhaustively 200 small_schedulable
    = Returned (r, perms) ts' /\
    (r = 0 \/ r = 1) /\
    (r = 1 <->
     exists cfg, same_base cfg small_schedulable /\
                 Permutation (zrange 0 7) (prios cfg) /\
                 rm_phase_1 (prios cfg) /\
                 pcps_in_range cfg small_schedulable /\ sas_returns cfg None).
Proof.
  apply (test_rm_configurations_exhaustively_decides small_schedulable 200).
  - intros i. destruct i; vm_compute; split; congruence.
  - vm_compute. reflexivity.
  - vm_compute. discriminate.
  - apply Nat.leb_le. vm_compute. reflexivity.
Defined.

(** *** Overloaded task sets *)

(** With a task that needs more than its period no configuration is
    schedulable, so a search goes through all its permutations. *)
Lemma overloaded_verdict ts i L run :
  0 < period (tasks ts i) ->
  period (tasks ts i) < wcet (tasks ts i) <= INT_MAX ->
  period (tasks ts i) <= hyper_period ts < LONG_MAX ->
  verdict ts L run ->
  exists ts', run = Returned (0, L) ts'.
Proof.
  intros Hp Hw Hhp (r & perms & ts' & Hrun & H).
  destruct H as [(-> & -> & _)|(_ & p & _ & cfg & Hb & _ & _ & f1 & ts1 & H1)].
  - exists ts'. exact Hrun.
  - exfalso. destruct Hb as [Hbhp Hf]. destruct (Hf i) as [Hwi Hpi].
    destruct (overloaded_misses cfg i) as (k & f2 & ts2 & H2);
      [rewrite Hpi; exact Hp | rewrite Hpi, Hwi; exact Hw
      | rewrite Hpi, Hbhp; exact Hhp |].
    destruct (simulate_sas_deterministic _ _ _ _ _ _ _ H1 H2) as [Hv _].
    discriminate.
Qed.

Lemma overloaded_search ts i L loops total fuel :
  (forall j, 0 <= period (tasks ts j) < INT_MAX) ->
  combinations ts <= INT_MAX ->
  0 < period (tasks ts i) ->
  period (tasks ts i) < wcet (tasks ts i) <= INT_MAX ->
  period (tasks ts i) <= hyper_period ts < LONG_MAX ->
  (search_fuel ts <= fuel)%nat ->
  verdict_emits ts (search_fuel ts) [] L loops ->
  Z.of_nat (length L) = total -> total <= LONG_MAX ->
  exists ts',
    finish_search total (loops fuel (mk_search ts 0 [])) = Returned (0, L) ts'.
Proof.
  intros Hper Hfit Hp Hw Hhp Hfuel Hem Hlen Htot.
  apply (overloaded_verdict ts i); try assumption.
  apply search_verdict; try assumption. lia.
Qed.

(** X15: on a task set with a task whose execution time exceeds its period
    (periods from 0 to below [INT_MAX], that period positive and at most the
    hyper-period, which is below [LONG_MAX], and a product of the
    [period + 1] that fits an [int]), both exhaustive searches go through all
    their permutations and return 0. *)
Theorem exhaustive_searches_reject_overloaded
    (ts : taskset_t) (i : task_index) (fuel : nat) :
  (forall j, 0 <= period (tasks ts j) < INT_MAX) ->
  (period (tasks ts I0) + 1) * (period (tasks ts I1) + 1) *
  (period (tasks ts I2) + 1) * (period (tasks ts I3) + 1) <= INT_MAX ->
  0 < period (tasks ts i) ->
  period (tasks ts i) < wcet (tasks ts i) <= INT_MAX ->
  period (tasks ts i) <= hyper_period ts < LONG_MAX ->
  (search_fuel ts <= fuel)%nat ->
  (exists ts', test_all_configurations_exhaustively fuel ts
               = Returned (0, all_permutations) ts') /\
  (exists ts', test_rm_configurations_exhaustively fuel ts
               = Returned (0, rm_permutations) ts').
Proof.
  intros Hper Hfit Hp Hw Hhp Hfuel. split.
  - apply (overloaded_search ts i); try assumption.
    + apply all_priority_permutations_verdict, Hper.
    + rewrite length_all_permutations. reflexivity.
    + unfold LONG_MAX. lia.
  - apply (overloaded_search ts i); try assumption.
    + apply rm_priority_permutations_verdict, Hper.
    + rewrite length_rm_permutations. reflexivity.
    + unfold LONG_MAX. lia.
Qed.

Lemma exhaustive_searches_reject_overloaded_witness :
  (exists ts', test_all_configurations_exhaustively 100 all_overloaded
               = Returned (0, all_permutations) ts') /\
  (exists ts', test_rm_configurations_exhaustively 100 all_overloaded
               = Returned (0, rm_permutations) ts').
Proof.
  apply (exhaustive_searches_reject_overloaded all_overloaded I0 100).
  - intros i. destruct i; vm_compute; split; congruence.
  - vm_compute. discriminate.
  - vm_compute. reflexivity.
  - vm_compute. split; congruence.
  - vm_compute. split; congruence.
  - apply Nat.leb_le. vm_compute. reflexivity.
Defined.

(** ** Phase change points beyond the period *)

(** A task, but for its phase change point. *)
Definition forget_pcp (tk : task_t) : task_t := set_phase_change_point tk 0.

(** The phase change point of a task, brought into [0, period]. *)
Definition clamped_pcp (tk : task_t) : Z :=
  Z.max 0 (Z.min (phase_change_point tk) (period tk)).

(** Task sets that differ in phase change points only, and in these only
    beyond the ends of [0, period]. *)
Definition same_but_pcps (a b : taskset_t) : Prop :=
  hyper_period a = hyper_period b /\
  forall i, forget_pcp (tasks a i) = forget_pcp (tasks b i) /\
            clamped_pcp (tasks a i) = clamped_pcp (tasks b i).

Definition clamp_pcps (ts : taskset_t) : taskset_t :=
  set_pcps ts (clamped_pcp (tasks ts I0), clamped_pcp (tasks ts I1),
               clamped_pcp (tasks ts I2), clamped_pcp (tasks ts I3)).

Lemma forget_pcp_fields a b :
  forget_pcp a = forget_pcp b ->
  wcet a = wcet b /\ period a = period b /\
  phase_1_prio a = phase_1_prio b /\ phase_2_prio a = phase_2_prio b /\
  last_release_time a = last_release_time b /\
  remaining_wcet a = remaining_wcet b.
Proof.
  destruct a, b. unfold forget_pcp, set_phase_change_point. simpl.
  intros [= -> -> -> -> -> ->]. repeat split.
Qed.

Lemma forget_pcp_release_if_ready t a b :
  forget_pcp a = forget_pcp b ->
  forget_pcp (release_if_ready t a) = forget_pcp (release_if_ready t b).
Proof.
  intros H. apply forget_pcp_fields in H.
  destruct H as (Hw & Hp & H1 & H2 & Hl & Hr).
  unfold release_if_ready, can_release, release, forget_pcp,
    set_phase_change_point, set_sim_state.
  rewrite Hl, Hp. destruct (if _ <? 0 then _ else _); simpl; congruence.
Qed.

Lemma forget_pcp_run_one_unit a b :
  forget_pcp a = forget_pcp b ->
  forget_pcp (run_one_unit a) = forget_pcp (run_one_unit b).
Proof.
  intros H. apply forget_pcp_fields in H.
  destruct H as (Hw & Hp & H1 & H2 & Hl & Hr).
  unfold run_one_unit, forget_pcp, set_phase_change_point, set_sim_state.
  simpl. congruence.
Qed.

Lemma clamped_pcp_release_if_ready t tk :
  clamped_pcp (release_if_ready t tk) = clamped_pcp tk.
Proof.
  unfold release_if_ready. destruct (can_release tk t); reflexivity.
Qed.

Lemma has_missed_deadline_forget a b t :
  forget_pcp a = forget_pcp b ->
  has_missed_deadline a t = has_missed_deadline b t.
Proof.
  intros H. apply forget_pcp_fields in H.
  destruct H as (Hw & Hp & H1 & H2 & Hl & Hr).
  unfold has_missed_deadline, is_active, can_release. rewrite Hl, Hp, Hr.
  reflexivity.
Qed.

(** Within a period, a phase change point counts as its clamped value. *)
Lemma get_priority_clamped a b t :
  forget_pcp a = forget_pcp b -> clamped_pcp a = clamped_pcp b ->
  0 <= long_wrap (t - last_release_time a) < period a ->
  get_priority a t = get_priority b t.
Proof.
  intros H Hc Hd. apply forget_pcp_fields in H.
  destruct H as (Hw & Hp & H1 & H2 & Hl & Hr).
  unfold get_priority, clamped_pcp in *. rewrite <- Hl, <- H1, <- H2, <- Hp in *.
  set (d := long_wrap (t - last_release_time a)) in *.
  destruct (d <? phase_change_point a) eqn:Ea,
           (d <? phase_change_point b) eqn:Eb; try reflexivity;
    rewrite ?Z.ltb_lt, ?Z.ltb_ge in *; lia.
Qed.

Lemma hp_scan_ext a b t l :
  (forall i, is_active (tasks a i) = is_active (tasks b i)) ->
  (forall i, is_active (tasks a i) = true ->
             get_priority (tasks a i) t = get_priority (tasks b i) t) ->
  forall acc, hp_scan a t l acc = hp_scan b t l acc.
Proof.
  intros Hact Hprio. unfold hp_scan.
  induction l as [|i l IH]; intros acc; simpl; [reflexivity|].
  rewrite <- IH. f_equal. unfold hp_scan_step. rewrite <- Hact.
  destruct (is_active (tasks a i)) eqn:E; [|reflexivity].
  rewrite <- (Hprio i E). reflexivity.
Qed.

(** The two simulations go through the same states, but for the phase
    change points. *)
Lemma sas_state_same_but_pcps ts ts' :
  (forall i, 0 < period (tasks ts i)) ->
  same_but_pcps ts ts' ->
  forall n, Z.of_nat n <= LONG_MAX ->
  same_but_pcps (sas_state ts n) (sas_state ts' n).
Proof.
  intros Hp [Hhp Hsame] n. induction n as [|n IH]; intros Hn.
  - simpl. split; [exact Hhp|]. intros i. rewrite !tasks_reset.
    destruct (Hsame i) as [Hf Hc]. split.
    + apply forget_pcp_fields in Hf.
      destruct Hf as (Hw & Hpe & H1 & H2 & Hl & Hr).
      unfold forget_pcp, set_phase_change_point, set_sim_state. simpl.
      congruence.
    + exact Hc.
  - specialize (IH ltac:(lia)). destruct IH as [IHhp IH].
    rewrite !sas_state_succ.
    set (a := sas_state ts n) in *. set (b := sas_state ts' n) in *.
    set (t := Z.of_nat n) in *.
    assert (Hrel : forall i,
              forget_pcp (tasks (release_ready a t) i)
              = forget_pcp (tasks (release_ready b t) i) /\
              clamped_pcp (tasks (release_ready a t) i)
              = clamped_pcp (tasks (release_ready b t) i)).
    { intros i. rewrite !tasks_release_ready, !clamped_pcp_release_if_ready.
      destruct (IH i) as [Hf Hc].
      split; [apply forget_pcp_release_if_ready, Hf | exact Hc]. }
    assert (Hlast : forall i,
              0 <= long_wrap (t - last_release_time (tasks (release_ready a t) i))
              < period (tasks (release_ready a t) i)).
    { intros i.
      assert (Hl : last_release_time (tasks (release_ready a t) i)
                   = last_release_time (tasks (sas_state ts (S n)) i)).
      { rewrite sas_state_succ. unfold sas_tick. fold a t.
        rewrite tasks_execute_highest.
        destruct (get_highest_prio_active_task _ _) as [k|]; [|reflexivity].
        destruct (index_eqb k i); reflexivity. }
      assert (Hper : period (tasks (release_ready a t) i) = period (tasks ts i)).
      { rewrite tasks_release_ready. unfold release_if_ready.
        destruct (can_release (tasks a i) t); apply (period_sas_state ts n i). }
      rewrite Hl, Hper.
      rewrite (last_release_time_multiple ts i n (Hp i))
        by (unfold LONG_MAX in *; lia).
      fold t. pose proof (Z.mod_pos_bound t (period (tasks ts i)) (Hp i)) as Hm.
      pose proof (Z.mod_le t (period (tasks ts i)) ltac:(unfold t; lia) (Hp i))
        as Hle.
      rewrite Z.mod_eq in Hm, Hle by (specialize (Hp i); lia).
      rewrite long_wrap_id; [exact Hm|].
      unfold in_long, LONG_MIN. unfold LONG_MAX in *. unfold t in *. lia. }
    assert (Hsel : get_highest_prio_active_task (release_ready a t) t
                   = get_highest_prio_active_task (release_ready b t) t).
    { unfold get_highest_prio_active_task. f_equal. apply hp_scan_ext.
      - intros i. destruct (Hrel i) as [Hf _]. apply forget_pcp_fields in Hf.
        unfold is_active. destruct Hf as (_ & _ & _ & _ & _ & ->). reflexivity.
      - intros i _. destruct (Hrel i) as [Hf Hc].
        apply get_priority_clamped; [exact Hf | exact Hc | apply Hlast]. }
    split.
    + unfold sas_tick. rewrite !hyper_period_execute_highest,
        !hyper_period_release_ready. exact IHhp.
    + intros i. unfold sas_tick. rewrite !tasks_execute_highest, Hsel.
      destruct (Hrel i) as [Hf Hc].
      destruct (get_highest_prio_active_task (release_ready b t) t) as [k|];
        [|split; assumption].
      destruct (index_eqb k i); [|split; assumption].
      split; [apply forget_pcp_run_one_unit, Hf | exact Hc].
Qed.

Lemma scan_rounds_same ts ts' count : forall n,
  (forall m, (n <= m < n + count)%nat ->
     first_deadline_miss (sas_state ts m) (Z.of_nat m)
     = first_deadline_miss (sas_state ts' m) (Z.of_nat m)) ->
  scan_rounds ts n count = scan_rounds ts' n count.
Proof.
  induction count as [|c IH]; intros n H; simpl; [reflexivity|].
  rewrite <- (H n) by lia.
  destruct (first_deadline_miss (sas_state ts n) (Z.of_nat n)); [reflexivity|].
  apply IH. intros m Hm. apply H. lia.
Qed.

Lemma simulate_sas_same_but_pcps ts ts' v :
  (forall i, 0 < period (tasks ts i)) ->
  hyper_period ts < LONG_MAX ->
  same_but_pcps ts ts' ->
  sas_returns ts v <-> sas_returns ts' v.
Proof.
  intros Hp Hhp Hsame. pose proof (proj1 Hsame) as Hhp'.
  rewrite !sas_returns_scan_rounds by (rewrite <- ?Hhp'; exact Hhp).
  rewrite <- Hhp'.
  rewrite (scan_rounds_same ts ts'); [reflexivity|].
  intros m Hm. unfold first_deadline_miss.
  destruct (sas_state_same_but_pcps ts ts' Hp Hsame m) as [_ H]; [lia|].
  unfold all_tasks. cbn [find].
  rewrite !(fun i => has_missed_deadline_forget _ _ (Z.of_nat m) (proj1 (H i))).
  reflexivity.
Qed.

Lemma same_but_pcps_clamp ts :
  (forall i, 0 <= period (tasks ts i)) -> same_but_pcps ts (clamp_pcps ts).
Proof.
  intros Hp. split; [reflexivity|]. intros i.
  pose proof (Hp i) as Hi.
  destruct ts as [[] [] [] [] ?]; destruct i; simpl in *;
    (split; [reflexivity|]); unfold clamped_pcp; simpl; lia.
Qed.

(** X16: for positive periods and a hyper-period below [LONG_MAX],
    [simulate_sas] takes a phase change point above the period for the
    period and a negative one for 0: it returns the same on the task set
    whose phase change points are brought into [0, period]. *)
Theorem simulate_sas_clamps_pcps (ts : taskset_t) (v : option task_index) :
  (forall i, 0 < period (tasks ts i)) ->
  hyper_period ts < LONG_MAX ->
  sas_returns ts v <-> sas_returns (clamp_pcps ts) v.
Proof.
  intros Hp Hhp. apply simulate_sas_same_but_pcps; [exact Hp | exact Hhp |].
  apply same_but_pcps_clamp. intros i. specialize (Hp i). lia.
Qed.

Lemma simulate_sas_clamps_pcps_witness :
  sas_returns (set_pcps small_schedulable (7, -3, 1, 0)) None <->
  sas_returns (clamp_pcps (set_pcps small_schedulable (7, -3, 1, 0))) None.
Proof.
  apply (simulate_sas_clamps_pcps (set_pcps small_schedulable (7, -3, 1, 0))).
  - intros i. destruct i; vm_compute; reflexivity.
  - vm_compute. reflexivity.
Defined.

Lemma clamp_pcps_set_pcps ts cfg :
  exists cfg', clamp_pcps (set_pcps ts cfg) = set_pcps ts cfg' /\
               ((forall i, 0 <= period (tasks ts i)) -> In cfg' (pcp_space ts)).
Proof.
  destruct cfg as [[[a b] c] d].
  exists (Z.max 0 (Z.min a (period (tasks ts I0))),
          Z.max 0 (Z.min b (period (tasks ts I1))),
          Z.max 0 (Z.min c (period (tasks ts I2))),
          Z.max 0 (Z.min d (period (tasks ts I3)))).
  split.
  - destruct ts as [[] [] [] [] ?]. reflexivity.
  - intros Hp. apply in_pcp_space.
    pose proof (Hp I0). pose proof (Hp I1). pose proof (Hp I2). pose proof (Hp I3).
    lia.
Qed.

(** X17: the range searched loses nothing. For positive periods below
    [INT_MAX] and a hyper-period below [LONG_MAX],
    [test_all_phase_change_points] returns 1 if and only if [simulate_sas]
    returns [NULL] for some phase change points, of any values. *)
Theorem test_all_phase_change_points_complete (ts : taskset_t) :
  (forall i, 0 < period (tasks ts i) < INT_MAX) ->
  hyper_period ts < LONG_MAX ->
  (exists fuel tr ts',
     test_all_phase_change_points fuel ts = Returned (1, tr) ts')
  <->
  (exists cfg : pcp_config, sas_returns (set_pcps ts cfg) None).
Proof.
  intros Hp Hhp.
  assert (Hp' : forall i, period (tasks ts i) < INT_MAX) by (intros i; apply Hp).
  split.
  - intros (fuel & tr & ts' & Hrun).
    pose proof (test_all_phase_change_points_outcome ts fuel Hp') as H.
    rewrite Hrun in H.
    destruct H as [(_ & es & e & rest & _ & _ & _ & Hnone & Hrec)|([=] & _)].
    exists (fst e). destruct Hrec as (f & ts1 & Hsim). rewrite Hnone in Hsim.
    exists f, ts1. exact Hsim.
  - intros (cfg & Hok).
    destruct (clamp_pcps_set_pcps ts cfg) as (cfg' & Heq & Hin).
    assert (Hok' : sas_returns (set_pcps ts cfg') None).
    { rewrite <- Heq.
      apply (simulate_sas_same_but_pcps (set_pcps ts cfg)); [| | |exact Hok].
      - intros i. rewrite (same_static_period _ _ i (same_static_set_pcps ts cfg)).
        apply Hp.
      - rewrite (same_static_hyper_period _ _ (same_static_set_pcps ts cfg)).
        exact Hhp.
      - apply same_but_pcps_clamp. intros i.
        rewrite (same_static_period _ _ i (same_static_set_pcps ts cfg)).
        specialize (Hp i). lia. }
    destruct (test_all_phase_change_points_finds ts cfg' Hp' Hhp)
      as (tr & ts' & Hrun); [|exact Hok'|].
    + apply Hin. intros i. specialize (Hp i). lia.
    + exists (all_pcp_fuel ts), tr, ts'. exact Hrun.
Qed.

Lemma test_all_phase_change_points_complete_witness :
  (exists fuel tr ts',
     test_all_phase_change_points fuel small_schedulable = Returned (1, tr) ts')
  <->
  (exists cfg : pcp_config, sas_returns (set_pcps small_schedulable cfg) None).
Proof.
  apply (test_all_phase_change_points_complete small_schedulable).
  - intros i. destruct i; vm_compute; split; reflexivity.
  - vm_compute. reflexivity.
Defined.

(** ** Deadlines and processor demand *)

Lemma scan_rounds_some ts k count : forall n,
  scan_rounds ts n count = Some k ->
  exists m, (n <= m < n + count)%nat /\
            first_deadline_miss (sas_state ts m) (Z.of_nat m) = Some k.
Proof.
  induction count as [|c IH]; intros n; simpl; [discriminate|].
  destruct (first_deadline_miss (sas_state ts n) (Z.of_nat n)) as [k'|] eqn:E.
  - intros [= ->]. exists n. split; [lia | exact E].
  - intros H. destruct (IH _ H) as (m & Hm & Hk). exists m. split; [lia|exact Hk].
Qed.

(** X18: deadlines are implicit. When [simulate_sas] returns a task (of
    positive period, hyper-period below [LONG_MAX]), that task has work left
    at a tick, after tick 0 and up to the hyper-period, that is a multiple of
    its period. *)
Theorem miss_at_multiple_of_period (ts : taskset_t) (k : task_index) :
  0 < period (tasks ts k) ->
  hyper_period ts < LONG_MAX ->
  sas_returns ts (Some k) ->
  exists n : nat,
    0 < Z.of_nat n <= hyper_period ts /\
    Z.of_nat n mod period (tasks ts k) = 0 /\
    0 < remaining_wcet (tasks (sas_state ts n) k).
Proof.
  intros Hp Hhp Hret.
  apply sas_returns_scan_rounds in Hret; [|exact Hhp]. symmetry in Hret.
  apply scan_rounds_some in Hret. destruct Hret as (m & Hm & Hmiss).
  unfold first_deadline_miss in Hmiss. apply find_some in Hmiss.
  destruct Hmiss as [_ Hmiss]. unfold has_missed_deadline in Hmiss.
  apply andb_true_iff in Hmiss. destruct Hmiss as [Hact Hrel].
  unfold is_active in Hact. apply Z.ltb_lt in Hact.
  apply release_rounds in Hrel; [|exact Hp|lia].
  exists m. split; [|split; [exact Hrel | exact Hact]].
  split; [|lia]. destruct m as [|m]; [|lia].
  simpl sas_state in Hact. rewrite tasks_reset in Hact. simpl in Hact. lia.
Qed.

Lemma miss_at_multiple_of_period_witness :
  exists n : nat,
    0 < Z.of_nat n <= hyper_period all_overloaded /\
    Z.of_nat n mod period (tasks all_overloaded I0) = 0 /\
    0 < remaining_wcet (tasks (sas_state all_overloaded n) I0).
Proof.
  apply (miss_at_multiple_of_period all_overloaded I0).
  - reflexivity.
  - reflexivity.
  - exists 10%nat. eexists. vm_compute. reflexivity.
Defined.

(** *** Work that is left *)

(** The work released and not yet done. *)
Definition backlog (ts : taskset_t) : Z :=
  Z.max 0 (remaining_wcet (tasks ts I0)) + Z.max 0 (remaining_wcet (tasks ts I1)) +
  Z.max 0 (remaining_wcet (tasks ts I2)) + Z.max 0 (remaining_wcet (tasks ts I3)).

(** The work of the jobs due at tick [n], and of those due before it. *)
Definition due_of (ts : taskset_t) (n : nat) (i : task_index) : Z :=
  if Z.of_nat n mod period (tasks ts i) =? 0 then wcet (tasks ts i) else 0.

Definition due (ts : taskset_t) (n : nat) : Z :=
  due_of ts n I0 + due_of ts n I1 + due_of ts n I2 + due_of ts n I3.

Fixpoint demand (ts : taskset_t) (n : nat) : Z :=
  match n with
  | O => 0
  | S m => demand ts m + due ts m
  end.

Lemma backlog_execute_highest ts t :
  (forall i, remaining_wcet (tasks ts i) <= INT_MAX) ->
  backlog ts - 1 <= backlog (execute_highest ts t).
Proof.
  intros Hint. unfold backlog. rewrite !tasks_execute_highest.
  destruct (get_highest_prio_active_task ts t) as [k|] eqn:E; [|lia].
  apply get_highest_is_active in E. unfold is_active in E. apply Z.ltb_lt in E.
  pose proof (Hint k) as Hk.
  assert (Hrun : remaining_wcet (run_one_unit (tasks ts k))
                 = remaining_wcet (tasks ts k) - 1).
  { unfold run_one_unit. simpl. apply int_wrap_id.
    unfold in_int, INT_MIN. lia. }
  destruct k; cbn [index_eqb index_nat Nat.eqb]; rewrite Hrun; lia.
Qed.

Lemma backlog_release_ready ts t :
  (forall i, has_missed_deadline (tasks ts i) t = false) ->
  (forall i, 0 <= wcet (tasks ts i)) ->
  backlog (release_ready ts t) =
  backlog ts
  + (if can_release (tasks ts I0) t then wcet (tasks ts I0) else 0)
  + (if can_release (tasks ts I1) t then wcet (tasks ts I1) else 0)
  + (if can_release (tasks ts I2) t then wcet (tasks ts I2) else 0)
  + (if can_release (tasks ts I3) t then wcet (tasks ts I3) else 0).
Proof.
  intros Hmiss Hw. unfold backlog. rewrite !tasks_release_ready.
  assert (H : forall i,
            Z.max 0 (remaining_wcet (release_if_ready t (tasks ts i))) =
            Z.max 0 (remaining_wcet (tasks ts i))
            + (if can_release (tasks ts i) t then wcet (tasks ts i) else 0)).
  { intros i. specialize (Hmiss i). specialize (Hw i).
    unfold has_missed_deadline, is_active in Hmiss. unfold release_if_ready.
    destruct (can_release (tasks ts i) t); [|lia].
    rewrite andb_true_r in Hmiss. apply Z.ltb_ge in Hmiss.
    unfold release. simpl. lia. }
  rewrite !H. lia.
Qed.

Lemma remaining_int_sas_state ts n i :
  wcet (tasks ts i) <= INT_MAX ->
  remaining_wcet (tasks (sas_state ts n) i) <= INT_MAX.
Proof.
  intros Hw. induction n as [|n IH].
  - simpl. rewrite tasks_reset. simpl. unfold INT_MAX. lia.
  - rewrite sas_state_succ.
    pose proof (remaining_wcet_sas_tick (sas_state ts n) (Z.of_nat n) i IH) as H.
    rewrite wcet_sas_state in H. specialize (H Hw). cbv zeta in H.
    destruct (can_release _ _); lia.
Qed.

(** As long as no deadline is missed, all the work due so far is done or
    left, and at most one unit is done at each tick. *)
Lemma backlog_sas_state ts :
  (forall i, 0 < period (tasks ts i)) ->
  (forall i, 0 <= wcet (tasks ts i) <= INT_MAX) ->
  forall n, Z.of_nat n <= LONG_MAX ->
  (forall m, (m < n)%nat ->
     first_deadline_miss (sas_state ts m) (Z.of_nat m) = None) ->
  demand ts n - Z.of_nat n <= backlog (sas_state ts n).
Proof.
  intros Hp Hw n. induction n as [|n IH]; intros Hn Hnone.
  - simpl. unfold backlog. lia.
  - specialize (IH ltac:(lia) ltac:(intros m Hm; apply Hnone; lia)).
    pose proof (Hnone n ltac:(lia)) as Hn0.
    rewrite first_deadline_miss_none in Hn0.
    rewrite sas_state_succ. unfold sas_tick.
    pose proof (backlog_execute_highest
                  (release_ready (sas_state ts n) (Z.of_nat n)) (Z.of_nat n)) as He.
    assert (Hrel : backlog (release_ready (sas_state ts n) (Z.of_nat n))
                   = backlog (sas_state ts n) + due ts n).
    { rewrite backlog_release_ready; [|exact Hn0|].
      - unfold due, due_of.
        assert (Hc : forall i,
          (if can_release (tasks (sas_state ts n) i) (Z.of_nat n)
           then wcet (tasks (sas_state ts n) i) else 0)
          = (if Z.of_nat n mod period (tasks ts i) =? 0
             then wcet (tasks ts i) else 0)).
        { intros i. rewrite wcet_sas_state.
          pose proof (release_rounds ts i n (Hp i) ltac:(lia)) as Hr.
          destruct (can_release (tasks (sas_state ts n) i) (Z.of_nat n)).
          - rewrite (proj1 Hr eq_refl). reflexivity.
          - destruct (Z.of_nat n mod period (tasks ts i) =? 0) eqn:E;
              [|reflexivity].
            apply Z.eqb_eq in E. apply Hr in E. discriminate. }
        rewrite !Hc. lia.
      - intros i. rewrite wcet_sas_state. apply Hw. }
    assert (Hint : forall i,
              remaining_wcet
                (tasks (release_ready (sas_state ts n) (Z.of_nat n)) i)
              <= INT_MAX).
    { intros i. rewrite tasks_release_ready. unfold release_if_ready.
      destruct (can_release _ _).
      - unfold release. simpl. rewrite wcet_sas_state. apply Hw.
      - apply remaining_int_sas_state, Hw. }
    specialize (He Hint). cbn [demand]. lia.
Qed.

(** The work of one task due before tick [n]. *)
Fixpoint demand_of (ts : taskset_t) (n : nat) (i : task_index) : Z :=
  match n with
  | O => 0
  | S m => demand_of ts m i + due_of ts m i
  end.

Lemma demand_by_task ts n :
  demand ts n
  = demand_of ts n I0 + demand_of ts n I1 + demand_of ts n I2 + demand_of ts n I3.
Proof.
  induction n as [|n IH]; simpl; [reflexivity|]. rewrite IH. unfold due. lia.
Qed.

(** One job for each multiple of the period before [n]. *)
Lemma demand_of_jobs ts i n :
  0 < period (tasks ts i) ->
  demand_of ts n i
  = wcet (tasks ts i)
    * ((Z.of_nat n + period (tasks ts i) - 1) / period (tasks ts i)).
Proof.
  intros Hp. set (p := period (tasks ts i)) in *. set (w := wcet (tasks ts i)).
  induction n as [|n IH].
  - simpl. rewrite Z.div_small by lia. lia.
  - cbn [demand_of]. rewrite IH. unfold due_of. fold p w.
    pose proof (Z.div_mod (Z.of_nat n) p ltac:(lia)) as Hdm.
    pose proof (Z.mod_pos_bound (Z.of_nat n) p Hp) as Hmod.
    set (q := Z.of_nat n / p) in *. set (r := Z.of_nat n mod p) in *.
    assert (Hnext : (Z.of_nat (S n) + p - 1) / p = q + 1).
    { symmetry. apply (Z.div_unique _ _ _ r); lia. }
    rewrite Hnext. destruct (r =? 0) eqn:E.
    + apply Z.eqb_eq in E.
      assert (Hq : (Z.of_nat n + p - 1) / p = q).
      { symmetry. apply (Z.div_unique _ _ _ (p - 1)); lia. }
      rewrite Hq. lia.
    + apply Z.eqb_neq in E.
      assert (Hq : (Z.of_nat n + p - 1) / p = q + 1).
      { symmetry. apply (Z.div_unique _ _ _ (r - 1)); lia. }
      rewrite Hq. lia.
Qed.

Lemma demand_of_hyper_period ts i :
  0 < period (tasks ts i) -> (period (tasks ts i) | hyper_period ts) ->
  0 <= hyper_period ts ->
  demand_of ts (Z.to_nat (hyper_period ts)) i
  = wcet (tasks ts i) * (hyper_period ts / period (tasks ts i)).
Proof.
  intros Hp [c Hc] Hhp. rewrite demand_of_jobs by exact Hp.
  rewrite Z2Nat.id by exact Hhp. f_equal. rewrite Hc.
  rewrite Z.div_mul by lia.
  symmetry. apply (Z.div_unique _ _ _ (period (tasks ts i) - 1)); lia.
Qed.

(** X19: a task set whose utilisation is above 1 is never found
    schedulable. For positive periods that divide the hyper-period (below
    [LONG_MAX]) and execution times from 0 to [INT_MAX], if the jobs of one
    hyper-period need more than the hyper-period, [simulate_sas] returns a
    task, and never [NULL], whatever the priorities and the phase change
    points. *)
Theorem overutilised_task_set_misses (ts : taskset_t) :
  (forall i, 0 < period (tasks ts i) /\
             (period (tasks ts i) | hyper_period ts)) ->
  (forall i, 0 <= wcet (tasks ts i) <= INT_MAX) ->
  0 <= hyper_period ts < LONG_MAX ->
  hyper_period ts <
    wcet (tasks ts I0) * (hyper_period ts / period (tasks ts I0)) +
    wcet (tasks ts I1) * (hyper_period ts / period (tasks ts I1)) +
    wcet (tasks ts I2) * (hyper_period ts / period (tasks ts I2)) +
    wcet (tasks ts I3) * (hyper_period ts / period (tasks ts I3)) ->
  (exists k, sas_returns ts (Some k)) /\ ~ sas_returns ts None.
Proof.
  intros Hp Hw Hhp Hu.
  assert (Hp' : forall i, 0 < period (tasks ts i)) by (intros i; apply Hp).
  destruct (scan_rounds ts 0 (Z.to_nat (hyper_period ts + 1))) as [k|] eqn:E.
  - split.
    + exists k. apply sas_returns_scan_rounds; [lia | symmetry; exact E].
    + intros Hnone. apply sas_returns_scan_rounds in Hnone; [|lia]. congruence.
  - exfalso. rewrite scan_rounds_none in E.
    set (n := Z.to_nat (hyper_period ts)).
    pose proof (backlog_sas_state ts Hp' Hw n ltac:(lia)
                  ltac:(intros m Hm; apply E; lia)) as Hb.
    assert (Hidle : backlog (sas_state ts n) = 0).
    { pose proof (E n ltac:(lia)) as Hn. rewrite first_deadline_miss_none in Hn.
      assert (H : forall i, remaining_wcet (tasks (sas_state ts n) i) <= 0).
      { intros i. specialize (Hn i). unfold has_missed_deadline in Hn.
        destruct (Hp i) as [Hpi [c Hc]].
        assert (Hrel : can_release (tasks (sas_state ts n) i) (Z.of_nat n) = true).
        { apply release_rounds; [exact Hpi | lia |].
          unfold n. rewrite Z2Nat.id by lia. rewrite Hc. apply Z.mod_mul. lia. }
        rewrite Hrel, andb_true_r in Hn. unfold is_active in Hn.
        apply Z.ltb_ge in Hn. exact Hn. }
      unfold backlog.
      pose proof (H I0). pose proof (H I1). pose proof (H I2). pose proof (H I3).
      lia. }
    rewrite demand_by_task in Hb. unfold n in Hb.
    rewrite !demand_of_hyper_period in Hb by (try apply Hp; lia).
    rewrite Z2Nat.id in Hb by lia. fold n in Hb. lia.
Qed.

Lemma overutilised_task_set_misses_witness :
  (exists k, sas_returns small_overloaded (Some k)) /\
  ~ sas_returns small_overloaded None.
Proof.
  apply (overutilised_task_set_misses small_overloaded).
  - intros i. split; [destruct i; reflexivity|].
    destruct i; [exists 2 | exists 2 | exists 2 | exists 1]; reflexivity.
  - intros i. destruct i; vm_compute; split; congruence.
  - vm_compute. split; congruence.
  - vm_compute. reflexivity.
Defined.

(** ** The searches, from the weakest to the strongest *)

(** A schedulable combination of phase change points is a schedulable
    configuration. *)
Lemma has_witness_set_pcps ts cfg :
  In cfg (pcp_space ts) -> sas_returns (set_pcps ts cfg) None ->
  has_witness ts (prios ts).
Proof.
  intros Hin Hok. exists (set_pcps ts cfg). split; [|split; [|split]].
  - apply same_static_base, same_static_set_pcps.
  - apply same_static_prios, same_static_set_pcps.
  - intros i. rewrite <- pcp_of_pcps, pcps_set_pcps.
    destruct cfg as [[[a b] c] d]. apply in_pcp_space in Hin.
    destruct i; simpl; tauto.
  - exact Hok.
Qed.

Lemma verdict_finds ts L run :
  verdict ts L run -> In (prios ts) L -> has_witness ts (prios ts) ->
  exists perms ts', run = Returned (1, perms) ts'.
Proof.
  intros (r & perms & ts' & Hrun & H) Hin (cfg & Hb & Hpr & Hrange & f1 & ts1 & H1).
  destruct H as [(_ & _ & Hmiss)|(-> & _)].
  - exfalso. rewrite Forall_forall in Hmiss.
    destruct (Hmiss _ Hin cfg Hb Hpr Hrange) as (k & f2 & ts2 & H2).
    destruct (simulate_sas_deterministic _ _ _ _ _ _ _ H1 H2) as [Hv _].
    discriminate.
  - exists perms, ts'. exact Hrun.
Qed.

(** X20: what a weaker search finds, a stronger one finds. For positive
    periods below [INT_MAX], a hyper-period below [LONG_MAX], a product of the
    [period + 1] that fits an [int] and priorities that are the values 0..7
    in some order: if [test_fdms_phase_change_points] or
    [test_all_phase_change_points] returns 1, then
    [test_all_configurations_exhaustively] returns 1, and so does
    [test_rm_configurations_exhaustively] when the phase 1 priorities increase
    with the task index. *)
Theorem exhaustive_searches_subsume (ts : taskset_t) :
  (forall i, 0 < period (tasks ts i) < INT_MAX) ->
  hyper_period ts < LONG_MAX ->
  (period (tasks ts I0) + 1) * (period (tasks ts I1) + 1) *
  (period (tasks ts I2) + 1) * (period (tasks ts I3) + 1) <= INT_MAX ->
  Permutation (zrange 0 7) (prios ts) ->
  (exists fuel sims ts',
     test_fdms_phase_change_points fuel ts = Returned (1, sims) ts') \/
  (exists fuel tr ts',
     test_all_phase_change_points fuel ts = Returned (1, tr) ts') ->
  (exists perms ts',
     test_all_configurations_exhaustively (search_fuel ts) ts
     = Returned (1, perms) ts') /\
  (rm_phase_1 (prios ts) ->
   exists perms ts',
     test_rm_configurations_exhaustively (search_fuel ts) ts
     = Returned (1, perms) ts').
Proof.
  intros Hp Hhp Hfit Hperm Hfound.
  assert (Hp0 : forall i, 0 <= period (tasks ts i))
    by (intros i; specialize (Hp i); lia).
  assert (Hp1 : forall i, period (tasks ts i) < INT_MAX) by (intros i; apply Hp).
  assert (Hp2 : forall i, 0 <= period (tasks ts i) < INT_MAX)
    by (intros i; specialize (Hp i); lia).
  assert (Hw : has_witness ts (prios ts)).
  { destruct Hfound as [(fuel & sims & ts' & Hrun)|(fuel & tr & ts' & Hrun)].
    - unfold test_fdms_phase_change_points in Hrun.
      apply (fdms_loop_success ts) in Hrun.
      + destruct Hrun as (cfg & Hin & Hok).
        apply (has_witness_set_pcps ts cfg Hin Hok).
      + intros i. specialize (Hp i). lia.
      + apply fdms_inv_start, Hp0.
    - pose proof (test_all_phase_change_points_outcome ts fuel Hp1) as H.
      rewrite Hrun in H.
      destruct H as [(_ & es & e & rest & _ & Hkeys & _ & Hnone & f & ts1 & Hsim)
                    |([=] & _)].
      apply (has_witness_set_pcps ts (fst e)).
      + rewrite Hkeys. apply in_app_iff. right. left. reflexivity.
      + rewrite Hnone in Hsim. exists f, ts1. exact Hsim. }
  split.
  - apply (verdict_finds ts all_permutations);
      [|apply in_all_permutations, Hperm | exact Hw].
    apply search_verdict; try assumption.
    + apply all_priority_permutations_verdict, Hp2.
    + rewrite length_all_permutations. reflexivity.
    + unfold LONG_MAX. lia.
    + apply le_n.
  - intros Hrm.
    apply (verdict_finds ts rm_permutations);
      [|apply in_rm_permutations; split; assumption | exact Hw].
    apply search_verdict; try assumption.
    + apply rm_priority_permutations_verdict, Hp2.
    + rewrite length_rm_permutations. reflexivity.
    + unfold LONG_MAX. lia.
    + apply le_n.
Qed.

Lemma exhaustive_searches_subsume_witness :
  exists perms ts',
    test_all_configurations_exhaustively (search_fuel small_schedulable)
                                         small_schedulable
    = Returned (1, perms) ts'.
Proof.
  apply (exhaustive_searches_subsume small_schedulable).
  - intros i. destruct i; vm_compute; split; reflexivity.
  - vm_compute. reflexivity.
  - vm_compute. discriminate.
  - apply is_perm8_sound. vm_compute. reflexivity.
  - right. exists 100%nat. eexists. eexists. vm_compute. reflexivity.
Defined.

(** ** The schedule repeats after the hyper-period *)

(** The simulation does not read the hyper-period but in its loop test. *)
Lemma tasks_with_hyper_period ts H i :
  tasks (with_hyper_period ts H) i = tasks ts i.
Proof. destruct i; reflexivity. Qed.

Lemma sas_tick_with_hyper_period ts H t :
  sas_tick (with_hyper_period ts H) t = with_hyper_period (sas_tick ts t) H.
Proof.
  assert (Hrel : forall i,
            tasks (release_ready (with_hyper_period ts H) t) i
            = tasks (release_ready ts t) i).
  { intros i. rewrite !tasks_release_ready, tasks_with_hyper_period.
    reflexivity. }
  assert (Hsel : get_highest_prio_active_task
                   (release_ready (with_hyper_period ts H) t) t
                 = get_highest_prio_active_task (release_ready ts t) t).
  { unfold get_highest_prio_active_task. f_equal. apply hp_scan_ext.
    - intros i. rewrite Hrel. reflexivity.
    - intros i _. rewrite Hrel. reflexivity. }
  unfold sas_tick. apply taskset_ext.
  - intros i. rewrite tasks_with_hyper_period, !tasks_execute_highest, Hsel, Hrel.
    reflexivity.
  - rewrite hyper_period_execute_highest, hyper_period_release_ready.
    reflexivity.
Qed.

Lemma sas_state_with_hyper_period ts H n :
  sas_state (with_hyper_period ts H) n = with_hyper_period (sas_state ts n) H.
Proof.
  induction n as [|n IH].
  - reflexivity.
  - rewrite !sas_state_succ, IH. apply sas_tick_with_hyper_period.
Qed.

Lemma first_deadline_miss_with_hyper_period ts H t :
  first_deadline_miss (with_hyper_period ts H) t = first_deadline_miss ts t.
Proof. reflexivity. Qed.

(** A task set [d] ticks later: the releases were [d] ticks later. *)
Definition shift_task (d : Z) (tk : task_t) : task_t :=
  set_sim_state tk (last_release_time tk + d) (remaining_wcet tk).

Definition shift (d : Z) (ts : taskset_t) : taskset_t :=
  mk_taskset (shift_task d (tasks0 ts)) (shift_task d (tasks1 ts))
             (shift_task d (tasks2 ts)) (shift_task d (tasks3 ts))
             (hyper_period ts).

Lemma tasks_shift d ts i : tasks (shift d ts) i = shift_task d (tasks ts i).
Proof. destruct i; reflexivity. Qed.

Lemma can_release_shift d tk t :
  0 <= last_release_time tk -> 0 <= d ->
  can_release (shift_task d tk) (t + d) = can_release tk t.
Proof.
  intros Hl Hd. unfold can_release, shift_task. simpl.
  replace (last_release_time tk + d <? 0) with false
    by (symmetry; apply Z.ltb_ge; lia).
  replace (last_release_time tk <? 0) with false
    by (symmetry; apply Z.ltb_ge; lia).
  replace (t + d - (last_release_time tk + d)) with (t - last_release_time tk)
    by lia.
  reflexivity.
Qed.

Lemma get_priority_shift d tk t :
  get_priority (shift_task d tk) (t + d) = get_priority tk t.
Proof.
  unfold get_priority, shift_task. simpl.
  replace (t + d - (last_release_time tk + d)) with (t - last_release_time tk)
    by lia.
  reflexivity.
Qed.

Lemma release_if_ready_shift d tk t :
  0 <= last_release_time tk -> 0 <= d ->
  release_if_ready (t + d) (shift_task d tk) = shift_task d (release_if_ready t tk).
Proof.
  intros Hl Hd. unfold release_if_ready. rewrite can_release_shift by assumption.
  destruct (can_release tk t); reflexivity.
Qed.

Lemma release_ready_shift d ts t :
  (forall i, 0 <= last_release_time (tasks ts i)) -> 0 <= d ->
  release_ready (shift d ts) (t + d) = shift d (release_ready ts t).
Proof.
  intros Hl Hd. apply taskset_ext.
  - intros i. rewrite tasks_release_ready, !tasks_shift, tasks_release_ready.
    apply release_if_ready_shift; [apply Hl | exact Hd].
  - rewrite hyper_period_release_ready. simpl.
    rewrite hyper_period_release_ready. reflexivity.
Qed.

Lemma hp_scan_shift d ts t l : forall acc,
  hp_scan (shift d ts) (t + d) l acc = hp_scan ts t l acc.
Proof.
  unfold hp_scan. induction l as [|i l IH]; intros acc; simpl; [reflexivity|].
  rewrite IH. f_equal. unfold hp_scan_step.
  rewrite tasks_shift, get_priority_shift. reflexivity.
Qed.

Lemma execute_highest_shift d ts t :
  execute_highest (shift d ts) (t + d) = shift d (execute_highest ts t).
Proof.
  assert (Hsel : get_highest_prio_active_task (shift d ts) (t + d)
                 = get_highest_prio_active_task ts t).
  { unfold get_highest_prio_active_task. rewrite hp_scan_shift. reflexivity. }
  apply taskset_ext.
  - intros i. rewrite tasks_shift, !tasks_execute_highest, Hsel, tasks_shift.
    destruct (get_highest_prio_active_task ts t) as [k|]; [|reflexivity].
    destruct (index_eqb k i); reflexivity.
  - rewrite hyper_period_execute_highest. simpl.
    rewrite hyper_period_execute_highest. reflexivity.
Qed.

Lemma sas_tick_shift d ts t :
  (forall i, 0 <= last_release_time (tasks ts i)) -> 0 <= d ->
  sas_tick (shift d ts) (t + d) = shift d (sas_tick ts t).
Proof.
  intros Hl Hd. unfold sas_tick.
  rewrite release_ready_shift by assumption. apply execute_highest_shift.
Qed.

Lemma has_missed_deadline_shift d tk t :
  0 <= last_release_time tk -> 0 <= d ->
  has_missed_deadline (shift_task d tk) (t + d) = has_missed_deadline tk t.
Proof.
  intros Hl Hd. unfold has_missed_deadline.
  rewrite can_release_shift by assumption. reflexivity.
Qed.

Section Periodic.

Variable ts : taskset_t.
Hypothesis periods_divide :
  forall i, 0 < period (tasks ts i) /\ (period (tasks ts i) | hyper_period ts).
Hypothesis hyper_period_pos : 0 < hyper_period ts.

Let h : nat := Z.to_nat (hyper_period ts).

(** From its first tick on, every task has been released. *)
Lemma released_sas_state n i :
  Z.of_nat n <= LONG_MAX ->
  0 <= last_release_time (tasks (sas_state ts (S n)) i).
Proof.
  intros Hn. destruct (periods_divide i) as [Hp _].
  rewrite (last_release_time_multiple ts i n Hp Hn).
  apply Z.mul_nonneg_nonneg; [lia|]. apply Z.div_pos; lia.
Qed.

(** If no deadline is missed at the end of the hyper-period, the
    simulation is then where it was after tick 0, one hyper-period later. *)
Lemma sas_state_after_hyper_period :
  Z.of_nat h <= LONG_MAX ->
  first_deadline_miss (sas_state ts h) (Z.of_nat h) = None ->
  sas_state ts (S h) = shift (hyper_period ts) (sas_state ts 1).
Proof.
  intros Hh Hnone. rewrite first_deadline_miss_none in Hnone.
  assert (Hh' : Z.of_nat h = 0 + hyper_period ts) by (unfold h; lia).
  assert (Hrel : release_ready (sas_state ts h) (Z.of_nat h)
                 = shift (hyper_period ts) (release_ready (sas_state ts 0) 0)).
  { apply taskset_ext.
    - intros i. rewrite tasks_shift, !tasks_release_ready.
      destruct (periods_divide i) as [Hp [c Hc]].
      assert (Hc' : can_release (tasks (sas_state ts h) i) (Z.of_nat h) = true).
      { apply release_rounds; [exact Hp | exact Hh |].
        rewrite Hh', Hc. apply Z.mod_mul. lia. }
      pose proof (f_equal (fun x => tasks x i) (static_sas_state ts h)) as Hst.
      simpl in Hst. rewrite !tasks_reset in Hst.
      unfold release_if_ready. rewrite Hc'.
      simpl sas_state. rewrite tasks_reset.
      unfold can_release, release, shift_task, set_sim_state in *. simpl.
      injection Hst as H1 H2 H3 H4 H5. rewrite H1, H2, H3, H4, H5, Hh'.
      reflexivity.
    - unfold shift. cbn [hyper_period].
      rewrite !hyper_period_release_ready, !hyper_period_sas_state.
      reflexivity. }
  rewrite !sas_state_succ. unfold sas_tick. rewrite Hrel, Hh'.
  apply execute_highest_shift.
Qed.

Lemma sas_state_periodic :
  first_deadline_miss (sas_state ts h) (Z.of_nat h) = None ->
  forall n, Z.of_nat (h + S n) <= LONG_MAX ->
  sas_state ts (h + S n) = shift (hyper_period ts) (sas_state ts (S n)).
Proof.
  intros Hnone n. induction n as [|n IH]; intros Hn.
  - replace (h + 1)%nat with (S h) by lia.
    apply sas_state_after_hyper_period; [lia | exact Hnone].
  - replace (h + S (S n))%nat with (S (h + S n)) by lia.
    rewrite sas_state_succ, IH by lia.
    rewrite (sas_state_succ ts (S n)).
    replace (Z.of_nat (h + S n)) with (Z.of_nat (S n) + hyper_period ts)
      by (unfold h; lia).
    apply sas_tick_shift; [|lia].
    intros i. apply released_sas_state. lia.
Qed.

(** No miss in the first hyper-period, no miss ever. *)
Lemma no_miss_ever :
  (forall m, (m <= h)%nat ->
     first_deadline_miss (sas_state ts m) (Z.of_nat m) = None) ->
  forall m, Z.of_nat m <= LONG_MAX ->
  first_deadline_miss (sas_state ts m) (Z.of_nat m) = None.
Proof.
  intros Hfirst m. induction m as [m IH] using lt_wf_ind. intros Hm.
  destruct (le_lt_dec m h) as [Hle|Hgt]; [apply Hfirst, Hle|].
  assert (Hh : (0 < h)%nat) by (unfold h; lia).
  destruct (Nat.eq_dec (m - h) 0) as [|Hne]; [lia|].
  assert (Hm' : exists n, m = (h + S n)%nat).
  { exists (m - h - 1)%nat. lia. }
  destruct Hm' as (n & ->).
  specialize (IH (S n) ltac:(lia) ltac:(lia)).
  rewrite first_deadline_miss_none in *. intros j.
  rewrite sas_state_periodic by (try apply Hfirst; lia).
  replace (Z.of_nat (h + S n)) with (Z.of_nat (S n) + hyper_period ts)
    by (unfold h; lia).
  rewrite tasks_shift, has_missed_deadline_shift; [apply IH | | lia].
  apply released_sas_state. lia.
Qed.

End Periodic.

Lemma scan_rounds_more ts k count : forall n count',
  scan_rounds ts n count = Some k -> (count <= count')%nat ->
  scan_rounds ts n count' = Some k.
Proof.
  induction count as [|c IH]; intros n count'; simpl; [discriminate|].
  intros H Hle. destruct count' as [|c']; [lia|]. simpl.
  destruct (first_deadline_miss (sas_state ts n) (Z.of_nat n)); [exact H|].
  apply IH; [exact H | lia].
Qed.

(** X21: the end of the simulation at the hyper-period is sound. For
    positive periods that divide a positive hyper-period, [simulate_sas]
    returns the same, a task or [NULL], when it is made to simulate longer:
    up to any time below [LONG_MAX] in place of the hyper-period. *)
Theorem simulate_sas_beyond_hyper_period
    (ts : taskset_t) (H : Z) (v : option task_index) :
  (forall i, 0 < period (tasks ts i) /\
             (period (tasks ts i) | hyper_period ts)) ->
  0 < hyper_period ts ->
  hyper_period ts <= H < LONG_MAX ->
  sas_returns (with_hyper_period ts H) v <-> sas_returns ts v.
Proof.
  intros Hp Hpos HH.
  rewrite !sas_returns_scan_rounds by (simpl; lia).
  cbn [with_hyper_period hyper_period].
  assert (Hsame : scan_rounds (with_hyper_period ts H) 0 (Z.to_nat (H + 1))
                  = scan_rounds ts 0 (Z.to_nat (H + 1))).
  { apply scan_rounds_same. intros m _.
    rewrite sas_state_with_hyper_period.
    apply first_deadline_miss_with_hyper_period. }
  rewrite Hsame.
  destruct (scan_rounds ts 0 (Z.to_nat (hyper_period ts + 1))) as [k|] eqn:E.
  - rewrite (scan_rounds_more ts k _ 0 (Z.to_nat (H + 1)) E) by lia.
    reflexivity.
  - rewrite scan_rounds_none in E.
    assert (E' : scan_rounds ts 0 (Z.to_nat (H + 1)) = None).
    { apply scan_rounds_none. intros m Hm.
      apply (no_miss_ever ts Hp Hpos); [|lia].
      intros m' Hm'. apply E. lia. }
    rewrite E'. reflexivity.
Qed.

Lemma simulate_sas_beyond_hyper_period_witness :
  sas_returns (with_hyper_period small_schedulable 1000) None <->
  sas_returns small_schedulable None.
Proof.
  apply (simulate_sas_beyond_hyper_period small_schedulable 1000).
  - intros i. split; [destruct i; reflexivity|].
    destruct i; [exists 6 | exists 3 | exists 12 | exists 4]; reflexivity.
  - reflexivity.
  - vm_compute. split; congruence.
Defined.

(** ** The first schedulable combination *)

(** X22: [test_all_phase_change_points] stops at the first schedulable
    combination in the order of its loops (the phase change point of the
    first task outermost, each from 0 upwards): when it returns 1 (periods
    below [INT_MAX]), the phase change points it leaves are in the search
    space and [simulate_sas] returns a task for every combination before
    them. *)
Theorem test_all_phase_change_points_first
    (ts : taskset_t) (fuel : nat) (tr : list sim_record) (ts' : taskset_t) :
  (forall i, period (tasks ts i) < INT_MAX) ->
  test_all_phase_change_points fuel ts = Returned (1, tr) ts' ->
  exists before after,
    pcp_space ts = before ++ pcps ts' :: after /\
    forall cfg, In cfg before -> exists k, sas_returns (set_pcps ts cfg) (Some k).
Proof.
  intros Hp Hrun.
  pose proof (test_all_phase_change_points_outcome ts fuel Hp) as Hout.
  rewrite Hrun in Hout.
  destruct Hout as [(_ & es & e & rest & Htr & Hkeys & Hmiss & _)|([=] & _)].
  unfold test_all_phase_change_points in Hrun.
  destruct (all_phase_change_points fuel (mk_search ts 0 [])) as [s|r s| |] eqn:E;
    try discriminate.
  { destruct (_ =? _); discriminate. }
  injection Hrun as -> <- <-.
  destruct (all_phase_change_points_found _ _ _ _ E) as (_ & _ & es' & Hlast).
  rewrite Htr in Hlast. apply app_inj_tail in Hlast. destruct Hlast as [_ ->].
  simpl in Hkeys. exists (map fst es), rest. split; [exact Hkeys|].
  intros cfg Hin. apply in_map_iff in Hin. destruct Hin as (e0 & He0 & Hin0).
  rewrite Forall_forall in Hmiss.
  destruct (Hmiss e0 Hin0) as (Hne & f & ts1 & Hsim).
  destruct (snd e0) as [k|] eqn:Ek; [|contradiction].
  exists k, f, ts1. rewrite <- He0. exact Hsim.
Qed.

Lemma test_all_phase_change_points_first_witness :
  exists before after ts',
    pcp_space small_schedulable = before ++ pcps ts' :: after /\
    forall cfg, In cfg before ->
      exists k, sas_returns (set_pcps small_schedulable cfg) (Some k).
Proof.
  assert (Hrun : exists tr ts',
            test_all_phase_change_points 100 small_schedulable
            = Returned (1, tr) ts')
    by (eexists; eexists; vm_compute; reflexivity).
  destruct Hrun as (tr & ts' & Hrun).
  destruct (test_all_phase_change_points_first small_schedulable 100 tr ts')
    as (before & after & H).
  - intros i. destruct i; vm_compute; reflexivity.
  - exact Hrun.
  - exists before, after, ts'. exact H.
Defined.

(** ** The third counterexample *)

(** The FDMS loop reads its task set through [simulate_sas] only. *)
Lemma fdms_loop_config fuel ts ts2 sims :
  reset_simulation_state ts = reset_simulation_state ts2 ->
  fdms_loop fuel ts sims = fdms_loop fuel ts2 sims.
Proof.
  intros H. destruct fuel as [|fuel]; simpl; [reflexivity|].
  rewrite (simulate_sas_config fuel ts ts2 H).
  assert (Hp : pcps ts = pcps ts2).
  { unfold pcps.
    pose proof (f_equal (fun x => phase_change_point (tasks x I0)) H) as H0.
    pose proof (f_equal (fun x => phase_change_point (tasks x I1)) H) as H1.
    pose proof (f_equal (fun x => phase_change_point (tasks x I2)) H) as H2.
    pose proof (f_equal (fun x => phase_change_point (tasks x I3)) H) as H3.
    simpl in H0, H1, H2, H3. congruence. }
  rewrite Hp. reflexivity.
Qed.

Lemma test_fdms_static fuel ts ts2 :
  same_static ts ts2 ->
  test_fdms_phase_change_points fuel ts = test_fdms_phase_change_points fuel ts2.
Proof.
  intros H. unfold test_fdms_phase_change_points. apply fdms_loop_config.
  rewrite !pcps_to_periods_cells, !reset_set_pcps, H.
  assert (Hp : periods ts = periods ts2).
  { unfold periods.
    pose proof (same_static_period _ _ I0 H) as H0.
    pose proof (same_static_period _ _ I1 H) as H1.
    pose proof (same_static_period _ _ I2 H) as H2.
    pose proof (same_static_period _ _ I3 H) as H3.
    simpl in H0, H1, H2, H3. congruence. }
  rewrite Hp. reflexivity.
Qed.

(** Fuel for the runs on the third counterexample, whose hyper-period is
    187220. *)
Definition cex3_fuel : nat := Z.to_nat 200000.

(** C8: on the task set of the third counterexample (whatever the fields
    that [verify_counterexample_3] leaves uninitialised hold), with the
    priorities (4,0), (5,1), (6,2), (7,3), [test_fdms_phase_change_points]
    returns 0; and [simulate_sas] on the task set as that call leaves it, with
    the phase change points set to 5, 3, 25, 35, returns [NULL]. *)
Theorem fdms_fails_on_schedulable (ts : taskset_t) :
  same_static ts cex3 ->
  exists sims ts1 ts2,
    test_fdms_phase_change_points cex3_fuel ts = Returned (0, sims) ts1 /\
    simulate_sas cex3_fuel (set_pcps ts1 (5, 3, 25, 35)) = Returned None ts2.
Proof.
  intros H. rewrite (test_fdms_static cex3_fuel ts cex3 H).
  eexists. eexists. eexists.
  split; [vm_compute; reflexivity | vm_compute; reflexivity].
Qed.

Lemma fdms_fails_on_schedulable_witness :
  exists sims ts1 ts2,
    test_fdms_phase_change_points cex3_fuel cex3 = Returned (0, sims) ts1 /\
    simulate_sas cex3_fuel (set_pcps ts1 (5, 3, 25, 35)) = Returned None ts2.
Proof.
  apply (fdms_fails_on_schedulable cex3). reflexivity.
Defined.

(** ** The exhaustive searches on an overloaded task set *)

(** The witness of C6: on [all_overloaded] both searches go through all
    their permutations and return 0. *)
Lemma exhaustive_searches_generate_all_witness :
  returned_trace (test_all_configurations_exhaustively 100 all_overloaded)
  = all_permutations
  /\ returned_trace (test_rm_configurations_exhaustively 100 all_overloaded)
     = rm_permutations.
Proof.
  destruct exhaustive_searches_generate_all
    as (_ & Hall & _ & _ & _ & _ & Hrm & _).
  assert (Hrun : forall L loops total,
            verdict_emits all_overloaded (search_fuel all_overloaded) [] L loops ->
            Z.of_nat (length L) = total -> total <= 40320 ->
            exists ts',
              finish_search total (loops 100%nat (mk_search all_overloaded 0 []))
              = Returned (0, L) ts').
  { intros L loops total Hem Hlen Htot.
    apply (overloaded_search all_overloaded I0); try assumption.
    - intros i. destruct i; vm_compute; split; congruence.
    - vm_compute. discriminate.
    - vm_compute. reflexivity.
    - vm_compute. split; congruence.
    - vm_compute. split; congruence.
    - apply Nat.leb_le. vm_compute. reflexivity.
    - unfold LONG_MAX. lia. }
  assert (Hper : forall i, 0 <= period (tasks all_overloaded i) < INT_MAX)
    by (intros i; destruct i; vm_compute; split; congruence).
  split.
  - apply (Hall 100%nat all_overloaded).
    destruct (Hrun all_permutations all_priority_permutations (8*7*6*5*4*3*2*1))
      as (ts' & H);
      [apply all_priority_permutations_verdict, Hper
      | apply length_all_permutations | lia |].
    unfold test_all_configurations_exhaustively. rewrite H. reflexivity.
  - apply (Hrm 100%nat all_overloaded).
    destruct (Hrun rm_permutations rm_priority_permutations (8*7*6*5))
      as (ts' & H);
      [apply rm_priority_permutations_verdict, Hper
      | apply length_rm_permutations | lia |].
    unfold test_rm_configurations_exhaustively. rewrite H. reflexivity.
Defined.
